(** * SquidExcelAgent: the workbook engine of [server/src/sheet.ts]

    A shallow embedding of the [SheetModel] class: the address codec
    ([a1ToRc], [rcToA1]), the mutation operations with their event log
    and [undo], the formula evaluator ([evaluateCell] and its helpers),
    the JSON import and the read of a provenance, and of the summary of
    a workbook in [server/src/agent.ts]; followed by the properties the
    specification states about them (C1 to C10) and by further
    properties read off the code (X1 to X29).

    Conventions of the embedding.
    - A JavaScript string is a Rocq [string]; its code units are the
      8-bit ones.  Integers that the engine uses as coordinates are [Z]
      (they are doubles in the engine, exact below 2^53); numbers that
      are cell values are IEEE binary64 floats ([float]).
    - A method of the class is a function from the workbook to the
      workbook after the call and an [Outcome]: a returned value, a thrown
      exception, or [Diverge] when the fuel of a loop or of the recursion
      ran out.  A thrown exception keeps the mutations made before it, as
      in the engine.
    - What the JavaScript runtime provides and the repository does not
      define ([Number(s)], [String(n)], the [Function] constructor) is a
      field of the class [JsHost]. *)

From Stdlib Require Import ZArith Lia List Ascii String Floats Bool.
From stdpp Require Import base option list strings gmap.

Local Open Scope string_scope.
Local Open Scope list_scope.
Local Open Scope Z_scope.

(* Concatenation of strings computes under [simpl] in this file. *)
#[local] Arguments String.append !s1 s2 : simpl nomatch.

(** ** Text: the string primitives the engine relies on *)

Module Text.

Definition code (a : ascii) : Z := Z.of_N (N_of_ascii a).

(** [String.fromCharCode] on a code unit below 256. *)
Definition chr (z : Z) : ascii := ascii_of_N (Z.to_N z).

Definition between (lo hi : Z) (a : ascii) : bool :=
  (lo <=? code a) && (code a <=? hi).

Definition isUpper : ascii -> bool := between 65 90.
Definition isLower : ascii -> bool := between 97 122.
Definition isLetter (a : ascii) : bool := isUpper a || isLower a.
Definition isDigit : ascii -> bool := between 48 57.

(** The class [\w] of a regular expression, whose complement delimits [\b]. *)
Definition isWord (a : ascii) : bool :=
  isLetter a || isDigit a || (code a =? 95).

(** The class [\s], which is also what [trim] strips: TAB, LF, VT, FF, CR,
    space and the no-break space. *)
Definition isSpace (a : ascii) : bool :=
  between 9 13 a || (code a =? 32) || (code a =? 160).

Definition upper (a : ascii) : ascii :=
  if isLower a then chr (code a - 32) else a.

Fixpoint toUpperCase (s : string) : string :=
  match s with
  | EmptyString => EmptyString
  | String a r => String (upper a) (toUpperCase r)
  end.

Fixpoint allS (p : ascii -> bool) (s : string) : bool :=
  match s with
  | EmptyString => true
  | String a r => p a && allS p r
  end.

Definition nonEmpty (s : string) : bool :=
  match s with EmptyString => false | String _ _ => true end.

(** The longest prefix whose characters satisfy [p], and what follows it. *)
Fixpoint spanS (p : ascii -> bool) (s : string) : string * string :=
  match s with
  | EmptyString => (EmptyString, EmptyString)
  | String a r =>
      if p a then let '(l, t) := spanS p r in (String a l, t)
      else (EmptyString, s)
  end.

Fixpoint trimStart (s : string) : string :=
  match s with
  | EmptyString => EmptyString
  | String a r => if isSpace a then trimStart r else s
  end.

Fixpoint trimEnd (s : string) : string :=
  match s with
  | EmptyString => EmptyString
  | String a r =>
      match trimEnd r with
      | EmptyString => if isSpace a then EmptyString else String a EmptyString
      | r' => String a r'
      end
  end.

Definition trim (s : string) : string := trimEnd (trimStart s).

(** [s.startsWith(p)] *)
Fixpoint startsWith (p s : string) : bool :=
  match p, s with
  | EmptyString, _ => true
  | String a p', String b s' => Ascii.eqb a b && startsWith p' s'
  | String _ _, EmptyString => false
  end.

(** [s.includes(p)] *)
Fixpoint includes (p s : string) : bool :=
  startsWith p s ||
  match s with
  | EmptyString => false
  | String _ r => includes p r
  end.

(** [s.split(sep)] for a one-character separator: never the empty list. *)
Fixpoint split (sep : ascii) (s : string) : list string :=
  match s with
  | EmptyString => [EmptyString]
  | String a r =>
      if Ascii.eqb a sep then EmptyString :: split sep r
      else match split sep r with
           | [] => [String a EmptyString]
           | w :: ws => String a w :: ws
           end
  end.

(** [s.replace(/,/g, '')] and the like: drop every occurrence of [c]. *)
Fixpoint remove (c : ascii) (s : string) : string :=
  match s with
  | EmptyString => EmptyString
  | String a r => if Ascii.eqb a c then remove c r else String a (remove c r)
  end.

(** [s.slice(1)] *)
Definition slice1 (s : string) : string :=
  match s with
  | EmptyString => EmptyString
  | String _ r => r
  end.

(** The last character of a string, as a string. *)
Fixpoint lastChar (s : string) : string :=
  match s with
  | EmptyString => EmptyString
  | String a EmptyString => s
  | String _ r => lastChar r
  end.

(** The decimal digits of a non-negative integer, most significant first. *)
Fixpoint digitsOf (fuel : nat) (n : Z) (acc : string) : string :=
  match fuel with
  | O => acc
  | S k =>
      let acc' := String (chr (48 + n mod 10)) acc in
      if n <? 10 then acc' else digitsOf k (n / 10) acc'
  end.

(** What string concatenation makes of an integer: [s + (r + 1)]. *)
Definition ofInt (z : Z) : string :=
  if z <? 0 then String "-" (digitsOf (S (Z.to_nat (- z))) (- z) EmptyString)
  else digitsOf (S (Z.to_nat z)) z EmptyString.

(** [parseInt(s, 10)] on a string of decimal digits. *)
Fixpoint digitsValue (acc : Z) (s : string) : Z :=
  match s with
  | EmptyString => acc
  | String a r => digitsValue (acc * 10 + (code a - 48)) r
  end.

Definition parseInt (s : string) : Z := digitsValue 0 s.

End Text.

(** ** Outcomes and exceptions *)

Inductive Err : Type :=
| SheetNotFound (name : string)   (* Error(`Sheet not found: ${name}`) *)
| SheetExists                     (* Error('Sheet exists') *)
| BadA1Ref (ref : string)         (* Error(`Bad A1 ref: ${ref}`) *)
| UnknownOp (op : string)         (* Error(`Unknown op ${op}`) *)
| TypeError.                      (* a property read or written on undefined *)

Inductive Outcome (A : Type) : Type :=
| Ret (a : A)
| Throw (e : Err)
| Diverge.

Arguments Ret {A} a.
Arguments Throw {A} e.
Arguments Diverge {A}.

(** ** The address codec

    Rows and columns are integers of [Z]; the engine computes them as
    doubles, with the same results as long as they are safe integers
    (below 2^53 in absolute value): [safeInteger] is a hypothesis of the
    properties that depend on it. *)

Module Codec.
Import Text.

(** The match of [/^([A-Za-z]+)([0-9]+)$/]: the two groups. *)
Definition matchA1 (ref : string) : option (string * string) :=
  let '(letters, rest) := spanS isLetter ref in
  if nonEmpty letters && nonEmpty rest && allS isDigit rest
  then Some (letters, rest) else None.

(** The loop [for (i ...) col = col * 26 + (colStr.charCodeAt(i) - 64)]. *)
Fixpoint colValue (col : Z) (colStr : string) : Z :=
  match colStr with
  | EmptyString => col
  | String a r => colValue (col * 26 + (code a - 64)) r
  end.

Definition a1ToRc (ref : string) : Outcome (Z * Z) :=
  match matchA1 ref with
  | None => Throw (BadA1Ref ref)
  | Some (m1, m2) =>
      let colStr := toUpperCase m1 in
      let row := parseInt m2 - 1 in
      let col := colValue 0 colStr in
      Ret (row, col - 1)
  end.

(** The loop [while (n > 0) { rem = (n-1) % 26; s = chr(65+rem) + s;
    n = floor((n-1)/26) }]; [n] strictly decreases, so [Z.to_nat n]
    rounds are enough ([colLoop_fuel] below). *)
Fixpoint colLoop (fuel : nat) (n : Z) (s : string) : string :=
  match fuel with
  | O => s
  | S k =>
      if 0 <? n then
        let rem := Z.rem (n - 1) 26 in
        colLoop k ((n - 1) / 26) (String (chr (65 + rem)) s)
      else s
  end.

Definition rcToA1 (r c : Z) : string :=
  let n := c + 1 in
  colLoop (Z.to_nat n) n EmptyString +:+ ofInt (r + 1).

End Codec.

(** ** Computations on a mutable object *)

(** A computation over a mutable state [S]: the state after it, and how it
    ended. *)
Definition M (S A : Type) : Type := S -> S * Outcome A.

Definition ret {S A} (a : A) : M S A := fun s => (s, Ret a).
Definition throw {S A} (e : Err) : M S A := fun s => (s, Throw e).
Definition diverge {S A} : M S A := fun s => (s, Diverge).

Definition bind {S A B} (m : M S A) (k : A -> M S B) : M S B :=
  fun s =>
    match m s with
    | (s', Ret a) => k a s'
    | (s', Throw e) => (s', Throw e)
    | (s', Diverge) => (s', Diverge)
    end.

Definition get {S} : M S S := fun s => (s, Ret s).
Definition put {S} (s : S) : M S unit := fun _ => (s, Ret tt).
Definition modify {S} (f : S -> S) : M S unit := fun s => (f s, Ret tt).

Notation "'let*' x ':=' m 'in' k" := (bind m (fun x => k))
  (at level 10, x binder, m at level 200, k at level 200).
Notation "m ;; k" := (bind m (fun _ => k))
  (at level 100, right associativity).

(** [for (const x of l) body(x)] *)
Fixpoint forEach {S A} (l : list A) (body : A -> M S unit) : M S unit :=
  match l with
  | [] => ret tt
  | x :: l' => (body x ;; forEach l' body)
  end.

(** [for (...; cond; ...) body] when the bound is read again at each round;
    a round costs one unit of fuel, the test none. *)
Fixpoint while {S} (fuel : nat) (cond : S -> bool) (body : M S unit) : M S unit :=
  fun s =>
    if cond s then
      match fuel with
      | O => (s, Diverge)
      | S k => (body ;; while k cond body) s
      end
    else (s, Ret tt).

(** The pairs (index, element) of an array, as [for (let i = 0; i < a.length; i++)]
    visits them. *)
Definition indexed {A} (l : list A) : list (nat * A) := zip (seq 0 (length l)) l.

(** ** The data model *)

Inductive Val : Type :=
| VUndef                (* undefined *)
| VNull                 (* null *)
| VNum (n : float)
| VStr (s : string).

(** Modelled from the spec: [CellProvenance] is declared in [types.ts], which
    is not among the sources; the spec calls it free-form attribution
    metadata, and the engine never looks inside a record. *)
Definition CellProvenance : Type := string.

(** Modelled from the spec: the [Cell] of [types.ts], with the four
    properties [sheet.ts] reads and writes.  An absent property is
    [undefined]: [VUndef] for the value, [None] for the others. *)
Record Cell : Type := mkCell {
  value : Val;
  formula : option string;
  format : option string;
  provenance : option (list CellProvenance)
}.

(** The object [{ value: null }] that pads a grid. *)
Definition defaultCell : Cell := mkCell VNull None None None.

(** The object [{}], which is what the spread of [undefined] gives. *)
Definition emptyObject : Cell := mkCell VUndef None None None.

(** A row is a JavaScript array of cells: an index inside its length may be
    a hole ([None]), which reads as [undefined]. *)
Abbreviation Row := (list (option Cell)).

(** Modelled from the spec: the [Sheet] of [types.ts]. *)
Record Sheet : Type := mkSheet {
  name : string;
  rows : list Row
}.

(** Modelled from the spec: the [RangeRef] of [types.ts], inclusive 0-based
    bounds on one sheet. *)
Record RangeRef : Type := mkRange {
  sheet : string;
  r1 : nat;
  c1 : nat;
  r2 : nat;
  c2 : nat
}.

(** An operation name with its arguments, as [dispatch] receives them. *)
Inductive Op : Type :=
| OpCreateSheet (nm : string)
| OpDeleteSheet (nm : string)
| OpRestoreSheet (sh : Sheet)
| OpSetValues (range : RangeRef) (values : list (list Val))
    (prov : option (list CellProvenance))
| OpSetFormulas (range : RangeRef) (formulas : list (list (option string)))
| OpFormatRange (range : RangeRef) (fmt : option string)
| OpSetCells (range : RangeRef) (cells : list (list Cell))
| OpLinkProvenance (range : RangeRef) (prov : list CellProvenance)
| OpNoop
| OpOther (op : string).

(** Modelled from the spec: the [SheetEvent] of [types.ts].  Its [id] and
    [ts] come from [Math.random] and [Date.now]; nothing reads them back
    and they are left out. *)
Record SheetEvent : Type := mkEvent {
  op : Op;
  inverse : Op;
  summary : string
}.

(** A checkpoint; [cpId = None] stands for a generated identifier. *)
Record Checkpoint : Type := mkCheckpoint {
  cpId : option string;
  atEvent : nat
}.

(** ** A JavaScript [Map] with string keys: insertion order is kept *)

Module JsMap.
Section WithValues.
Context {V : Type}.

Definition t : Type := list (string * V).

Fixpoint get (k : string) (m : t) : option V :=
  match m with
  | [] => None
  | (k', v) :: m' => if String.eqb k' k then Some v else get k m'
  end.

Definition has (k : string) (m : t) : bool :=
  match get k m with Some _ => true | None => false end.

(** [m.set(k, v)]: in place for a key of the map, at the end otherwise. *)
Fixpoint set (k : string) (v : V) (m : t) : t :=
  match m with
  | [] => [(k, v)]
  | (k', v') :: m' =>
      if String.eqb k' k then (k, v) :: m' else (k', v') :: set k v m'
  end.

Fixpoint delete (k : string) (m : t) : t :=
  match m with
  | [] => []
  | (k', v') :: m' =>
      if String.eqb k' k then m' else (k', v') :: delete k m'
  end.

Definition size (m : t) : nat := length m.
Definition values (m : t) : list V := map snd m.

End WithValues.
Arguments t V : clear implicits.
End JsMap.

(** Modelled from the spec: the [Workbook] of [types.ts]. *)
Record Workbook : Type := mkWorkbook {
  wbId : string;
  sheets : JsMap.t Sheet;
  checkpoints : list Checkpoint;
  events : list SheetEvent
}.

(** ** The engine: helpers, events and mutation operations *)

Module Engine.
Import Text Codec.

(** *** Arrays *)

(** [a[i]], where a hole and an index out of range both read [undefined]. *)
Definition readAt {A} (l : list (option A)) (i : nat) : option A :=
  mjoin (l !! i).

(** [a[i] = x]: inside the length the slot is overwritten, past it the array
    grows and the slots in between are holes. *)
Definition writeAt {A} (i : nat) (x : A) (l : list (option A)) : list (option A) :=
  if (i <? length l)%nat then <[i := Some x]> l
  else l ++ replicate (i - length l) None ++ [Some x].

(** [{ ...c }] *)
Definition spread (c : option Cell) : Cell := default emptyObject c.

(** [c ?? { value: null }] *)
Definition orDefault (c : option Cell) : Cell := default defaultCell c.

(** [rows[r]?.[c]]: the cell object at (r, c) of a grid, if there is one. *)
Definition cellOf (rs : list (list (option Cell))) (r c : nat) : option Cell :=
  match rs !! r with
  | Some row => readAt row c
  | None => None
  end.

(** *** Sheets *)

(** [getSheet(name)] *)
Definition getSheet (nm : string) : M Workbook Sheet :=
  fun wb =>
    match JsMap.get nm (sheets wb) with
    | Some s => (wb, Ret s)
    | None => (wb, Throw (SheetNotFound nm))
    end.

(** The body of [ensureSize] on the rows of the sheet: first
    [while (s.rows.length < rows) s.rows.push([])], then for every row
    [while (r.length < cols) r.push({ value: null })]. *)
Definition padRow (cols : nat) (r : Row) : Row :=
  r ++ replicate (cols - length r) (Some defaultCell).

Definition ensureRows (nrows ncols : nat) (rs : list Row) : list Row :=
  map (padRow ncols) (rs ++ replicate (nrows - length rs) []).

(** The sheet objects live in the map: a mutation of the rows of the sheet
    found under [nm] is a replacement of that entry, which keeps its place. *)
Definition setRows (nm : string) (rs : list Row) (wb : Workbook) : Workbook :=
  match JsMap.get nm (sheets wb) with
  | Some s =>
      mkWorkbook (wbId wb) (JsMap.set nm (mkSheet (name s) rs) (sheets wb))
        (checkpoints wb) (events wb)
  | None => wb
  end.

(** Run on the rows of the sheet [nm] a computation that mutates them; the
    mutations made before an exception stay. *)
Definition onRows {A} (nm : string) (m : M (list Row) A) : M Workbook A :=
  let* s := getSheet nm in
  fun wb =>
    let '(rs, o) := m (rows s) in (setRows nm rs wb, o).

Definition ensureSize (nm : string) (nrows ncols : nat) : M Workbook unit :=
  onRows nm (modify (ensureRows nrows ncols)).

(** [s.rows[r][c]] as an expression: a [TypeError] when the row is
    [undefined], the cell or [undefined] otherwise. *)
Definition cellAt (r c : nat) : M (list Row) (option Cell) :=
  fun rs =>
    match rs !! r with
    | Some row => (rs, Ret (readAt row c))
    | None => (rs, Throw TypeError)
    end.

(** [s.rows[r][c] = x] *)
Definition setCellAt (r c : nat) (x : Cell) : M (list Row) unit :=
  fun rs =>
    match rs !! r with
    | Some row => (<[r := writeAt c x row]> rs, Ret tt)
    | None => (rs, Throw TypeError)
    end.

(** [for (let i = lo; i <= hi; i++)] *)
Definition fromTo (lo hi : nat) : list nat := seq lo (S hi - lo).

(** [mapM] for computations: the loop [for (x of l) out.push(f(x))]. *)
Fixpoint collect {S A B} (l : list A) (f : A -> M S B) : M S (list B) :=
  match l with
  | [] => ret []
  | x :: l' =>
      let* y := f x in
      let* ys := collect l' f in
      ret (y :: ys)
  end.

(** A loop that carries an accumulator: [for (x of l) acc = f(acc, x)]. *)
Fixpoint foldM {S A B} (f : B -> A -> M S B) (l : list A) (b : B) : M S B :=
  match l with
  | [] => ret b
  | x :: l' => let* b' := f b x in foldM f l' b'
  end.

(** [snapshot(range)] *)
Definition snapshot (range : RangeRef) : M Workbook (list (list Cell)) :=
  let* _ := getSheet (sheet range) in
  ensureSize (sheet range) (r2 range + 1) (c2 range + 1) ;;
  onRows (sheet range)
    (collect (fromTo (r1 range) (r2 range)) (fun r =>
       collect (fromTo (c1 range) (c2 range)) (fun c =>
         let* x := cellAt r c in ret (spread x)))).

(** *** Events and checkpoints *)

Definition appendEvent (o inv : Op) (summ : string) : M Workbook SheetEvent :=
  fun wb =>
    let ev := mkEvent o inv summ in
    (mkWorkbook (wbId wb) (sheets wb) (checkpoints wb) (events wb ++ [ev]), Ret ev).

Definition checkpoint (id : option string) : M Workbook Checkpoint :=
  fun wb =>
    let cp := mkCheckpoint id (length (events wb)) in
    (mkWorkbook (wbId wb) (sheets wb) (checkpoints wb ++ [cp]) (events wb), Ret cp).

Definition setSheets (f : JsMap.t Sheet -> JsMap.t Sheet) : M Workbook unit :=
  modify (fun wb => mkWorkbook (wbId wb) (f (sheets wb)) (checkpoints wb) (events wb)).

(** *** Sheet operations *)

Definition createSheet (nm : string) : M Workbook unit :=
  let* wb := get in
  if JsMap.has nm (sheets wb) then throw SheetExists
  else
    setSheets (JsMap.set nm (mkSheet nm [])) ;;
    appendEvent (OpCreateSheet nm) (OpDeleteSheet nm) ("create " +:+ nm) ;;
    ret tt.

Definition deleteSheet (nm : string) : M Workbook unit :=
  let* s := getSheet nm in
  setSheets (JsMap.delete nm) ;;
  appendEvent (OpDeleteSheet nm) (OpRestoreSheet s) ("delete " +:+ nm) ;;
  ret tt.

Definition restoreSheet (sh : Sheet) : M Workbook unit :=
  setSheets (JsMap.set (name sh) sh) ;;
  appendEvent (OpRestoreSheet sh) (OpDeleteSheet (name sh)) ("restore " +:+ name sh) ;;
  ret tt.

(** The address of the top left corner of a range, for the summaries. *)
Definition cornerA1 (range : RangeRef) : string :=
  rcToA1 (Z.of_nat (r1 range)) (Z.of_nat (c1 range)).

(** The two nested loops over a grid of arguments aligned to the origin of
    the range: [body rr cc x] for the entry [x] of row [r], column [c], with
    [rr = range.r1 + r] and [cc = range.c1 + c]. *)
Definition overGrid {A} (range : RangeRef) (grid : list (list A))
    (body : nat -> nat -> A -> M (list Row) unit) : M (list Row) unit :=
  forEach (indexed grid) (fun '(r, line) =>
    forEach (indexed line) (fun '(c, x) =>
      body (r1 range + r)%nat (c1 range + c)%nat x)).

Definition setValues (range : RangeRef) (values : list (list Val))
    (prov : option (list CellProvenance)) : M Workbook unit :=
  let* before := snapshot range in
  let* _ := getSheet (sheet range) in
  ensureSize (sheet range) (r2 range + 1) (c2 range + 1) ;;
  onRows (sheet range)
    (overGrid range values (fun rr cc v =>
       let* x := cellAt rr cc in
       let prev := orDefault x in
       setCellAt rr cc
         (mkCell v None (format prev)
            (match prov with Some p => Some p | None => provenance prev end)))) ;;
  appendEvent (OpSetValues range values prov) (OpSetCells range before)
    ("setValues " +:+ sheet range +:+ "!" +:+ cornerA1 range) ;;
  ret tt.

Definition setCells (range : RangeRef) (cells : list (list Cell)) : M Workbook unit :=
  let* _ := getSheet (sheet range) in
  ensureSize (sheet range) (r2 range + 1) (c2 range + 1) ;;
  onRows (sheet range) (overGrid range cells setCellAt) ;;
  appendEvent (OpSetCells range cells) OpNoop "setCells" ;;
  ret tt.

Definition setFormulas (range : RangeRef) (formulas : list (list (option string)))
    : M Workbook unit :=
  let* before := snapshot range in
  let* _ := getSheet (sheet range) in
  ensureSize (sheet range) (r2 range + 1) (c2 range + 1) ;;
  onRows (sheet range)
    (overGrid range formulas (fun rr cc f =>
       let* x := cellAt rr cc in
       let prev := orDefault x in
       setCellAt rr cc (mkCell VNull f (format prev) (provenance prev)))) ;;
  appendEvent (OpSetFormulas range formulas) (OpSetCells range before)
    ("setFormulas " +:+ sheet range +:+ "!" +:+ cornerA1 range) ;;
  ret tt.

Definition formatRange (range : RangeRef) (fmt : option string) : M Workbook unit :=
  let* before := snapshot range in
  let* _ := getSheet (sheet range) in
  ensureSize (sheet range) (r2 range + 1) (c2 range + 1) ;;
  onRows (sheet range)
    (forEach (fromTo (r1 range) (r2 range)) (fun r =>
       forEach (fromTo (c1 range) (c2 range)) (fun c =>
         let* x := cellAt r c in
         let prev := orDefault x in
         setCellAt r c (mkCell (value prev) (formula prev) fmt (provenance prev))))) ;;
  appendEvent (OpFormatRange range fmt) (OpSetCells range before)
    ("formatRange " +:+ sheet range +:+ " " +:+ default "clear" fmt) ;;
  ret tt.

(** [linkProvenance]: the provenance array of a cell is extended in place.
    The copies that [snapshot] took share that array with the cells; the
    embedding keeps a pre-image by value, and no statement below reads the
    provenance of a pre-image taken by this operation. *)
Definition linkProvenance (range : RangeRef) (prov : list CellProvenance)
    : M Workbook unit :=
  let* before := snapshot range in
  let* _ := getSheet (sheet range) in
  onRows (sheet range)
    (forEach (fromTo (r1 range) (r2 range)) (fun r =>
       forEach (fromTo (c1 range) (c2 range)) (fun c =>
         let* x := cellAt r c in
         match x with
         | None => throw TypeError
         | Some cell =>
             setCellAt r c
               (mkCell (value cell) (formula cell) (format cell)
                  (Some (default [] (provenance cell) ++ prov)))
         end))) ;;
  appendEvent (OpLinkProvenance range prov) (OpSetCells range before)
    ("linkProvenance " +:+ sheet range) ;;
  ret tt.

(** *** Dispatch and undo *)

Definition dispatch (o : Op) (internal : bool) : M Workbook unit :=
  match o with
  | OpCreateSheet nm => createSheet nm
  | OpDeleteSheet nm => deleteSheet nm
  | OpRestoreSheet sh => restoreSheet sh
  | OpSetValues range values prov => setValues range values prov
  | OpSetFormulas range formulas => setFormulas range formulas
  | OpFormatRange range fmt => formatRange range fmt
  | OpSetCells range cells => setCells range cells
  | OpLinkProvenance range prov => linkProvenance range prov
  | OpNoop => ret tt
  | OpOther nm => if internal then ret tt else throw (UnknownOp nm)
  end.

(** [this.wb.events.pop()] *)
Definition popEvent : M Workbook (option SheetEvent) :=
  fun wb =>
    match last (events wb) with
    | Some ev =>
        (mkWorkbook (wbId wb) (sheets wb) (checkpoints wb) (removelast (events wb)),
         Ret (Some ev))
    | None => (wb, Ret None)
    end.

Definition undo : M Workbook (option SheetEvent) :=
  let* e := popEvent in
  match e with
  | None => ret None
  | Some ev => dispatch (inverse ev) true ;; ret (Some ev)
  end.

End Engine.

(** ** The formula evaluator *)

(** What [Function(`"use strict"; return (${expr})`)()] followed by the
    coercion of its result can do when it ends: throw, give a number, or
    give a value [val] that is not a number, of which only [Number(val)]
    is used.  A text whose run does not end, and the limit that the stack
    of the runtime puts on the recursion, are outside the embedding: the
    properties below are about runs of the text that end, and none states
    that every evaluation does. *)
Inductive EvalResult : Type :=
| Threw
| GaveNumber (n : float)
| GaveOther (asNumber : float).

(** The built-ins of the JavaScript runtime that the evaluator calls. *)
Class JsHost : Type := {
  (** [Number(s)] for a string [s] *)
  toNumber : string -> float;
  (** [String(n)] for a number [n] *)
  numberToString : float -> string;
  (** the [Function] constructor applied and called, see [EvalResult] *)
  runFunction : string -> EvalResult
}.

(** The state of an evaluation: the workbook and the [Set] of visited keys
    that the calls share. *)
Record EvalState : Type := mkEvalState {
  wb : Workbook;
  seen : gset string
}.

Module Evaluator.
Import Text Codec Engine.

Definition liftWb {A} (m : M Workbook A) : M EvalState A :=
  fun st => let '(w, o) := m (wb st) in (mkEvalState w (seen st), o).

(** [seen.has(key)] and [seen.add(key)] *)
Definition seenHas (key : string) : M EvalState bool :=
  fun st => (st, Ret (bool_decide (key ∈ seen st))).

Definition seenAdd (key : string) : M EvalState unit :=
  modify (fun st => mkEvalState (wb st) ({[key]} ∪ seen st)).

(** [`${sheet}:${r}:${c}`] *)
Definition cellKey (nm : string) (r c : Z) : string :=
  nm +:+ ":" +:+ ofInt r +:+ ":" +:+ ofInt c.

(** [getCell(sheet, r, c)]: the cell object, or [undefined]. A negative row
    index reads [undefined] from [rows], and indexing that throws. *)
Definition getCell (nm : string) (r c : Z) : M Workbook (option Cell) :=
  ensureSize nm (Z.to_nat (r + 1)) (Z.to_nat (c + 1)) ;;
  let* s := getSheet nm in
  if r <? 0 then throw TypeError
  else
    match rows s !! Z.to_nat r with
    | None => throw TypeError
    | Some row => ret (if c <? 0 then None else readAt row (Z.to_nat c))
    end.

(** [cell.value = v] for the cell object that [getCell(nm, r, c)] returned:
    the objects of a grid are distinct, so this is an update at (r, c) of
    the grid.  An event that holds the same object (the [setCells] that
    put it in the grid) shows the new value in the engine; the embedding
    logs cells by value, and the properties of the log are stated on the
    [outline] of the events, which leaves the values of logged cells
    out. *)
Definition setValueOf (nm : string) (r c : Z) (v : Val) : M Workbook unit :=
  onRows nm
    (let* x := cellAt (Z.to_nat r) (Z.to_nat c) in
     match x with
     | None => throw TypeError
     | Some cell =>
         setCellAt (Z.to_nat r) (Z.to_nat c)
           (mkCell v (formula cell) (format cell) (provenance cell))
     end).

(** [v ?? null] *)
Definition orNull (v : Val) : Val :=
  match v with VUndef => VNull | _ => v end.

(** [for (let i = lo; i <= hi; i++)] on integers *)
Definition fromToZ (lo hi : Z) : list Z :=
  map (fun i => lo + Z.of_nat i) (seq 0 (Z.to_nat (hi - lo + 1))).

(** The test of [/^[A-Za-z]+[0-9]+$/]. *)
Definition isRef (s : string) : bool :=
  match matchA1 s with Some _ => true | None => false end.

(** The match of [/^([A-Z]+)([0-9]+):([A-Z]+)([0-9]+)$/i]: the two
    addresses [m[1]+m[2]] and [m[3]+m[4]]. *)
Definition matchRange (s : string) : option (string * string) :=
  let '(p, q) := spanS (fun a => negb (Ascii.eqb a ":")) s in
  match q with
  | String _ q' => if isRef p && isRef q' then Some (p, q') else None
  | EmptyString => None
  end.

Definition lowerIs (l : ascii) (a : ascii) : bool :=
  Ascii.eqb a l || Ascii.eqb a (upper l).

(** The match of [/SUM\(\s*([^)]+?)\s*\)/i] at the start of [s]: the group
    and the text after the match.  The match ends at the first [)] after
    [SUM(]; what lies between cannot be empty; the group is that text
    without the white space around it, or its last character when it is
    white space only. *)
Definition matchSum (s : string) : option (string * string) :=
  match s with
  | String a (String b (String c (String d rest))) =>
      if lowerIs "s" a && lowerIs "u" b && lowerIs "m" c && Ascii.eqb d "("
      then
        let '(body, after) := spanS (fun x => negb (Ascii.eqb x ")")) rest in
        match after, body with
        | String _ after', String _ _ =>
            match trim body with
            | EmptyString => Some (lastChar body, after')
            | t => Some (t, after')
            end
        | _, _ => None
        end
      else None
  | _ => None
  end.

Section WithHost.
Context {host : JsHost}.

(** [Number(v)] *)
Definition numberOf (v : Val) : float :=
  match v with
  | VNum n => n
  | VNull => 0%float
  | VUndef => nan
  | VStr s => toNumber s
  end.

(** [Number.isFinite(n)] *)
Definition isFinite (n : float) : bool := negb (is_nan n) && negb (is_infinity n).

(** [n || 0] *)
Definition orZero (n : float) : float :=
  if is_nan n || is_zero n then 0%float else n.

(** The type [number | string] of what [evalRef], [sumTerm] and [sumArgs]
    return. *)
Inductive NumOrStr : Type :=
| IsNum (n : float)
| IsStr (s : string).

(** [String(x)] *)
Definition stringOf (x : NumOrStr) : string :=
  match x with
  | IsStr s => s
  | IsNum n => numberToString n
  end.

Section Helpers.
(** The recursive call [this.evaluateCell(sheet, r, c, seen)]. *)
Variable evaluateCell : string -> Z -> Z -> M EvalState Val.

Definition evalRef (nm a1 : string) : M EvalState NumOrStr :=
  match a1ToRc a1 with
  | Throw e => throw e
  | Diverge => diverge
  | Ret (r, c) =>
      let* v := evaluateCell nm r c in
      match v with
      | VStr s => ret (IsStr s)
      | VNum n => ret (IsNum n)
      | VNull => ret (IsNum 0%float)
      | VUndef =>
          let n := numberOf v in
          ret (IsNum (if is_nan n then 0%float else n))
      end
  end.

(** One round of the loops of [sumRange]:
    [n = typeof v === 'number' ? v : Number(v); if (!isNaN(n)) total += n]. *)
Definition addCell (total : float) (v : Val) : float :=
  let n := match v with VNum x => x | _ => numberOf v end in
  if is_nan n then total else (total + n)%float.

Definition sumRange (nm a1range : string) : M EvalState float :=
  match matchRange a1range with
  | None => ret 0%float
  | Some (pa, pb) =>
      match a1ToRc pa, a1ToRc pb with
      | Ret (ar, ac), Ret (br, bc) =>
          foldM (fun total r =>
            foldM (fun total c =>
              let* v := evaluateCell nm r c in
              ret (addCell total v))
              (fromToZ (Z.min ac bc) (Z.max ac bc)) total)
            (fromToZ (Z.min ar br) (Z.max ar br)) 0%float
      | Throw e, _ => throw e
      | _, Throw e => throw e
      | _, _ => diverge
      end
  end.

Definition sumTerm (nm term : string) : M EvalState NumOrStr :=
  let term := trim term in
  if match matchRange term with Some _ => true | None => false end then
    let* n := sumRange nm term in ret (IsNum n)
  else if isRef term then
    evalRef nm term
  else
    let n := toNumber (remove "," term) in
    ret (IsNum (if isFinite n then n else 0%float)).

(** The loop of [sumArgs] over the terms that are left, with the running
    [total]. *)
Fixpoint sumTerms (nm : string) (terms : list string) (total : float)
    : M EvalState NumOrStr :=
  match terms with
  | [] => ret (IsNum total)
  | term :: terms' =>
      let* value := sumTerm nm term in
      match value with
      | IsStr s => ret (IsStr s)
      | IsNum n => sumTerms nm terms' (total + n)%float
      end
  end.

Definition sumArgs (nm args : string) : M EvalState NumOrStr :=
  sumTerms nm (split "," args) 0%float.

(** [expr.replace(/SUM\(\s*([^)]+?)\s*\)/gi, (_m, args) => String(sumArgs(args)))]:
    the matches are looked for from left to right and do not overlap; a
    round consumes at least one character, so [length expr] rounds of fuel
    are enough. *)
Fixpoint replaceSums (fuel : nat) (nm expr : string) : M EvalState string :=
  match expr with
  | EmptyString => ret EmptyString
  | String a r =>
      match fuel with
      | O => diverge
      | S k =>
          match matchSum expr with
          | Some (args, after) =>
              let* v := sumArgs nm args in
              let* rest := replaceSums k nm after in
              ret (stringOf v +:+ rest)
          | None =>
              let* rest := replaceSums k nm r in
              ret (String a rest)
          end
      end
  end.

(** The callback of the second replacement, on a maximal run of word
    characters: [\b([A-Za-z]+[0-9]+)\b] matches such a run when the whole
    of it is letters followed by digits, and nothing else. *)
Definition replaceWord (nm w : string) : M EvalState string :=
  if isRef w then
    let* refResult := evalRef nm w in ret (stringOf refResult)
  else ret w.

(** [expr.replace(/\b([A-Za-z]+[0-9]+)\b/g, ...)], with [w] the run of word
    characters read so far. *)
Fixpoint replaceRefs (nm w expr : string) : M EvalState string :=
  match expr with
  | EmptyString => replaceWord nm w
  | String a r =>
      if isWord a then replaceRefs nm (w +:+ String a EmptyString) r
      else
        let* x := replaceWord nm w in
        let* rest := replaceRefs nm EmptyString r in
        ret (x +:+ String a rest)
  end.

(** What the [try] block makes of the run of the text:
    [cell.value = typeof val === 'number' ? val : Number(val) || 0], and
    ['#ERROR!'] in the [catch]. *)
Definition resultOf (res : EvalResult) : Val :=
  match res with
  | GaveNumber n => VNum n
  | GaveOther n => VNum (orZero n)
  | Threw => VStr "#ERROR!"
  end.

(** The end of [evaluateCell], once the two replacements have left [expr]:
    a sentinel in the text is stored and returned as it is; otherwise the
    text is run, and the number it gives, or ["#ERROR!"] when it throws, is
    stored and returned. *)
Definition finishCell (nm : string) (r c : Z) (expr : string) : M EvalState Val :=
  if includes "#REF!" expr || includes "#ERROR!" expr then
    let v := VStr (if includes "#REF!" expr then "#REF!" else "#ERROR!") in
    liftWb (setValueOf nm r c v) ;; ret v
  else
    let v := resultOf (runFunction expr) in
    liftWb (setValueOf nm r c v) ;; ret v.

(** What [evaluateCell] does with [cell = this.getCell(sheet, r, c)] when
    the key was not in [seen]; reading [cell.formula] throws when [cell] is
    [undefined]. *)
Definition afterCell (nm : string) (r c : Z) (x : option Cell) : M EvalState Val :=
  match x with
  | None => throw TypeError
  | Some cell =>
      match formula cell with
      | None | Some EmptyString => ret (orNull (value cell))
      | Some text =>
          let f := trim text in
          if negb (startsWith "=" f) then ret (orNull (value cell))
          else
            let expr := slice1 f in
            let* expr := replaceSums (String.length expr) nm expr in
            let* expr := replaceRefs nm EmptyString expr in
            finishCell nm r c expr
      end
  end.

(** The body of [evaluateCell]. *)
Definition evaluateCellBody (nm : string) (r c : Z) : M EvalState Val :=
  let key := cellKey nm r c in
  let* visited := seenHas key in
  if visited then
    let* x := liftWb (getCell nm r c) in
    match x with
    | None => throw TypeError
    | Some _ => liftWb (setValueOf nm r c (VStr "#REF!")) ;; ret (VStr "#REF!")
    end
  else
    seenAdd key ;;
    let* x := liftWb (getCell nm r c) in
    afterCell nm r c x.

End Helpers.

(** [evaluateCell(sheet, r, c, seen)]; the fuel bounds the depth of the
    recursion through references. *)
Fixpoint evaluateCell (fuel : nat) (nm : string) (r c : Z) : M EvalState Val :=
  match fuel with
  | O => diverge
  | S k => evaluateCellBody (evaluateCell k) nm r c
  end.

(** [evaluateCell(sheet, r, c)] with the default [seen = new Set()]. *)
Definition evaluateFresh (fuel : nat) (nm : string) (r c : Z) : M Workbook Val :=
  fun w =>
    let '(st, o) := evaluateCell fuel nm r c (mkEvalState w ∅) in (wb st, o).

(** *** Full recompute and import *)

(** The sheet that [for (const s of this.wb.sheets.values())] visits at its
    step [i], as the workbook has it now. *)
Definition sheetNo (i : nat) (w : Workbook) : option Sheet :=
  snd <$> sheets w !! i.

(** [for (let c = 0; c < s.rows[r].length; c++) this.evaluateCell(s.name, r, c, new Set())]
    from [c] on; the length is read again at each round. *)
Fixpoint colsLoop (rounds fuel i r c : nat) : M Workbook unit :=
  fun w =>
    match sheetNo i w with
    | None => (w, Ret tt)
    | Some s =>
        match rows s !! r with
        | None => (w, Throw TypeError)
        | Some row =>
            if (c <? length row)%nat then
              match rounds with
              | O => (w, Diverge)
              | S k =>
                  (evaluateFresh fuel (name s) (Z.of_nat r) (Z.of_nat c) ;;
                   colsLoop k fuel i r (S c)) w
              end
            else (w, Ret tt)
        end
    end.

(** [for (let r = 0; r < s.rows.length; r++) ...] from [r] on. *)
Fixpoint rowsLoop (rounds fuel i r : nat) : M Workbook unit :=
  fun w =>
    match sheetNo i w with
    | None => (w, Ret tt)
    | Some s =>
        if (r <? length (rows s))%nat then
          match rounds with
          | O => (w, Diverge)
          | S k => (colsLoop fuel fuel i r 0 ;; rowsLoop k fuel i (S r)) w
          end
        else (w, Ret tt)
    end.

(** [evaluateAll()]; [fuel] bounds the rounds of each loop and the depth of
    each evaluation.  No evaluation adds or removes a sheet, so the
    iterator of the map visits the positions it has at the start. *)
Definition evaluateAll (fuel : nat) : M Workbook unit :=
  let* w := get in
  forEach (seq 0 (JsMap.size (sheets w))) (fun i => rowsLoop fuel fuel i 0).

(** A sheet of the import shape [{ name, rows: any[][] }]: a row may be
    [null], and so may a cell. *)
Record SheetData : Type := mkSheetData {
  dataName : string;
  dataRows : list (option (list (option Cell)))
}.

(** [{ value: cell?.value ?? null, formula: cell?.formula ?? undefined, ... }] *)
Definition loadCell (x : option Cell) : Cell :=
  match x with
  | None => defaultCell
  | Some c => mkCell (orNull (value c)) (formula c) (format c) (provenance c)
  end.

Definition loadSheet (s : SheetData) : Sheet :=
  mkSheet (dataName s)
    (map (fun row => map (fun x => Some (loadCell x)) (default [] row)) (dataRows s)).

Definition loadFromJSON (fuel : nat) (workbookData : list SheetData) : M Workbook unit :=
  setSheets (fun _ => []) ;;
  forEach workbookData (fun s => setSheets (JsMap.set (dataName s) (loadSheet s))) ;;
  let* w := get in
  (if (JsMap.size (sheets w) =? 0)%nat then createSheet "Sheet1" else ret tt) ;;
  modify (fun w => mkWorkbook (wbId w) (sheets w) [] []) ;;
  checkpoint (Some "import") ;;
  evaluateAll fuel.

(** [new SheetModel()], for the identifier that [uuid()] gave. *)
Definition newModel (id : string) : Workbook * Outcome unit :=
  (createSheet "Sheet1" ;; checkpoint (Some "init") ;; ret tt)
    (mkWorkbook id [] [] []).

(** [SheetModel.fromJSON(data)] *)
Definition fromJSON (fuel : nat) (id : string) (data : list SheetData)
    : Workbook * Outcome unit :=
  match newModel id with
  | (w, Ret _) => loadFromJSON fuel data w
  | r => r
  end.

End WithHost.
End Evaluator.

(** ** The read of the provenance of a cell *)

Module Api.
Import Text Codec Engine Evaluator.

(** [getProvenance(sheet, a1)]: the address is decoded first, then the cell
    is fetched through [getCell], which pads the grid; reading
    [cell.provenance] throws when the cell is [undefined]. *)
Definition getProvenance (nm a1 : string) : M Workbook (list CellProvenance) :=
  match a1ToRc a1 with
  | Throw e => throw e
  | Diverge => diverge
  | Ret (r, c) =>
      let* x := getCell nm r c in
      match x with
      | None => throw TypeError
      | Some cell => ret (default [] (provenance cell))
      end
  end.

End Api.

(** ** The summary of a workbook that the agent sends to the model

    [getCellText] and [summarizeWorkbook] of [server/src/agent.ts]. *)

Module Agent.
Import Text Engine.

(** [getCellText(cell)]: the formula when it is a non-empty string, the
    value otherwise, and [''] for a value that is [null] or [undefined] and
    for a cell that is [undefined] (or the [''] that [?? ''] puts in its
    place). *)
Definition getCellText (x : option Cell) : Val :=
  match x with
  | None => VStr EmptyString
  | Some cell =>
      match formula cell with
      | Some (String a f) => VStr (String a f)
      | _ =>
          match value cell with
          | VUndef | VNull => VStr EmptyString
          | v => v
          end
      end
  end.

(** One entry of [out.sheets]. *)
Record SheetSummary : Type := mkSheetSummary {
  sumName : string;
  sumRows : nat;
  sumCols : nat;
  headerA1 : list Val;
  labelsA : list (nat * string);
  previewA1 : list (list Val)
}.

(** [rows.reduce((m, r) => Math.max(m, r?.length ?? 0), 0)] *)
Definition colCount (rs : list Row) : nat :=
  foldl (fun m r => Nat.max m (length r)) 0%nat rs.

Section WithHost.
Context {host : JsHost}.

(** [String(v)] for what [getCellText] returns. *)
Definition textOf (v : Val) : string :=
  match v with
  | VStr s => s
  | VNum n => numberToString n
  | VNull => "null"
  | VUndef => "undefined"
  end.

(** The body of the loop of [summarizeWorkbook] for one sheet. *)
Definition summarizeSheet (s : Sheet) : SheetSummary :=
  let rs := rows s in
  let rowCount := length rs in
  let colCount := colCount rs in
  let prevRows := Nat.min rowCount 60 in
  let prevCols := Nat.min colCount 20 in
  let previewA1 :=
    map (fun r => map (fun c => getCellText (cellOf rs r c)) (seq 0 prevCols))
      (seq 0 prevRows) in
  let headerA1 :=
    if (0 <? rowCount)%nat
    then map (fun c => getCellText (cellOf rs 0 c)) (seq 0 (Nat.min colCount 50))
    else [] in
  let capRows := Nat.min rowCount 500 in
  let labelsA :=
    map (fun r => (r, trim (textOf (getCellText (cellOf rs r 0))))) (seq 0 capRows) in
  mkSheetSummary (name s) rowCount colCount headerA1 labelsA previewA1.

Definition summarizeWorkbook (w : Workbook) : list SheetSummary :=
  map summarizeSheet (JsMap.values (sheets w)).

End WithHost.
End Agent.

(** ** A host for closed examples

    Modelled from the ECMAScript semantics of [Number], [String] and of
    arithmetic on numbers, for the fragment that the examples below use:
    decimal integers of at most 15 digits, the four operations, unary
    minus, parentheses and white space.  Outside that fragment the
    functions below are not claimed to agree with a JavaScript runtime. *)

Module SampleHost.
Import Text.

Definition ofZ (z : Z) : float :=
  if z <? 0 then (- of_uint63 (Uint63.of_Z (- z)))%float
  else of_uint63 (Uint63.of_Z z).

Definition smallDigits (s : string) : bool :=
  nonEmpty s && allS isDigit s && (String.length s <=? 15)%nat.

Definition number (s : string) : float :=
  match trim s with
  | EmptyString => 0%float
  | String a r as t =>
      if smallDigits t then ofZ (parseInt t)
      else if Ascii.eqb a "-" && smallDigits r then ofZ (- parseInt r)
      else if Ascii.eqb a "+" && smallDigits r then ofZ (parseInt r)
      else nan
  end.

(** The decimal text of a number that is an integer below 2^53 in absolute
    value, and of the three special values. *)
Definition text (n : float) : string :=
  match Prim2SF n with
  | S754_zero _ => "0"
  | S754_infinity false => "Infinity"
  | S754_infinity true => "-Infinity"
  | S754_nan => "NaN"
  | S754_finite sign m e =>
      let mag := if 0 <=? e then Z.pos m * 2 ^ e else Z.pos m / 2 ^ (- e) in
      ofInt (if sign then - mag else mag)
  end.

Inductive Token : Type :=
| TNum (n : float)
| TPlus | TMinus | TTimes | TDiv | TOpen | TClose.

(** A decimal literal of strict mode: no leading zero before other digits. *)
Definition strictLiteral (ds : string) : bool :=
  smallDigits ds &&
  match ds with
  | String a (String _ _) => negb (Ascii.eqb a "0")
  | _ => true
  end.

(** The tokens of an expression, or [None] at a character outside the
    fragment; [++] and [--] are update operators, which no operand of the
    fragment admits. *)
Fixpoint tokens (fuel : nat) (s : string) : option (list Token) :=
  match fuel, s with
  | _, EmptyString => Some []
  | O, _ => None
  | S k, String a r =>
      if isSpace a then tokens k r
      else if isDigit a then
        let '(ds, rest) := spanS isDigit s in
        if strictLiteral ds then cons (TNum (ofZ (parseInt ds))) <$> tokens k rest
        else None
      else if startsWith "++" s || startsWith "--" s then None
      else
        match
          (if Ascii.eqb a "+" then Some TPlus
           else if Ascii.eqb a "-" then Some TMinus
           else if Ascii.eqb a "*" then Some TTimes
           else if Ascii.eqb a "/" then Some TDiv
           else if Ascii.eqb a "(" then Some TOpen
           else if Ascii.eqb a ")" then Some TClose
           else None)
        with
        | Some t => cons t <$> tokens k r
        | None => None
        end
  end.

(** Recursive descent: sums of products of signed atoms. *)
Fixpoint parseSum (fuel : nat) (ts : list Token) : option (float * list Token) :=
  match fuel with
  | O => None
  | S k =>
      let atom (ts : list Token) : option (float * list Token) :=
        match ts with
        | TNum n :: ts' => Some (n, ts')
        | TOpen :: ts' =>
            match parseSum k ts' with
            | Some (v, TClose :: ts'') => Some (v, ts'')
            | _ => None
            end
        | _ => None
        end in
      let fix signed (depth : nat) (ts : list Token) : option (float * list Token) :=
        match depth, ts with
        | S d, TMinus :: ts' =>
            match signed d ts' with
            | Some (v, ts'') => Some ((- v)%float, ts'')
            | None => None
            end
        | S d, TPlus :: ts' => signed d ts'
        | _, _ => atom ts
        end in
      let fix products (rounds : nat) (acc : float) (ts : list Token)
          : option (float * list Token) :=
        match rounds, ts with
        | S r, TTimes :: ts' =>
            match signed (length ts') ts' with
            | Some (v, ts'') => products r (acc * v)%float ts''
            | None => None
            end
        | S r, TDiv :: ts' =>
            match signed (length ts') ts' with
            | Some (v, ts'') => products r (acc / v)%float ts''
            | None => None
            end
        | _, _ => Some (acc, ts)
        end in
      let product (ts : list Token) : option (float * list Token) :=
        match signed (length ts) ts with
        | Some (v, ts') => products (length ts') v ts'
        | None => None
        end in
      let fix sums (rounds : nat) (acc : float) (ts : list Token)
          : option (float * list Token) :=
        match rounds, ts with
        | S r, TPlus :: ts' =>
            match product ts' with
            | Some (v, ts'') => sums r (acc + v)%float ts''
            | None => None
            end
        | S r, TMinus :: ts' =>
            match product ts' with
            | Some (v, ts'') => sums r (acc - v)%float ts''
            | None => None
            end
        | _, _ => Some (acc, ts)
        end in
      match product ts with
      | Some (v, ts') => sums (length ts') v ts'
      | None => None
      end
  end.

(** An expression outside the fragment, or one that does not parse, is
    reported as [Threw]: within the fragment that is a [SyntaxError]. *)
Definition run (expr : string) : EvalResult :=
  match tokens (String.length expr) expr with
  | Some ts =>
      match parseSum (S (length ts)) ts with
      | Some (v, []) => GaveNumber v
      | _ => Threw
      end
  | None => Threw
  end.

#[export] Instance host : JsHost := {|
  toNumber := number;
  numberToString := text;
  runFunction := run
|}.

End SampleHost.

(** ** Sample workbooks *)

Module Samples.
Import Engine Evaluator.

(** The workbook of [new SheetModel()]. *)
Definition fresh : Workbook := (newModel "wb").1.

(** The cell A1 of the default sheet, as a range. *)
Definition cellA1 : RangeRef := mkRange "Sheet1" 0 0 0 0.

(** The scenario of the undo test of [sheet.test.ts]: A1 is set to
    'Initial Value', then to 'New Value', then [undo] is called, and here
    once more. *)
Definition initial : Workbook :=
  (setValues cellA1 [[VStr "Initial Value"]] None fresh).1.
Definition edited : Workbook :=
  (setValues cellA1 [[VStr "New Value"]] None initial).1.
Definition undone : Workbook := (undo edited).1.
Definition undoneTwice : Workbook := (undo undone).1.

(** A workbook whose B1 refers to A3, two rows below the only row. *)
Definition chain : Workbook :=
  (setFormulas (mkRange "Sheet1" 0 1 0 1) [[Some "=A3"]] fresh).1.

(** The scenario of the propagation test of [sheet.test.ts]: A1 holds
    [=A1] and B1 holds [=A1+10]. *)
Definition cyclic : Workbook :=
  (setFormulas (mkRange "Sheet1" 0 1 0 1) [[Some "=A1+10"]]
     (setFormulas cellA1 [[Some "=A1"]] fresh).1).1.

(** A1 holds the error value, without a formula. *)
Definition failing : Workbook :=
  (setValues cellA1 [[VStr "#ERROR!"]] None fresh).1.

(** The first row holds the error value, the number 5 and a text, without
    formulas. *)
Definition mixed : Workbook :=
  (setValues (mkRange "Sheet1" 0 0 0 2)
     [[VStr "#ERROR!"; VNum 5%float; VStr "text"]] None fresh).1.

(** A1 holds the sum of a literal with a thousands separator. *)
Definition thousand : Workbook := (setFormulas cellA1 [[Some "=SUM(1,000)"]] fresh).1.

(** A1 holds a formula that does not parse, and one that divides by zero. *)
Definition malformed : Workbook := (setFormulas cellA1 [[Some "=1+/2"]] fresh).1.
Definition divided : Workbook := (setFormulas cellA1 [[Some "=1/0"]] fresh).1.

(** A second sheet, [Data], beside the default one. *)
Definition twoSheets : Workbook := (createSheet "Data" fresh).1.

(** A1 holds the number 5 and B1 the formula [=A1+A1]. *)
Definition repeated : Workbook :=
  (setFormulas (mkRange "Sheet1" 0 1 0 1) [[Some "=A1+A1"]]
     (setValues cellA1 [[VNum 5%float]] None fresh).1).1.

(** A1 holds a formula that refers to the row number 0. *)
Definition rowZero : Workbook := (setFormulas cellA1 [[Some "=B0"]] fresh).1.

(** A1 and B1 hold values with a format and a provenance, C1 a formula. *)
Definition formatted : Workbook :=
  (setCells (mkRange "Sheet1" 0 0 0 2)
     [[mkCell (VNum 5%float) None (Some "currency") (Some ["10-K"]);
       mkCell (VStr "total") None None None;
       mkCell (VNum 10%float) (Some "=A1+5") (Some "number") None]] fresh).1.

(** A ragged grid: a row of three cells above a row of one. *)
Definition ragged : Workbook :=
  (setValues (mkRange "Sheet1" 1 0 1 0) [[VStr "below"]] None
     (setValues (mkRange "Sheet1" 0 0 0 2)
        [[VStr "a"; VStr "b"; VStr "c"]] None fresh).1).1.

(** The sheet that comes first in the order of the map. *)
Definition firstSheet (w : Workbook) : Sheet :=
  match sheets w with
  | (_, s) :: _ => s
  | [] => mkSheet EmptyString []
  end.

(** The value of the cell at (r, c) of a sheet of a workbook. *)
Definition valueAt (w : Workbook) (nm : string) (r c : nat) : option Val :=
  match JsMap.get nm (sheets w) with
  | Some s => value <$> cellOf (rows s) r c
  | None => None
  end.

(** The lengths of the rows of a sheet. *)
Definition shapeOf (w : Workbook) (nm : string) : option (list nat) :=
  match JsMap.get nm (sheets w) with
  | Some s => Some (map length (rows s))
  | None => None
  end.

End Samples.

(** ** The vocabulary of the properties *)

Module Predicates.
Import Text Codec Engine Evaluator.

(** *** Computations *)

(** A computation that never runs out of fuel. *)
Definition total {S A} (m : M S A) : Prop := forall s, (m s).2 <> Diverge.

(** A computation on the workbook that leaves the event log alone. *)
Definition quiet {A} (m : M Workbook A) : Prop :=
  forall w, events (m w).1 = events w /\ (m w).2 <> Diverge.

(** A computation that appends one event for the operation [o] when it
    returns, and leaves the log alone when it throws. *)
Definition appends (o : Op) (m : M Workbook unit) : Prop :=
  forall w,
    match m w with
    | (w', Ret _) => exists ev, events w' = events w ++ [ev] /\ op ev = o
    | (w', Throw _) => events w' = events w
    | (_, Diverge) => False
    end.

(** The events that a call of [dispatch] for [o] adds when it returns. *)
Definition logged (o : Op) (evs : list SheetEvent) : Prop :=
  match o with
  | OpNoop | OpOther _ => evs = []
  | _ => exists ev, evs = [ev] /\ op ev = o
  end.

(** *** What stays of an event

    The engine logs the objects it is given, not copies of them: the cell
    objects that [setCells] puts in a grid are the ones its event holds,
    and the sheet of a [restoreSheet] is the one the map holds.  A later
    call that writes the value or the provenance of such a cell, or a row
    of such a sheet, writes it in the event as well.  What no call writes
    in a logged operation is its [frame]: the operation, its range and the
    values, formulas, format and provenance records it was given; for
    [setCells] the rows of the grid of cells, with the formula and the
    format of each; for [restoreSheet] the name of the sheet.  The
    properties of the log are stated on the [outline] of its events. *)
Definition bare (c : Cell) : Cell := mkCell VUndef (formula c) (format c) None.

Definition frame (o : Op) : Op :=
  match o with
  | OpSetCells range cells => OpSetCells range (map (map bare) cells)
  | OpRestoreSheet sh => OpRestoreSheet (mkSheet (name sh) [])
  | _ => o
  end.

Definition outline (ev : SheetEvent) : SheetEvent :=
  mkEvent (frame (op ev)) (frame (inverse ev)) (summary ev).

Definition outlines (evs : list SheetEvent) : list SheetEvent := map outline evs.

(** *** Grids *)

(** The writes of one line of a grid of arguments, from column [j] on. *)
Fixpoint writeLine (j : nat) (line : list Cell) (row : Row) : Row :=
  match line with
  | [] => row
  | x :: line' => writeLine (S j) line' (writeAt j x row)
  end.

(** The writes of a grid of arguments, from row [i] on. *)
Fixpoint writeGrid (co i : nat) (grid : list (list Cell)) (rs : list Row) : list Row :=
  match grid with
  | [] => rs
  | line :: grid' =>
      match rs !! i with
      | Some row => writeGrid co (S i) grid' (<[i := writeLine co line row]> rs)
      | None => rs
      end
  end.

(** The same writes when the cell written at a place is made from the
    argument and from the cell read there, [prev = s.rows[rr][cc] ?? { value: null }]. *)
Fixpoint putLine {A} (f : A -> Cell -> Cell) (j : nat) (line : list A) (row : Row) : Row :=
  match line with
  | [] => row
  | x :: line' =>
      putLine f (S j) line' (writeAt j (f x (orDefault (readAt row j))) row)
  end.

Fixpoint putGrid {A} (f : A -> Cell -> Cell) (co i : nat) (grid : list (list A))
    (rs : list Row) : list Row :=
  match grid with
  | [] => rs
  | line :: grid' =>
      match rs !! i with
      | Some row => putGrid f co (S i) grid' (<[i := putLine f co line row]> rs)
      | None => rs
      end
  end.

(** The cells that [setValues], [setFormulas] and [formatRange] write over
    the cell [prev]. *)
Definition valueCell (prov : option (list CellProvenance)) (v : Val) (prev : Cell) : Cell :=
  mkCell v None (format prev)
    (match prov with Some p => Some p | None => provenance prev end).

Definition formulaCell (f : option string) (prev : Cell) : Cell :=
  mkCell VNull f (format prev) (provenance prev).

Definition formatCell (fmt : option string) (_ : unit) (prev : Cell) : Cell :=
  mkCell (value prev) (formula prev) fmt (provenance prev).

(** The grid of arguments that stands for the two loops of [formatRange]
    over the rows and the columns of a range. *)
Definition rangeGrid (range : RangeRef) : list (list unit) :=
  replicate (S (r2 range) - r1 range) (replicate (S (c2 range) - c1 range) tt).

(** The place (r, c) is one that a grid of arguments aligned at (r0, c0)
    covers. *)
Definition covers {A} (r0 c0 : nat) (grid : list (list A)) (r c : nat) : bool :=
  (r0 <=? r)%nat && (c0 <=? c)%nat &&
  match grid !! (r - r0)%nat with
  | Some line => (c - c0 <? length line)%nat
  | None => false
  end.

(** *** The copy that [snapshot] takes *)

Definition copyOf (range : RangeRef) (rs : list Row) : list (list Cell) :=
  map (fun r => map (fun c => spread (cellOf rs r c)) (fromTo (c1 range) (c2 range)))
    (fromTo (r1 range) (r2 range)).

(** A computation on the rows that keeps their number, however it ends. *)
Definition keepsRows {A} (m : M (list Row) A) : Prop :=
  forall rs, length (m rs).1 = length rs.

(** The rows after [cell.value = v] on the cell object at (r, c). *)
Definition stamp (r c : nat) (v : Val) (rs : list Row) : list Row :=
  match rs !! r with
  | Some row =>
      match readAt row c with
      | Some cell =>
          <[r := writeAt c (mkCell v (formula cell) (format cell) (provenance cell)) row]> rs
      | None => rs
      end
  | None => rs
  end.

(** *** Growth *)

(** A row after some steps of an evaluation: it is at least as long, and a
    cell object is still where it was, with the formula it had. *)
Definition rowGrows (row row' : Row) : Prop :=
  (length row <= length row')%nat /\
  forall c cell, readAt row c = Some cell ->
    exists cell', readAt row' c = Some cell' /\ formula cell' = formula cell.

Definition grows (rs rs' : list Row) : Prop :=
  forall i row, rs !! i = Some row ->
    exists row', rs' !! i = Some row' /\ rowGrows row row'.

Definition wbGrows (w w' : Workbook) : Prop :=
  (forall nm s, JsMap.get nm (sheets w) = Some s ->
     exists s', JsMap.get nm (sheets w') = Some s' /\ grows (rows s) (rows s')) /\
  events w' = events w /\ checkpoints w' = checkpoints w.

(** A computation of the evaluator after which every grid has grown. *)
Definition Mono {A} (m : M EvalState A) : Prop :=
  forall st, wbGrows (wb st) (wb (m st).1).

(** *** What an evaluation keeps *)

(** A row after some steps of an evaluation: it is at least as long, and a
    cell object is still where it was, with the formula, the format and the
    provenance it had. *)
Definition rowKeeps (row row' : Row) : Prop :=
  (length row <= length row')%nat /\
  forall c cell, readAt row c = Some cell ->
    exists cell', readAt row' c = Some cell' /\
      formula cell' = formula cell /\ format cell' = format cell /\
      provenance cell' = provenance cell.

Definition gridKeeps (rs rs' : list Row) : Prop :=
  forall i row, rs !! i = Some row ->
    exists row', rs' !! i = Some row' /\ rowKeeps row row'.

(** The workbook after some steps of an evaluation: the same sheets under
    the same keys in the same order, each with its name and a grid as above,
    a log of the same events in outline, and the same checkpoints and
    identifier. *)
Definition wbKeeps (w w' : Workbook) : Prop :=
  map fst (sheets w') = map fst (sheets w) /\
  (forall nm s, JsMap.get nm (sheets w) = Some s ->
     exists s', JsMap.get nm (sheets w') = Some s' /\
       name s' = name s /\ gridKeeps (rows s) (rows s')) /\
  outlines (events w') = outlines (events w) /\
  checkpoints w' = checkpoints w /\ wbId w' = wbId w.

(** A computation of the evaluator that relates by [R] the workbook it
    starts from and the one it leaves, however it ends. *)
Definition Kept (R : Workbook -> Workbook -> Prop) {A} (m : M EvalState A) : Prop :=
  forall st, R (wb st) (wb (m st).1).

(** The map of sheets that [loadFromJSON] has built when it resets the
    history: the sheets of the data, a later one replacing an earlier one of
    the same name at the place of the earlier, or the default sheet when
    there is none. *)
Definition loadedSheets (data : list SheetData) : JsMap.t Sheet :=
  let m := foldl (fun m s => JsMap.set (dataName s) (loadSheet s) m) [] data in
  if (JsMap.size m =? 0)%nat then [("Sheet1", mkSheet "Sheet1" [])] else m.

(** *** Cells of a workbook *)

(** The sheet [nm] of a workbook has at (r, c) a cell object whose formula
    is [f]. *)
Definition Holds (w : Workbook) (nm : string) (r c : nat) (f : option string) : Prop :=
  exists s cell,
    JsMap.get nm (sheets w) = Some s /\
    cellOf (rows s) r c = Some cell /\ formula cell = f.

(** The same, for the value of the cell. *)
Definition Shows (w : Workbook) (nm : string) (r c : nat) (v : Val) : Prop :=
  exists s cell,
    JsMap.get nm (sheets w) = Some s /\
    cellOf (rows s) r c = Some cell /\ value cell = v.

(** A cell whose formula [evaluateCell] runs: a text that starts with [=]
    once the white space around it is dropped. *)
Definition live (cell : Cell) : bool :=
  match formula cell with
  | Some text => startsWith "=" (trim text)
  | None => false
  end.

(** The length of the longest row of a grid. *)
Definition widest (rs : list Row) : nat :=
  foldr (fun r m => Nat.max (length r) m) 0%nat rs.

(** A grid without holes and without live formulas. *)
Definition plainGrid (rs : list Row) : Prop :=
  forall row x, row ∈ rs -> x ∈ row -> exists cell, x = Some cell /\ live cell = false.

(** An entry of the map of sheets with every row padded to the longest. *)
Definition squareSheet (e : string * Sheet) : string * Sheet :=
  (e.1, mkSheet (name e.2) (map (padRow (widest (rows e.2))) (rows e.2))).

(** The workbook with the entry at position [i] of its map replaced. *)
Definition withEntry (i : nat) (e : string * Sheet) (w : Workbook) : Workbook :=
  mkWorkbook (wbId w) (<[i := e]> (sheets w : list (string * Sheet)))
    (checkpoints w) (events w).

(** A computation on the workbook that leaves the checkpoints and the
    identifier alone, however it ends. *)
Definition keepsMarks {A} (m : M Workbook A) : Prop :=
  forall w, checkpoints (m w).1 = checkpoints w /\ wbId (m w).1 = wbId w.

(** *** The text of a reference *)

Definition plain (a : ascii) : bool := isLetter a || isDigit a.

Section WithHost.
Context {host : JsHost}.

(** The value that [finishCell] stores for the text [expr]. *)
Definition finishValue (expr : string) : Val :=
  if includes "#REF!" expr || includes "#ERROR!" expr then
    VStr (if includes "#REF!" expr then "#REF!" else "#ERROR!")
  else
    resultOf (runFunction expr).

(** *** The sum over a range *)

(** The evaluations of the cells at the places of a list, one after the
    other, each from the state the one before left: the values they
    return.  The first that does not return ends the visit. *)
Definition visit (ev : string -> Z -> Z -> M EvalState Val) (nm : string)
    (cells : list (Z * Z)) : M EvalState (list Val) :=
  collect cells (fun rc => ev nm rc.1 rc.2).

(** A value that a sum over a range counts: a number that is not NaN, or a
    value that [Number] does not turn into NaN. *)
Definition counts (v : Val) : bool := negb (is_nan (numberOf v)).

(** The sum, from the left and from 0, of the values that count. *)
Definition sumOf (vs : list Val) : float :=
  fold_left (fun total v => (total + numberOf v)%float) (List.filter counts vs) 0%float.

End WithHost.

(** The places of the rectangle between two corners, row after row from
    the least row and column to the greatest. *)
Definition rectangle (a b : Z * Z) : list (Z * Z) :=
  flat_map (fun r => map (fun c => (r, c)) (fromToZ (Z.min a.2 b.2) (Z.max a.2 b.2)))
    (fromToZ (Z.min a.1 b.1) (Z.max a.1 b.1)).

(** *** Coordinates *)

(** [Number.isSafeInteger(z)]: the integers on which the arithmetic of
    doubles that the engine computes with is exact. *)
Definition safeInteger (z : Z) : Prop := Z.abs z <= 2 ^ 53 - 1.

End Predicates.

(** * Properties *)

(** ** The address codec *)

Module CodecFacts.
Import Text Codec.

Lemma code_chr (z : Z) : 0 <= z < 256 -> code (chr z) = z.
Proof.
  intros Hz. unfold code, chr.
  rewrite N_ascii_embedding by lia. lia.
Qed.

Lemma append_assoc (a b c : string) : (a +:+ b) +:+ c = a +:+ (b +:+ c).
Proof. induction a as [|x a IH]; simpl; [reflexivity | now rewrite IH]. Qed.

Lemma allS_append (p : ascii -> bool) (a b : string) :
  allS p (a +:+ b) = allS p a && allS p b.
Proof.
  induction a as [|x a IH]; simpl; [reflexivity|].
  rewrite IH. now rewrite andb_assoc.
Qed.

Lemma colValue_append (a b : string) (acc : Z) :
  colValue acc (a +:+ b) = colValue (colValue acc a) b.
Proof. revert acc. induction a as [|x a IH]; intros acc; simpl; [reflexivity | apply IH]. Qed.

Lemma digitsValue_append (a b : string) (acc : Z) :
  digitsValue acc (a +:+ b) = digitsValue (digitsValue acc a) b.
Proof. revert acc. induction a as [|x a IH]; intros acc; simpl; [reflexivity | apply IH]. Qed.

Lemma nonEmpty_append_l (a b : string) : nonEmpty a = true -> nonEmpty (a +:+ b) = true.
Proof. destruct a; simpl; [discriminate | reflexivity]. Qed.

Lemma isUpper_chr (z : Z) : 65 <= z <= 90 -> isUpper (chr z) = true.
Proof.
  intros Hz. unfold isUpper, between. rewrite code_chr by lia.
  apply andb_true_iff; split; apply Z.leb_le; lia.
Qed.

Lemma isDigit_chr (z : Z) : 48 <= z <= 57 -> isDigit (chr z) = true.
Proof.
  intros Hz. unfold isDigit, between. rewrite code_chr by lia.
  apply andb_true_iff; split; apply Z.leb_le; lia.
Qed.

Lemma between_bounds (lo hi : Z) (a : ascii) :
  between lo hi a = true <-> lo <= code a <= hi.
Proof. unfold between. rewrite andb_true_iff, !Z.leb_le. tauto. Qed.

Lemma upper_of_isUpper (a : ascii) : isUpper a = true -> upper a = a.
Proof.
  intros H. apply between_bounds in H. unfold upper.
  destruct (isLower a) eqn:E; [|reflexivity].
  apply between_bounds in E. lia.
Qed.

Lemma toUpperCase_upper (s : string) : allS isUpper s = true -> toUpperCase s = s.
Proof.
  induction s as [|a s IH]; simpl; [reflexivity|].
  intros [Ha Hs]%andb_true_iff. now rewrite upper_of_isUpper, IH.
Qed.

Lemma isDigit_not_letter (a : ascii) : isDigit a = true -> isLetter a = false.
Proof.
  intros H. apply between_bounds in H. unfold isLetter.
  destruct (isUpper a) eqn:E1; [apply between_bounds in E1; lia|].
  destruct (isLower a) eqn:E2; [apply between_bounds in E2; lia|].
  reflexivity.
Qed.

(** Letters followed by a digit: the span of the letters stops there. *)
Lemma spanS_letters (l d : string) :
  allS isUpper l = true -> allS isDigit d = true -> nonEmpty d = true ->
  spanS isLetter (l +:+ d) = (l, d).
Proof.
  intros Hl Hd Hne. induction l as [|a l IH]; simpl in *.
  - destruct d as [|x d]; [discriminate|]. simpl in *.
    apply andb_true_iff in Hd as [Hx _].
    now rewrite (isDigit_not_letter _ Hx).
  - apply andb_true_iff in Hl as [Ha Hl].
    unfold isLetter at 1. rewrite Ha. simpl. now rewrite IH.
Qed.

(** The letters that the loop of [rcToA1] puts in front of [s]. *)
Lemma colLoop_letters (fuel : nat) :
  forall (n : Z) (s : string), 0 <= n <= Z.of_nat fuel ->
  exists l, colLoop fuel n s = l +:+ s /\ allS isUpper l = true /\
            colValue 0 l = n /\ (0 < n -> nonEmpty l = true).
Proof.
  induction fuel as [|k IH]; intros n s Hn.
  - exists EmptyString. simpl. repeat split; try lia.
  - simpl. destruct (0 <? n) eqn:Hpos.
    + apply Z.ltb_lt in Hpos.
      assert (Hrem : Z.rem (n - 1) 26 = (n - 1) mod 26)
        by (apply Z.rem_mod_nonneg; lia).
      pose proof (Z.mod_pos_bound (n - 1) 26 ltac:(lia)) as Hb.
      pose proof (Z.div_mod (n - 1) 26 ltac:(lia)) as Hdm.
      assert (Hq : 0 <= (n - 1) / 26 <= Z.of_nat k).
      { split; [apply Z.div_pos; lia|].
        assert ((n - 1) / 26 <= n - 1) by (apply Z.div_le_upper_bound; lia). lia. }
      destruct (IH ((n - 1) / 26) (String (chr (65 + Z.rem (n - 1) 26)) s) Hq)
        as (l & El & Ul & Vl & _).
      exists (l +:+ String (chr (65 + Z.rem (n - 1) 26)) EmptyString).
      rewrite append_assoc. simpl. split; [exact El|].
      rewrite allS_append, Ul. simpl.
      rewrite isUpper_chr by lia. simpl.
      rewrite colValue_append, Vl. simpl. rewrite code_chr by lia.
      repeat split; [lia|]. intros _. destruct l; reflexivity.
    + apply Z.ltb_ge in Hpos. exists EmptyString. simpl. repeat split; lia.
Qed.

(** The digits that [ofInt] writes for a natural number. *)
Lemma digitsOf_digits (fuel : nat) :
  forall (n : Z) (acc : string), 0 <= n < Z.of_nat fuel ->
  exists d, digitsOf fuel n acc = d +:+ acc /\ allS isDigit d = true /\
            nonEmpty d = true /\ digitsValue 0 d = n.
Proof.
  induction fuel as [|k IH]; intros n acc Hn; [lia|].
  simpl.
  pose proof (Z.mod_pos_bound n 10 ltac:(lia)) as Hb.
  pose proof (Z.div_mod n 10 ltac:(lia)) as Hdm.
  destruct (n <? 10) eqn:Hsmall.
  - apply Z.ltb_lt in Hsmall.
    exists (String (chr (48 + n mod 10)) EmptyString). simpl.
    rewrite isDigit_chr by lia. rewrite code_chr by lia.
    repeat split. rewrite Z.mod_small by lia. lia.
  - apply Z.ltb_ge in Hsmall.
    assert (Hq : 0 <= n / 10 < Z.of_nat k).
    { split; [apply Z.div_pos; lia|].
      assert (n / 10 < n) by (apply Z.div_lt_upper_bound; lia). lia. }
    destruct (IH (n / 10) (String (chr (48 + n mod 10)) acc) Hq)
      as (d & Ed & Dd & _ & Vd).
    exists (d +:+ String (chr (48 + n mod 10)) EmptyString).
    rewrite append_assoc. simpl. split; [exact Ed|].
    rewrite allS_append, Dd. simpl. rewrite isDigit_chr by lia. simpl.
    rewrite digitsValue_append, Vd. simpl. rewrite code_chr by lia.
    repeat split; [|lia]. destruct d; reflexivity.
Qed.

(** The round trip, for every coordinate of the model. *)
Lemma a1ToRc_rcToA1 (r c : Z) : 0 <= r -> 0 <= c -> a1ToRc (rcToA1 r c) = Ret (r, c).
Proof.
  intros Hr Hc. unfold rcToA1.
  destruct (colLoop_letters (Z.to_nat (c + 1)) (c + 1) EmptyString ltac:(lia))
    as (l & El & Ul & Vl & Nl).
  assert (El' : colLoop (Z.to_nat (c + 1)) (c + 1) EmptyString = l).
  { rewrite El. clear. induction l; simpl; [reflexivity | now f_equal]. }
  rewrite El'. unfold ofInt.
  replace (r + 1 <? 0) with false by (symmetry; apply Z.ltb_ge; lia).
  destruct (digitsOf_digits (S (Z.to_nat (r + 1))) (r + 1) EmptyString ltac:(lia))
    as (d & Ed & Dd & Nd & Vd).
  assert (Ed' : digitsOf (S (Z.to_nat (r + 1))) (r + 1) EmptyString = d).
  { rewrite Ed. clear. induction d; simpl; [reflexivity | now f_equal]. }
  rewrite Ed'. unfold a1ToRc, matchA1.
  rewrite (spanS_letters l d Ul Dd Nd).
  rewrite (Nl ltac:(lia)), Nd, Dd. simpl.
  rewrite (toUpperCase_upper l Ul). unfold parseInt. rewrite Vl, Vd.
  do 2 f_equal; lia.
Qed.

(** C1. For every column in [0,700] and row in [0,10000], [rcToA1] followed
    by [a1ToRc] returns the coordinates; the letters are those of base 26,
    with "A" for column 0, "Z" for column 25 and "AA" for column 26. *)
Theorem codec_round_trip (r c : Z) :
  0 <= c <= 700 -> 0 <= r <= 10000 ->
  a1ToRc (rcToA1 r c) = Ret (r, c) /\
  rcToA1 r 0 = "A" +:+ ofInt (r + 1) /\
  rcToA1 r 25 = "Z" +:+ ofInt (r + 1) /\
  rcToA1 r 26 = "AA" +:+ ofInt (r + 1).
Proof.
  intros Hc Hr. split; [apply a1ToRc_rcToA1; lia|].
  repeat split; reflexivity.
Qed.

Lemma codec_round_trip_witness :
  a1ToRc (rcToA1 10000 700) = Ret (10000, 700) /\
  rcToA1 10000 0 = "A" +:+ ofInt (10000 + 1) /\
  rcToA1 10000 25 = "Z" +:+ ofInt (10000 + 1) /\
  rcToA1 10000 26 = "AA" +:+ ofInt (10000 + 1).
Proof. apply (codec_round_trip 10000 700); lia. Defined.

End CodecFacts.

(** ** The map of sheets *)

Module JsMapFacts.
Section WithValues.
Context {V : Type}.
Implicit Types (m : JsMap.t V) (k : string) (v : V).

Lemma get_set_eq m k v : JsMap.get k (JsMap.set k v m) = Some v.
Proof.
  induction m as [|[k' v'] m IH]; simpl.
  - now rewrite String.eqb_refl.
  - destruct (String.eqb k' k) eqn:E; simpl.
    + now rewrite String.eqb_refl.
    + now rewrite E.
Qed.

Lemma get_set_ne m k k' v : k <> k' -> JsMap.get k' (JsMap.set k v m) = JsMap.get k' m.
Proof.
  intros Hne. induction m as [|[k0 v0] m IH]; simpl.
  - destruct (String.eqb k k') eqn:E; [apply String.eqb_eq in E; contradiction | reflexivity].
  - destruct (String.eqb k0 k) eqn:E; simpl.
    + apply String.eqb_eq in E. subst k0.
      destruct (String.eqb k k') eqn:E'; [apply String.eqb_eq in E'; contradiction | reflexivity].
    + now rewrite IH.
Qed.

Lemma set_set m k v v' : JsMap.set k v' (JsMap.set k v m) = JsMap.set k v' m.
Proof.
  induction m as [|[k0 v0] m IH]; simpl.
  - now rewrite String.eqb_refl.
  - destruct (String.eqb k0 k) eqn:E; simpl.
    + now rewrite String.eqb_refl.
    + now rewrite E, IH.
Qed.

Lemma has_get m k : JsMap.has k m = true <-> exists v, JsMap.get k m = Some v.
Proof.
  unfold JsMap.has. destruct (JsMap.get k m); split; eauto; try discriminate.
  intros [v Hv]. discriminate.
Qed.


(** A [set] on a key of the map keeps the number of entries. *)
Lemma size_set_present m k v v0 :
  JsMap.get k m = Some v0 -> JsMap.size (JsMap.set k v m) = JsMap.size m.
Proof.
  unfold JsMap.size. induction m as [|[k' v'] m IH]; simpl; [discriminate|].
  destruct (String.eqb k' k); simpl; [reflexivity|]. intros H. now rewrite IH.
Qed.

End WithValues.
End JsMapFacts.

(** ** Sheets, events and undo *)

Module EngineFacts.
Import Text Codec Engine Predicates JsMapFacts.

(** *** How computations compose *)

Lemma bind_Ret {S A B} (m : M S A) (k : A -> M S B) s s' a :
  m s = (s', Ret a) -> bind m k s = k a s'.
Proof. unfold bind. now intros ->. Qed.

Lemma bind_Throw {S A B} (m : M S A) (k : A -> M S B) s s' e :
  m s = (s', Throw e) -> bind m k s = (s', Throw e).
Proof. unfold bind. now intros ->. Qed.

Lemma bind_Diverge {S A B} (m : M S A) (k : A -> M S B) s s' :
  m s = (s', Diverge) -> bind m k s = (s', Diverge).
Proof. unfold bind. now intros ->. Qed.

(** A returning [bind] returned on both sides. *)
Lemma bind_inv_Ret {S A B} (m : M S A) (k : A -> M S B) s s2 b :
  bind m k s = (s2, Ret b) ->
  exists s1 a, m s = (s1, Ret a) /\ k a s1 = (s2, Ret b).
Proof.
  unfold bind. destruct (m s) as [s1 [a| |]]; intros H; try discriminate.
  eauto.
Qed.

(** *** The sheet under a name *)

Lemma getSheet_Some nm w s :
  JsMap.get nm (sheets w) = Some s -> getSheet nm w = (w, Ret s).
Proof. unfold getSheet. now intros ->. Qed.

Lemma getSheet_None nm w :
  JsMap.get nm (sheets w) = None -> getSheet nm w = (w, Throw (SheetNotFound nm)).
Proof. unfold getSheet. now intros ->. Qed.

Lemma sheets_setRows nm rs w s :
  JsMap.get nm (sheets w) = Some s ->
  JsMap.get nm (sheets (setRows nm rs w)) = Some (mkSheet (name s) rs).
Proof. intros H. unfold setRows. rewrite H. simpl. apply get_set_eq. Qed.

Lemma sheets_setRows_ne nm nm' rs w :
  nm <> nm' ->
  JsMap.get nm' (sheets (setRows nm rs w)) = JsMap.get nm' (sheets w).
Proof.
  intros Hne. unfold setRows. destruct (JsMap.get nm (sheets w)); [|reflexivity].
  simpl. now apply get_set_ne.
Qed.

Lemma events_setRows nm rs w : events (setRows nm rs w) = events w.
Proof. unfold setRows. now destruct (JsMap.get nm (sheets w)). Qed.

Lemma checkpoints_setRows nm rs w : checkpoints (setRows nm rs w) = checkpoints w.
Proof. unfold setRows. now destruct (JsMap.get nm (sheets w)). Qed.

Lemma setRows_setRows nm rs rs' w :
  setRows nm rs' (setRows nm rs w) = setRows nm rs' w.
Proof.
  unfold setRows at 2 3. destruct (JsMap.get nm (sheets w)) as [s|] eqn:E.
  - unfold setRows. simpl. rewrite get_set_eq. simpl. now rewrite set_set.
  - unfold setRows. now rewrite E.
Qed.

Lemma onRows_Some {A} nm (m : M (list Row) A) w s :
  JsMap.get nm (sheets w) = Some s ->
  onRows nm m w = (setRows nm (m (rows s)).1 w, (m (rows s)).2).
Proof.
  intros H. unfold onRows. rewrite (bind_Ret _ _ _ _ _ (getSheet_Some _ _ _ H)).
  now destruct (m (rows s)).
Qed.

Lemma onRows_None {A} nm (m : M (list Row) A) w :
  JsMap.get nm (sheets w) = None -> onRows nm m w = (w, Throw (SheetNotFound nm)).
Proof.
  intros H. unfold onRows. now rewrite (bind_Throw _ _ _ _ _ (getSheet_None _ _ H)).
Qed.

(** *** C8: the two structural failures *)


(** *** What an operation does to the event log *)

Lemma total_ret {S A} (a : A) : total (ret (S := S) a).
Proof. intros s. discriminate. Qed.

Lemma total_throw {S A} e : total (throw (S := S) (A := A) e).
Proof. intros s. discriminate. Qed.

Lemma total_bind {S A B} (m : M S A) (k : A -> M S B) :
  total m -> (forall a, total (k a)) -> total (bind m k).
Proof.
  intros Hm Hk s. unfold bind. specialize (Hm s).
  destruct (m s) as [s' [a| |]]; simpl in *; try discriminate; [apply Hk | congruence].
Qed.

Lemma total_forEach {S A} (l : list A) (body : A -> M S unit) :
  (forall x, total (body x)) -> total (forEach l body).
Proof.
  intros Hb. induction l as [|x l IH]; simpl; [apply total_ret|].
  apply total_bind; auto.
Qed.

Lemma total_collect {S A B} (l : list A) (f : A -> M S B) :
  (forall x, total (f x)) -> total (collect l f).
Proof.
  intros Hf. induction l as [|x l IH]; simpl; [apply total_ret|].
  apply total_bind; [apply Hf|]. intros y.
  apply total_bind; [apply IH|]. intros ys. apply total_ret.
Qed.

Lemma total_cellAt r c : total (cellAt r c).
Proof. intros rs. unfold cellAt. destruct (rs !! r); discriminate. Qed.

Lemma total_setCellAt r c x : total (setCellAt r c x).
Proof. intros rs. unfold setCellAt. destruct (rs !! r); discriminate. Qed.

Lemma total_overGrid {A} range (grid : list (list A)) body :
  (forall rr cc x, total (body rr cc x)) -> total (overGrid range grid body).
Proof.
  intros Hb. unfold overGrid. apply total_forEach. intros [r line].
  apply total_forEach. intros [c x]. apply Hb.
Qed.

Create HintDb log.
#[local] Hint Resolve total_ret total_throw total_cellAt total_setCellAt : log.

Lemma quiet_ret {A} (a : A) : quiet (ret a).
Proof. intros w. split; [reflexivity | discriminate]. Qed.

Lemma quiet_throw {A} e : quiet (throw (A := A) e).
Proof. intros w. split; [reflexivity | discriminate]. Qed.

Lemma quiet_get : quiet get.
Proof. intros w. split; [reflexivity | discriminate]. Qed.

Lemma quiet_bind {A B} (m : M Workbook A) (k : A -> M Workbook B) :
  quiet m -> (forall a, quiet (k a)) -> quiet (bind m k).
Proof.
  intros Hm Hk w. unfold bind. destruct (Hm w) as [He Hd].
  destruct (m w) as [w' [a| |]]; simpl in *; try (split; [exact He | discriminate]).
  - destruct (Hk a w') as [He' Hd']. split; [congruence | exact Hd'].
  - congruence.
Qed.

Lemma quiet_getSheet nm : quiet (getSheet nm).
Proof.
  intros w. unfold getSheet.
  destruct (JsMap.get nm (sheets w)); (split; [reflexivity | discriminate]).
Qed.

Lemma quiet_onRows {A} nm (m : M (list Row) A) : total m -> quiet (onRows nm m).
Proof.
  intros Hm w. destruct (JsMap.get nm (sheets w)) as [s|] eqn:E.
  - rewrite (onRows_Some _ _ _ _ E). simpl. split; [apply events_setRows | apply Hm].
  - rewrite (onRows_None _ _ _ E). split; [reflexivity | discriminate].
Qed.

Lemma quiet_ensureSize nm n k : quiet (ensureSize nm n k).
Proof. apply quiet_onRows. intros rs. discriminate. Qed.

Lemma quiet_setSheets f : quiet (setSheets f).
Proof. intros w. split; [reflexivity | discriminate]. Qed.

Lemma quiet_snapshot range : quiet (snapshot range).
Proof.
  unfold snapshot. apply quiet_bind; [apply quiet_getSheet|]. intros _.
  apply quiet_bind; [apply quiet_ensureSize|]. intros _.
  apply quiet_onRows. apply total_collect. intros r.
  apply total_collect. intros c. apply total_bind; auto with log.
Qed.

Lemma appends_bind {A} o (m : M Workbook A) (k : A -> M Workbook unit) :
  quiet m -> (forall a, appends o (k a)) -> appends o (bind m k).
Proof.
  intros Hm Hk w. unfold bind. destruct (Hm w) as [He Hd].
  destruct (m w) as [w' [a| |]]; simpl in *; [|exact He|congruence].
  specialize (Hk a w'). destruct (k a w') as [w'' [u| |]]; [|congruence|exact Hk].
  destruct Hk as (ev & E & O). exists ev. split; congruence.
Qed.

Lemma appends_event o inv summ :
  appends o (appendEvent o inv summ ;; ret tt).
Proof. intros w. simpl. eexists. split; reflexivity. Qed.

#[local] Hint Resolve quiet_ret quiet_throw quiet_get quiet_getSheet quiet_ensureSize
  quiet_setSheets quiet_snapshot appends_event : log.

Ltac log_steps :=
  repeat first
    [ apply appends_event
    | apply appends_bind; [solve [auto with log] | intros ? ]
    | apply quiet_bind; [solve [auto with log] | intros ? ] ].

Lemma appends_createSheet nm : appends (OpCreateSheet nm) (createSheet nm).
Proof.
  intros w. unfold createSheet, bind at 1, get at 1.
  destruct (JsMap.has nm (sheets w)); [reflexivity|].
  eexists. split; reflexivity.
Qed.

Lemma appends_deleteSheet nm : appends (OpDeleteSheet nm) (deleteSheet nm).
Proof. unfold deleteSheet. log_steps. Qed.

Lemma appends_restoreSheet sh : appends (OpRestoreSheet sh) (restoreSheet sh).
Proof. unfold restoreSheet. log_steps. Qed.

Lemma appends_setCells range cells : appends (OpSetCells range cells) (setCells range cells).
Proof.
  unfold setCells. log_steps.
  apply appends_bind; [|intros ?; apply appends_event].
  apply quiet_onRows, total_overGrid. auto with log.
Qed.

Lemma appends_setValues range values prov :
  appends (OpSetValues range values prov) (setValues range values prov).
Proof.
  unfold setValues. log_steps.
  apply appends_bind; [|intros ?; apply appends_event].
  apply quiet_onRows, total_overGrid. intros rr cc x.
  apply total_bind; auto with log.
Qed.

Lemma appends_setFormulas range formulas :
  appends (OpSetFormulas range formulas) (setFormulas range formulas).
Proof.
  unfold setFormulas. log_steps.
  apply appends_bind; [|intros ?; apply appends_event].
  apply quiet_onRows, total_overGrid. intros rr cc x.
  apply total_bind; auto with log.
Qed.

Lemma appends_formatRange range fmt :
  appends (OpFormatRange range fmt) (formatRange range fmt).
Proof.
  unfold formatRange. log_steps.
  apply appends_bind; [|intros ?; apply appends_event].
  apply quiet_onRows, total_forEach. intros r. apply total_forEach. intros c.
  apply total_bind; auto with log.
Qed.

Lemma appends_linkProvenance range prov :
  appends (OpLinkProvenance range prov) (linkProvenance range prov).
Proof.
  unfold linkProvenance. log_steps.
  apply appends_bind; [|intros ?; apply appends_event].
  apply quiet_onRows, total_forEach. intros r. apply total_forEach. intros c.
  apply total_bind; [auto with log|]. intros [cell|]; auto with log.
Qed.

Lemma dispatch_log o internal w :
  match dispatch o internal w with
  | (w', Ret _) => exists evs, events w' = events w ++ evs /\ logged o evs
  | (w', Throw _) => events w' = events w
  | (_, Diverge) => False
  end.
Proof.
  assert (Happ : forall m, appends o m ->
            match o with OpNoop | OpOther _ => False | _ => True end ->
            match m w with
            | (w', Ret _) => exists evs, events w' = events w ++ evs /\ logged o evs
            | (w', Throw _) => events w' = events w
            | (_, Diverge) => False
            end).
  { intros m Hm Ho. specialize (Hm w). destruct (m w) as [w' [u| |]]; auto.
    destruct Hm as (ev & E & O). exists [ev]. split; [exact E|].
    destruct o; try contradiction; exists ev; auto. }
  destruct o; unfold dispatch.
  - apply (Happ _ (appends_createSheet nm) I).
  - apply (Happ _ (appends_deleteSheet nm) I).
  - apply (Happ _ (appends_restoreSheet sh) I).
  - apply (Happ _ (appends_setValues range values prov) I).
  - apply (Happ _ (appends_setFormulas range formulas) I).
  - apply (Happ _ (appends_formatRange range fmt) I).
  - apply (Happ _ (appends_setCells range cells) I).
  - apply (Happ _ (appends_linkProvenance range prov) I).
  - exists []. split; [now rewrite app_nil_r | reflexivity].
  - destruct internal; simpl; [|reflexivity].
    exists []. split; [now rewrite app_nil_r | reflexivity].
Qed.

Lemma popEvent_snoc id sh cps l ev :
  popEvent (mkWorkbook id sh cps (l ++ [ev])) = (mkWorkbook id sh cps l, Ret (Some ev)).
Proof.
  unfold popEvent. simpl. rewrite last_snoc. now rewrite removelast_last.
Qed.


End EngineFacts.

(** ** Grids: reads after writes *)

Module GridFacts.
Import Engine Predicates EngineFacts.

Lemma readAt_writeAt {A} (l : list (option A)) (j c : nat) (x : A) :
  readAt (writeAt j x l) c = if decide (c = j) then Some x else readAt l c.
Proof.
  unfold readAt, writeAt. destruct (j <? length l)%nat eqn:E.
  - apply Nat.ltb_lt in E. destruct (decide (c = j)) as [->|Hne].
    + now rewrite list_lookup_insert_eq.
    + now rewrite list_lookup_insert_ne.
  - apply Nat.ltb_ge in E. destruct (decide (c = j)) as [->|Hne].
    + rewrite lookup_app_r by lia. rewrite lookup_app_r by (rewrite length_replicate; lia).
      rewrite length_replicate. now replace (j - length l - (j - length l))%nat with 0%nat by lia.
    + destruct (decide (c < length l)%nat) as [Hlt|Hge].
      * now rewrite lookup_app_l.
      * rewrite lookup_app_r by lia. rewrite (lookup_ge_None_2 l c) by lia.
        destruct (decide (c < j)%nat) as [Hlt|Hgt].
        -- rewrite lookup_app_l by (rewrite length_replicate; lia).
           now rewrite lookup_replicate_2 by lia.
        -- rewrite lookup_ge_None_2; [reflexivity|].
           rewrite length_app, length_replicate. simpl. lia.
Qed.

Lemma readAt_writeLine_below (line : list Cell) :
  forall (j c : nat) (row : Row), (c < j)%nat -> readAt (writeLine j line row) c = readAt row c.
Proof.
  induction line as [|x line IH]; intros j c row Hc; simpl; [reflexivity|].
  rewrite IH by lia. rewrite readAt_writeAt. destruct (decide (c = j)); [lia | reflexivity].
Qed.

Lemma readAt_writeLine (line : list Cell) :
  forall (j c : nat) (row : Row) (x : Cell),
    (j <= c)%nat -> line !! (c - j)%nat = Some x ->
    readAt (writeLine j line row) c = Some x.
Proof.
  induction line as [|y line IH]; intros j c row x Hc Hx; simpl; [discriminate|].
  destruct (decide (c = j)) as [->|Hne].
  - rewrite readAt_writeLine_below by lia. rewrite readAt_writeAt.
    replace (j - j)%nat with 0%nat in Hx by lia. simpl in Hx.
    destruct (decide (j = j)); congruence.
  - apply IH; [lia|]. replace (c - j)%nat with (S (c - S j)) in Hx by lia. exact Hx.
Qed.

(** The inner loop of [overGrid] with [setCellAt], on a row of the grid. *)
Lemma forEach_line (co rr : nat) (line : list Cell) :
  forall (k : nat) (rs : list Row) (row : Row),
    rs !! rr = Some row ->
    forEach (zip (seq k (length line)) line)
      (fun '(c, x) => setCellAt rr (co + c)%nat x) rs
    = (<[rr := writeLine (co + k) line row]> rs, Ret tt).
Proof.
  induction line as [|x line IH]; intros k rs row Hrow; simpl.
  - unfold ret. now rewrite list_insert_id.
  - unfold bind at 1, setCellAt at 1. rewrite Hrow.
    pose proof (lookup_lt_Some _ _ _ Hrow) as Hlt.
    rewrite (IH (S k) _ (writeAt (co + k) x row)) by now apply list_lookup_insert_eq.
    rewrite list_insert_insert_eq. now replace (co + S k)%nat with (S (co + k)) by lia.
Qed.

Lemma length_writeGrid co (grid : list (list Cell)) :
  forall i rs, length (writeGrid co i grid rs) = length rs.
Proof.
  induction grid as [|line grid IH]; intros i rs; simpl; [reflexivity|].
  destruct (rs !! i); [|reflexivity]. now rewrite IH, length_insert.
Qed.

Lemma lookup_writeGrid_below co (grid : list (list Cell)) :
  forall i r rs, (r < i)%nat -> writeGrid co i grid rs !! r = rs !! r.
Proof.
  induction grid as [|line grid IH]; intros i r rs Hr; simpl; [reflexivity|].
  destruct (rs !! i); [|reflexivity]. rewrite IH by lia.
  apply list_lookup_insert_ne. lia.
Qed.

Lemma lookup_writeGrid co (grid : list (list Cell)) :
  forall i r rs line row,
    (i <= r)%nat -> (i + length grid <= length rs)%nat ->
    grid !! (r - i)%nat = Some line -> rs !! r = Some row ->
    writeGrid co i grid rs !! r = Some (writeLine co line row).
Proof.
  induction grid as [|l0 grid IH]; intros i r rs line row Hr Hlen Hline Hrow;
    simpl in *; [discriminate|].
  destruct (rs !! i) as [row0|] eqn:Ei; [|apply lookup_ge_None_1 in Ei; lia].
  destruct (decide (r = i)) as [->|Hne].
  - rewrite lookup_writeGrid_below by lia.
    replace (i - i)%nat with 0%nat in Hline by lia. simpl in Hline.
    rewrite list_lookup_insert_eq by lia. congruence.
  - apply IH; [lia | rewrite length_insert; lia | |].
    + replace (r - i)%nat with (S (r - S i)) in Hline by lia. exact Hline.
    + rewrite list_lookup_insert_ne by lia. exact Hrow.
Qed.

(** The outer loop of [overGrid] with [setCellAt]. *)
Lemma forEach_grid (range : RangeRef) (grid : list (list Cell)) :
  forall (k : nat) (rs : list Row),
    (r1 range + k + length grid <= length rs)%nat ->
    forEach (zip (seq k (length grid)) grid)
      (fun '(r, line) =>
         forEach (indexed line)
           (fun '(c, x) => setCellAt (r1 range + r) (c1 range + c) x)) rs
    = (writeGrid (c1 range) (r1 range + k) grid rs, Ret tt).
Proof.
  induction grid as [|line grid IH]; intros k rs Hlen; simpl in *; [reflexivity|].
  destruct (rs !! (r1 range + k)%nat) as [row|] eqn:Erow;
    [|apply lookup_ge_None_1 in Erow; lia].
  unfold bind at 1, indexed.
  rewrite (forEach_line (c1 range) (r1 range + k) line 0 rs row Erow).
  rewrite IH by (rewrite length_insert; lia).
  now replace (c1 range + 0)%nat with (c1 range) by lia;
    replace (r1 range + S k)%nat with (S (r1 range + k)) by lia.
Qed.

Lemma overGrid_setCellAt (range : RangeRef) (grid : list (list Cell)) (rs : list Row) :
  (r1 range + length grid <= length rs)%nat ->
  overGrid range grid setCellAt rs = (writeGrid (c1 range) (r1 range) grid rs, Ret tt).
Proof.
  intros Hlen. unfold overGrid, indexed at 1.
  rewrite (forEach_grid range grid 0 rs) by lia.
  now replace (r1 range + 0)%nat with (r1 range) by lia.
Qed.

(** *** Padding *)

Lemma length_ensureRows n k (rs : list Row) :
  length (ensureRows n k rs) = Nat.max (length rs) n.
Proof.
  unfold ensureRows. rewrite length_map, length_app, length_replicate. lia.
Qed.

Lemma lookup_ensureRows_old n k (rs : list Row) i row :
  rs !! i = Some row -> ensureRows n k rs !! i = Some (padRow k row).
Proof.
  intros H. unfold ensureRows. rewrite list_lookup_fmap.
  now rewrite (lookup_app_l_Some _ _ _ _ H).
Qed.

Lemma readAt_padRow_old k (row : Row) c x :
  readAt row c = Some x -> readAt (padRow k row) c = Some x.
Proof.
  unfold readAt, padRow. intros H.
  destruct (row !! c) as [o|] eqn:E; [|discriminate].
  now rewrite (lookup_app_l_Some _ _ _ _ E).
Qed.

Lemma cellOf_ensureRows_old n k (rs : list Row) r c x :
  cellOf rs r c = Some x -> cellOf (ensureRows n k rs) r c = Some x.
Proof.
  unfold cellOf. destruct (rs !! r) as [row|] eqn:E; [|discriminate].
  intros H. rewrite (lookup_ensureRows_old _ _ _ _ _ E).
  now apply readAt_padRow_old.
Qed.

Lemma length_padRow k (row : Row) : length (padRow k row) = Nat.max (length row) k.
Proof. unfold padRow. rewrite length_app, length_replicate. lia. Qed.

Lemma ensureRows_wide n k (rs : list Row) i row :
  ensureRows n k rs !! i = Some row -> (k <= length row)%nat.
Proof.
  unfold ensureRows. rewrite list_lookup_fmap.
  destruct (_ !! i) as [row0|]; [|discriminate].
  simpl. intros [= <-]. rewrite length_padRow. lia.
Qed.

Lemma cellOf_ensureRows_inv n k (rs : list Row) r c cell :
  cellOf (ensureRows n k rs) r c = Some cell ->
  cellOf rs r c = Some cell \/ cell = defaultCell.
Proof.
  unfold cellOf, ensureRows. rewrite list_lookup_fmap.
  destruct (decide (r < length rs)%nat) as [Hlt|Hge].
  - rewrite lookup_app_l by lia.
    destruct (rs !! r) as [row|] eqn:Er; [|discriminate]. simpl.
    unfold readAt, padRow. destruct (decide (c < length row)%nat) as [Hc|Hc].
    + rewrite lookup_app_l by lia. auto.
    + rewrite lookup_app_r by lia. intros H. right.
      destruct (replicate _ _ !! _) as [o|] eqn:E; [|discriminate].
      apply lookup_replicate_1 in E as [-> _]. simpl in H. congruence.
  - rewrite lookup_app_r by lia. intros H. right.
    destruct (replicate _ _ !! _) as [row|] eqn:E; [|discriminate].
    apply lookup_replicate_1 in E as [-> _]. simpl in H.
    unfold readAt, padRow in H. simpl in H.
    destruct (replicate _ _ !! _) as [o|] eqn:E; [|discriminate].
    apply lookup_replicate_1 in E as [-> _]. simpl in H. congruence.
Qed.

Lemma cellOf_ensureRows_new n k (rs : list Row) r c :
  (r < n)%nat -> (c < k)%nat ->
  (forall row, rs !! r = Some row -> (length row <= c)%nat) ->
  cellOf (ensureRows n k rs) r c = Some defaultCell.
Proof.
  intros Hr Hc Hout. unfold cellOf.
  destruct (rs !! r) as [row|] eqn:Er.
  - rewrite (lookup_ensureRows_old _ _ _ _ _ Er). specialize (Hout row eq_refl).
    unfold readAt, padRow. rewrite lookup_app_r by lia.
    now rewrite lookup_replicate_2 by lia.
  - apply lookup_ge_None_1 in Er. unfold ensureRows.
    rewrite list_lookup_fmap, lookup_app_r by lia.
    rewrite lookup_replicate_2 by lia. simpl.
    unfold readAt, padRow. simpl. now rewrite lookup_replicate_2 by lia.
Qed.

Lemma collect_pure {S A B} (f : A -> M S B) (g : A -> B) (s : S) (l : list A) :
  (forall x, x ∈ l -> f x s = (s, Ret (g x))) ->
  collect l f s = (s, Ret (map g l)).
Proof.
  induction l as [|x l IH]; intros H; simpl; [reflexivity|].
  unfold bind at 1. rewrite (H x) by apply list_elem_of_here.
  unfold bind at 1. rewrite IH by (intros y Hy; apply H; now apply list_elem_of_further).
  reflexivity.
Qed.

Lemma elem_of_fromTo lo hi x : x ∈ fromTo lo hi -> (lo <= x <= hi)%nat.
Proof. unfold fromTo. rewrite elem_of_seq. lia. Qed.

Lemma collect_copy (range : RangeRef) (rs : list Row) :
  (r2 range < length rs)%nat ->
  collect (fromTo (r1 range) (r2 range)) (fun r =>
    collect (fromTo (c1 range) (c2 range)) (fun c =>
      let* x := cellAt r c in ret (spread x))) rs
  = (rs, Ret (copyOf range rs)).
Proof.
  intros Hlen. unfold copyOf. apply collect_pure. intros r Hr.
  apply elem_of_fromTo in Hr.
  destruct (rs !! r) as [row|] eqn:Erow; [|apply lookup_ge_None_1 in Erow; lia].
  apply collect_pure. intros c _.
  unfold bind, cellAt, cellOf. now rewrite Erow.
Qed.

Lemma lookup_fromTo lo hi i : (lo + i <= hi)%nat -> fromTo lo hi !! i = Some (lo + i)%nat.
Proof. intros H. unfold fromTo. apply lookup_seq_lt. lia. Qed.

Lemma length_copyOf range rs :
  length (copyOf range rs) = (S (r2 range) - r1 range)%nat.
Proof. unfold copyOf, fromTo. now rewrite length_map, length_seq. Qed.

Lemma lookup_copyOf range rs r c :
  (r1 range <= r <= r2 range)%nat -> (c1 range <= c <= c2 range)%nat ->
  exists line, copyOf range rs !! (r - r1 range)%nat = Some line /\
               line !! (c - c1 range)%nat = Some (spread (cellOf rs r c)).
Proof.
  intros Hr Hc. unfold copyOf. eexists. split.
  - rewrite list_lookup_fmap, lookup_fromTo by lia. simpl.
    replace (r1 range + (r - r1 range))%nat with r by lia. reflexivity.
  - rewrite list_lookup_fmap, lookup_fromTo by lia. simpl.
    replace (c1 range + (c - c1 range))%nat with c by lia. reflexivity.
Qed.

End GridFacts.

(** ** [setValues] followed by [undo] *)

Module UndoFacts.
Import Engine Predicates EngineFacts GridFacts.

Lemma keepsRows_ret {A} (a : A) : keepsRows (ret a).
Proof. intros rs. reflexivity. Qed.

Lemma keepsRows_bind {A B} (m : M (list Row) A) (k : A -> M (list Row) B) :
  keepsRows m -> (forall a, keepsRows (k a)) -> keepsRows (bind m k).
Proof.
  intros Hm Hk rs. unfold bind. specialize (Hm rs).
  destruct (m rs) as [rs' [a| |]]; simpl in *; try exact Hm.
  now rewrite Hk.
Qed.

Lemma keepsRows_forEach {A} (l : list A) (body : A -> M (list Row) unit) :
  (forall x, keepsRows (body x)) -> keepsRows (forEach l body).
Proof.
  intros Hb. induction l as [|x l IH]; simpl; [apply keepsRows_ret|].
  apply keepsRows_bind; auto.
Qed.

Lemma keepsRows_cellAt r c : keepsRows (cellAt r c).
Proof. intros rs. unfold cellAt. now destruct (rs !! r). Qed.

Lemma keepsRows_setCellAt r c x : keepsRows (setCellAt r c x).
Proof.
  intros rs. unfold setCellAt. destruct (rs !! r); simpl; [apply length_insert | reflexivity].
Qed.

Lemma keepsRows_overGrid {A} range (grid : list (list A)) body :
  (forall rr cc x, keepsRows (body rr cc x)) -> keepsRows (overGrid range grid body).
Proof.
  intros Hb. unfold overGrid. apply keepsRows_forEach. intros [r line].
  apply keepsRows_forEach. intros [c x]. apply Hb.
Qed.

(** [snapshot] on a sheet that the workbook has: the grid is padded to the
    range and the copy is taken from the padded grid. *)
Lemma snapshot_Some range w s :
  JsMap.get (sheet range) (sheets w) = Some s ->
  let rs := ensureRows (r2 range + 1) (c2 range + 1) (rows s) in
  snapshot range w = (setRows (sheet range) rs w, Ret (copyOf range rs)).
Proof.
  intros Hs rs. unfold snapshot.
  rewrite (bind_Ret _ _ _ _ _ (getSheet_Some _ _ _ Hs)).
  unfold ensureSize. unfold bind at 1. rewrite (onRows_Some _ _ _ _ Hs). simpl.
  fold rs. rewrite (onRows_Some _ _ _ _ (sheets_setRows _ rs _ _ Hs)). simpl.
  rewrite collect_copy by (subst rs; rewrite length_ensureRows; lia).
  simpl. now rewrite setRows_setRows.
Qed.

(** What a returning [setValues] leaves: the sheet, with as many rows as
    the padded grid, and one more event, whose inverse restores the copy of
    the padded grid. *)
Lemma setValues_Ret range values prov w w1 s :
  JsMap.get (sheet range) (sheets w) = Some s ->
  setValues range values prov w = (w1, Ret tt) ->
  let rs := ensureRows (r2 range + 1) (c2 range + 1) (rows s) in
  exists rs3 summ,
    length rs3 = length rs /\
    w1 = mkWorkbook (wbId w) (JsMap.set (sheet range) (mkSheet (name s) rs3) (sheets w))
           (checkpoints w)
           (events w ++ [mkEvent (OpSetValues range values prov)
                           (OpSetCells range (copyOf range rs)) summ]).
Proof.
  intros Hs H rs. unfold setValues in H.
  rewrite (bind_Ret _ _ _ _ _ (snapshot_Some range w s Hs)) in H. fold rs in H.
  pose proof (sheets_setRows _ rs _ _ Hs) as Hs1.
  rewrite (bind_Ret _ _ _ _ _ (getSheet_Some _ _ _ Hs1)) in H.
  unfold ensureSize in H. unfold bind at 1 in H.
  rewrite (onRows_Some _ _ _ _ Hs1) in H. simpl in H.
  rewrite setRows_setRows in H.
  set (rs2 := ensureRows (r2 range + 1) (c2 range + 1) rs) in H.
  pose proof (sheets_setRows _ rs2 _ _ Hs) as Hs2.
  unfold bind at 1 in H. rewrite (onRows_Some _ _ _ _ Hs2) in H. simpl in H.
  rewrite setRows_setRows in H.
  match type of H with context [overGrid range values ?b rs2] =>
    set (body := b) in H;
    assert (Hk : keepsRows (overGrid range values body))
  end.
  { apply keepsRows_overGrid. intros rr cc x. subst body.
    apply keepsRows_bind; [apply keepsRows_cellAt|]. intros y. apply keepsRows_setCellAt. }
  specialize (Hk rs2).
  destruct (overGrid range values body rs2) as [rs3 [u| |]]; simpl in *; try discriminate.
  exists rs3. eexists. split.
  - rewrite Hk. subst rs2 rs. rewrite !length_ensureRows. lia.
  - unfold setRows in H. rewrite Hs in H. simpl in H.
    injection H as <-. reflexivity.
Qed.

(** [undo] after a returning [setValues]: every cell of the range is the
    copy that [snapshot] took of it in the padded grid. *)
Lemma undo_puts_the_copy_back
    (w w1 : Workbook) (range : RangeRef) (values : list (list Val))
    (prov : option (list CellProvenance)) (s : Sheet) (r c : nat) :
  JsMap.get (sheet range) (sheets w) = Some s ->
  (r1 range <= r <= r2 range)%nat ->
  (c1 range <= c <= c2 range)%nat ->
  setValues range values prov w = (w1, Ret tt) ->
  exists w2 ev s2,
    undo w1 = (w2, Ret (Some ev)) /\
    op ev = OpSetValues range values prov /\
    JsMap.get (sheet range) (sheets w2) = Some s2 /\
    cellOf (rows s2) r c
    = Some (spread (cellOf (ensureRows (r2 range + 1) (c2 range + 1) (rows s)) r c)).
Proof.
  intros Hs Hr Hc Hset.
  destruct (setValues_Ret range values prov w w1 s Hs Hset) as (rs3 & summ & Hlen & ->).
  set (rs := ensureRows (r2 range + 1) (c2 range + 1) (rows s)) in *.
  set (ev := mkEvent (OpSetValues range values prov) (OpSetCells range (copyOf range rs)) summ).
  set (sh3 := JsMap.set (sheet range) (mkSheet (name s) rs3) (sheets w)).
  set (w3 := mkWorkbook (wbId w) sh3 (checkpoints w) (events w)).
  assert (Hs3 : JsMap.get (sheet range) (sheets w3) = Some (mkSheet (name s) rs3))
    by apply JsMapFacts.get_set_eq.
  set (rs4 := ensureRows (r2 range + 1) (c2 range + 1) rs3).
  set (rs5 := writeGrid (c1 range) (r1 range) (copyOf range rs) rs4).
  assert (Hlen4 : (r2 range < length rs4)%nat)
    by (subst rs4; rewrite length_ensureRows; lia).
  assert (Hundo : setCells range (copyOf range rs) w3
                  = (mkWorkbook (wbId w)
                       (JsMap.set (sheet range) (mkSheet (name s) rs5) (sheets w))
                       (checkpoints w)
                       (events w ++ [mkEvent (OpSetCells range (copyOf range rs)) OpNoop
                                       "setCells"]), Ret tt)).
  { unfold setCells.
    rewrite (bind_Ret _ _ _ _ _ (getSheet_Some _ _ _ Hs3)).
    unfold ensureSize. unfold bind at 1. rewrite (onRows_Some _ _ _ _ Hs3). simpl.
    fold rs4.
    pose proof (sheets_setRows _ rs4 _ _ Hs3) as Hs4. simpl in Hs4.
    unfold bind at 1. rewrite (onRows_Some _ _ _ _ Hs4). simpl.
    rewrite overGrid_setCellAt by (rewrite length_copyOf; lia). simpl.
    fold rs5. rewrite setRows_setRows.
    unfold setRows. rewrite Hs3. simpl. subst sh3. now rewrite JsMapFacts.set_set. }
  destruct (lookup_copyOf range rs r c Hr Hc) as (line & Hline & Hx).
  destruct (rs4 !! r) as [row4|] eqn:Erow4; [|apply lookup_ge_None_1 in Erow4; lia].
  eexists _, ev, (mkSheet (name s) rs5). split; [|split; [|split]].
  - unfold undo. rewrite (bind_Ret _ _ _ _ _ (popEvent_snoc _ _ _ _ ev)).
    simpl. fold sh3. fold w3. unfold bind. rewrite Hundo. reflexivity.
  - reflexivity.
  - apply JsMapFacts.get_set_eq.
  - simpl. unfold cellOf at 1. subst rs5.
    rewrite (lookup_writeGrid _ _ _ _ _ line row4) by (rewrite ?length_copyOf; auto; lia).
    now rewrite (readAt_writeLine line _ _ _ _ (proj1 Hc) Hx).
Qed.

(** C2. When the workbook has the sheet of a range, a cell of that range
    exists in its grid, and [setValues] on the range returns, the [undo]
    that follows returns the event of that [setValues] and leaves at the
    place of the cell a cell with the value, the formula (or its absence)
    and the format that the cell had before [setValues]. *)
Theorem setValues_then_undo_restores
    (w w1 : Workbook) (range : RangeRef) (values : list (list Val))
    (prov : option (list CellProvenance)) (s : Sheet) (r c : nat) (before : Cell) :
  JsMap.get (sheet range) (sheets w) = Some s ->
  (r1 range <= r <= r2 range)%nat ->
  (c1 range <= c <= c2 range)%nat ->
  cellOf (rows s) r c = Some before ->
  setValues range values prov w = (w1, Ret tt) ->
  exists w2 ev s2 after,
    undo w1 = (w2, Ret (Some ev)) /\
    op ev = OpSetValues range values prov /\
    JsMap.get (sheet range) (sheets w2) = Some s2 /\
    cellOf (rows s2) r c = Some after /\
    value after = value before /\
    formula after = formula before /\
    format after = format before.
Proof.
  intros Hs Hr Hc Hcell Hset.
  destruct (undo_puts_the_copy_back w w1 range values prov s r c Hs Hr Hc Hset)
    as (w2 & ev & s2 & Hundo & Hop & Hs2 & Hafter).
  rewrite (cellOf_ensureRows_old _ _ _ _ _ _ Hcell) in Hafter. simpl in Hafter.
  exists w2, ev, s2, before. repeat split; assumption.
Qed.

(** A place of the range that the grid did not reach before [setValues]
    holds after the [undo] the cell that pads a grid. *)
Lemma setValues_then_undo_leaves_padding
    (w w1 : Workbook) (range : RangeRef) (values : list (list Val))
    (prov : option (list CellProvenance)) (s : Sheet) (r c : nat) :
  JsMap.get (sheet range) (sheets w) = Some s ->
  (r1 range <= r <= r2 range)%nat ->
  (c1 range <= c <= c2 range)%nat ->
  (forall row, rows s !! r = Some row -> (length row <= c)%nat) ->
  setValues range values prov w = (w1, Ret tt) ->
  exists w2 ev s2,
    undo w1 = (w2, Ret (Some ev)) /\
    JsMap.get (sheet range) (sheets w2) = Some s2 /\
    cellOf (rows s2) r c = Some defaultCell.
Proof.
  intros Hs Hr Hc Hout Hset.
  destruct (undo_puts_the_copy_back w w1 range values prov s r c Hs Hr Hc Hset)
    as (w2 & ev & s2 & Hundo & Hop & Hs2 & Hafter).
  exists w2, ev, s2. split; [exact Hundo|]. split; [exact Hs2|].
  rewrite Hafter. rewrite cellOf_ensureRows_new by (auto; lia). reflexivity.
Qed.

(** [setValues] returns when the workbook has the sheet and the grid of
    values has no more rows than the range. *)
Lemma setValues_returns
    (w : Workbook) (range : RangeRef) (values : list (list Val))
    (prov : option (list CellProvenance)) (s : Sheet) :
  JsMap.get (sheet range) (sheets w) = Some s ->
  (length values <= S (r2 range) - r1 range)%nat ->
  exists w1, setValues range values prov w = (w1, Ret tt).
Proof.
  intros Hs Hfit. unfold setValues.
  rewrite (bind_Ret _ _ _ _ _ (snapshot_Some range w s Hs)).
  set (rs := ensureRows (r2 range + 1) (c2 range + 1) (rows s)).
  pose proof (sheets_setRows _ rs _ _ Hs) as Hs1.
  rewrite (bind_Ret _ _ _ _ _ (getSheet_Some _ _ _ Hs1)).
  unfold ensureSize. unfold bind at 1.
  rewrite (onRows_Some _ _ _ _ Hs1). simpl. rewrite setRows_setRows.
  set (rs2 := ensureRows (r2 range + 1) (c2 range + 1) rs).
  pose proof (sheets_setRows _ rs2 _ _ Hs) as Hs2.
  unfold bind at 1. rewrite (onRows_Some _ _ _ _ Hs2). simpl.
  match goal with |- context [overGrid range values ?b rs2] => set (body := b) end.
  assert (Hloop : forall n (l : list (nat * list Val)) (rs0 : list Row),
            (forall r line, (r, line) ∈ l -> (r1 range + r < n)%nat) ->
            (n <= length rs0)%nat ->
            exists rs', (n <= length rs')%nat /\
              forEach l (fun '(r, line) =>
                forEach (indexed line) (fun '(c, x) =>
                  body (r1 range + r)%nat (c1 range + c)%nat x)) rs0 = (rs', Ret tt)).
  { intros n l. induction l as [|[r line] l IH]; intros rs0 Hl Hn.
    - exists rs0. split; [exact Hn | reflexivity].
    - assert (Hr : (r1 range + r < n)%nat) by (apply (Hl r line), list_elem_of_here).
      assert (Hline : forall (cs : list (nat * Val)) (rs0 : list Row),
                (n <= length rs0)%nat ->
                exists rs', (n <= length rs')%nat /\
                  forEach cs (fun '(c, x) =>
                    body (r1 range + r)%nat (c1 range + c)%nat x) rs0 = (rs', Ret tt)).
      { clear - Hr. intros cs. induction cs as [|[c x] cs IHc]; intros rs0 Hn.
        - exists rs0. split; [exact Hn | reflexivity].
        - destruct (lookup_lt_is_Some_2 rs0 (r1 range + r) ltac:(lia)) as [row Hrow].
          destruct (IHc (<[(r1 range + r)%nat :=
                            writeAt (c1 range + c)
                              (mkCell x None (format (orDefault (readAt row (c1 range + c))))
                                 match prov with
                                 | Some p => Some p
                                 | None => provenance (orDefault (readAt row (c1 range + c)))
                                 end) row]> rs0))
            as (rs' & Hn' & E); [rewrite length_insert; exact Hn|].
          exists rs'. split; [exact Hn'|]. simpl. unfold bind at 1. subst body. simpl.
          unfold bind at 1, cellAt. rewrite Hrow. unfold setCellAt. rewrite Hrow.
          exact E. }
      destruct (Hline (indexed line) rs0 Hn) as (rs1 & Hn1 & E1).
      destruct (IH rs1) as (rs' & Hn' & E); [|exact Hn1|].
      { intros r' line' Hin. apply (Hl r' line'). now apply list_elem_of_further. }
      exists rs'. split; [exact Hn'|]. simpl. unfold bind at 1. rewrite E1. exact E. }
  assert (Hlen2 : (r2 range + 1 <= length rs2)%nat)
    by (subst rs2 rs; rewrite !length_ensureRows; lia).
  destruct (Hloop (length rs2) (indexed values) rs2) as (rs3 & _ & E).
  - intros r line Hin. unfold indexed in Hin.
    apply list_elem_of_lookup in Hin as [i Hi].
    apply lookup_zip_with_Some in Hi as (a & b & [= <- <-] & Ha & Hb).
    apply lookup_seq in Ha as [-> Hlt]. simpl. lia.
  - lia.
  - unfold overGrid. rewrite E. simpl. eexists. reflexivity.
Qed.

Lemma setValues_then_undo_restores_witness :
  exists w2 ev s2 after,
    undo Samples.edited = (w2, Ret (Some ev)) /\
    op ev = OpSetValues Samples.cellA1 [[VStr "New Value"]] None /\
    JsMap.get "Sheet1" (sheets w2) = Some s2 /\
    cellOf (rows s2) 0 0 = Some after /\
    value after = VStr "Initial Value" /\
    formula after = None /\
    format after = None.
Proof.
  apply (setValues_then_undo_restores Samples.initial Samples.edited Samples.cellA1
           [[VStr "New Value"]] None
           (mkSheet "Sheet1" [[Some (mkCell (VStr "Initial Value") None None None)]])
           0 0 (mkCell (VStr "Initial Value") None None None));
    solve [reflexivity | simpl; lia].
Defined.

End UndoFacts.

(** ** Evaluation only grows the grids *)

Module GrowFacts.
Import Text Codec Engine Evaluator Predicates EngineFacts GridFacts.

Lemma rowGrows_refl row : rowGrows row row.
Proof. split; [lia | eauto]. Qed.

Lemma rowGrows_trans a b c : rowGrows a b -> rowGrows b c -> rowGrows a c.
Proof.
  intros [L1 H1] [L2 H2]. split; [lia|]. intros i x Hx.
  destruct (H1 i x Hx) as (y & Hy & Fy). destruct (H2 i y Hy) as (z & Hz & Fz).
  exists z. split; congruence.
Qed.

Lemma grows_refl rs : grows rs rs.
Proof. intros i row H. exists row. split; [exact H | apply rowGrows_refl]. Qed.

Lemma grows_trans a b c : grows a b -> grows b c -> grows a c.
Proof.
  intros H1 H2 i x Hx. destruct (H1 i x Hx) as (y & Hy & Gy).
  destruct (H2 i y Hy) as (z & Hz & Gz). exists z. split; [exact Hz|].
  eapply rowGrows_trans; eauto.
Qed.

Lemma wbGrows_refl w : wbGrows w w.
Proof.
  split; [|split; reflexivity].
  intros nm s H. exists s. split; [exact H | apply grows_refl].
Qed.

Lemma wbGrows_trans a b c : wbGrows a b -> wbGrows b c -> wbGrows a c.
Proof.
  intros (H1 & E1 & C1) (H2 & E2 & C2). split; [|split; congruence].
  intros nm s Hs. destruct (H1 nm s Hs) as (s1 & Hs1 & G1).
  destruct (H2 nm s1 Hs1) as (s2 & Hs2 & G2). exists s2. split; [exact Hs2|].
  eapply grows_trans; eauto.
Qed.

Lemma wbGrows_sheet w w' nm s :
  wbGrows w w' -> JsMap.get nm (sheets w) = Some s ->
  exists s', JsMap.get nm (sheets w') = Some s' /\ grows (rows s) (rows s').
Proof. intros (H & _) Hs. now apply H. Qed.

Lemma grows_length rs rs' : grows rs rs' -> (length rs <= length rs')%nat.
Proof.
  intros H. destruct (decide (length rs <= length rs')%nat) as [|Hgt]; [assumption|].
  destruct (lookup_lt_is_Some_2 rs (length rs') ltac:(lia)) as [row Hrow].
  destruct (H _ _ Hrow) as (row' & Hrow' & _).
  apply lookup_lt_Some in Hrow'. lia.
Qed.

Lemma grows_cellOf rs rs' r c cell :
  grows rs rs' -> cellOf rs r c = Some cell ->
  exists cell', cellOf rs' r c = Some cell' /\ formula cell' = formula cell.
Proof.
  intros H. unfold cellOf. destruct (rs !! r) as [row|] eqn:E; [|discriminate].
  intros Hc. destruct (H _ _ E) as (row' & -> & _ & Hg). now apply Hg.
Qed.

Lemma rowGrows_padRow k row : rowGrows row (padRow k row).
Proof.
  split; [unfold padRow; rewrite length_app; lia|].
  intros c cell H. exists cell. split; [now apply readAt_padRow_old | reflexivity].
Qed.

Lemma grows_ensureRows n k rs : grows rs (ensureRows n k rs).
Proof.
  intros i row H. exists (padRow k row).
  split; [now apply lookup_ensureRows_old | apply rowGrows_padRow].
Qed.

Lemma grows_insert rs r row row' :
  rs !! r = Some row -> rowGrows row row' -> grows rs (<[r := row']> rs).
Proof.
  intros Hr Hg i x Hx. destruct (decide (i = r)) as [->|Hne].
  - exists row'. rewrite list_lookup_insert_eq by (eapply lookup_lt_Some; eauto).
    split; [reflexivity | congruence].
  - exists x. rewrite list_lookup_insert_ne by congruence.
    split; [exact Hx | apply rowGrows_refl].
Qed.

(** Writing over a cell object a cell with the same formula. *)
Lemma rowGrows_writeAt (row : Row) c cell cell' :
  readAt row c = Some cell -> formula cell' = formula cell ->
  rowGrows row (writeAt c cell' row).
Proof.
  intros Hc Hf.
  assert (Hlt : (c < length row)%nat).
  { unfold readAt in Hc. destruct (row !! c) eqn:E; [|discriminate].
    eapply lookup_lt_Some; eauto. }
  split.
  - unfold writeAt. apply Nat.ltb_lt in Hlt. rewrite Hlt. now rewrite length_insert.
  - intros i x Hx. rewrite readAt_writeAt. destruct (decide (i = c)) as [->|Hne].
    + exists cell'. split; congruence.
    + exists x. split; [exact Hx | reflexivity].
Qed.

Lemma wbGrows_setRows nm rs w s :
  JsMap.get nm (sheets w) = Some s -> grows (rows s) rs -> wbGrows w (setRows nm rs w).
Proof.
  intros Hs Hg. split; [|split; [apply events_setRows | apply checkpoints_setRows]].
  intros nm' s' Hs'. destruct (decide (nm = nm')) as [<-|Hne].
  - rewrite (sheets_setRows _ rs _ _ Hs). eexists. split; [reflexivity|].
    assert (s' = s) as -> by congruence. exact Hg.
  - rewrite (sheets_setRows_ne _ _ rs w Hne). exists s'. split; [exact Hs' | apply grows_refl].
Qed.

Lemma wbGrows_onRows {A} nm (m : M (list Row) A) w :
  (forall rs, grows rs (m rs).1) -> wbGrows w (onRows nm m w).1.
Proof.
  intros Hm. destruct (JsMap.get nm (sheets w)) as [s|] eqn:E.
  - rewrite (onRows_Some _ _ _ _ E). simpl. now apply wbGrows_setRows with s.
  - rewrite (onRows_None _ _ _ E). apply wbGrows_refl.
Qed.

Lemma grows_stamp r c v rs : grows rs (stamp r c v rs).
Proof.
  unfold stamp. destruct (rs !! r) as [row|] eqn:Er; [|apply grows_refl].
  destruct (readAt row c) as [cell|] eqn:Ec; [|apply grows_refl].
  eapply grows_insert; [exact Er|]. eapply rowGrows_writeAt; [exact Ec | reflexivity].
Qed.

Lemma cellOf_stamp_eq r c v rs cell :
  cellOf rs r c = Some cell ->
  cellOf (stamp r c v rs) r c = Some (mkCell v (formula cell) (format cell) (provenance cell)).
Proof.
  unfold cellOf, stamp. destruct (rs !! r) as [row|] eqn:Er; [|discriminate].
  intros Hc. rewrite Hc. rewrite list_lookup_insert_eq by (eapply lookup_lt_Some; eauto).
  rewrite readAt_writeAt. now destruct (decide (c = c)).
Qed.

(** The computation on the rows that [setValueOf] runs. *)
Lemma setValueOf_rows r c v (rs : list Row) :
  (let* x := cellAt r c in
   match x with
   | None => throw TypeError
   | Some cell => setCellAt r c (mkCell v (formula cell) (format cell) (provenance cell))
   end) rs
  = (stamp r c v rs,
     match cellOf rs r c with Some _ => Ret tt | None => Throw TypeError end).
Proof.
  unfold bind, cellAt, cellOf, stamp, setCellAt, throw.
  destruct (rs !! r) as [row|] eqn:Er; [|reflexivity].
  destruct (readAt row c) as [cell|]; [|reflexivity]. now rewrite Er.
Qed.

Lemma setValueOf_Some nm r c v w s :
  JsMap.get nm (sheets w) = Some s ->
  setValueOf nm r c v w
  = (setRows nm (stamp (Z.to_nat r) (Z.to_nat c) v (rows s)) w,
     match cellOf (rows s) (Z.to_nat r) (Z.to_nat c) with
     | Some _ => Ret tt
     | None => Throw TypeError
     end).
Proof.
  intros Hs. unfold setValueOf. rewrite (onRows_Some _ _ _ _ Hs).
  now rewrite setValueOf_rows.
Qed.

Lemma wbGrows_setValueOf nm r c v w : wbGrows w (setValueOf nm r c v w).1.
Proof.
  unfold setValueOf. apply wbGrows_onRows. intros rs.
  rewrite setValueOf_rows. apply grows_stamp.
Qed.

Lemma wbGrows_ensureSize nm n k w : wbGrows w (ensureSize nm n k w).1.
Proof. unfold ensureSize. apply wbGrows_onRows. intros rs. apply grows_ensureRows. Qed.

(** [getCell] on a sheet of the workbook, at coordinates that are not
    negative: the grid is padded and the cell read from it. *)
Lemma getCell_Some nm (r c : Z) w s :
  JsMap.get nm (sheets w) = Some s -> 0 <= r -> 0 <= c ->
  let rs := ensureRows (Z.to_nat (r + 1)) (Z.to_nat (c + 1)) (rows s) in
  getCell nm r c w = (setRows nm rs w, Ret (cellOf rs (Z.to_nat r) (Z.to_nat c))).
Proof.
  intros Hs Hr Hc rs. unfold getCell, ensureSize.
  unfold bind at 1. rewrite (onRows_Some _ _ _ _ Hs). simpl. fold rs.
  rewrite (bind_Ret _ _ _ _ _ (getSheet_Some _ _ _ (sheets_setRows _ rs _ _ Hs))).
  replace (r <? 0) with false by (symmetry; apply Z.ltb_ge; lia).
  replace (c <? 0) with false by (symmetry; apply Z.ltb_ge; lia).
  simpl. unfold cellOf.
  destruct (rs !! Z.to_nat r) as [row|] eqn:E; [reflexivity|].
  apply lookup_ge_None_1 in E. subst rs. rewrite length_ensureRows in E. lia.
Qed.

Lemma wbGrows_getCell nm r c w : wbGrows w (getCell nm r c w).1.
Proof.
  unfold getCell. unfold bind at 1.
  pose proof (wbGrows_ensureSize nm (Z.to_nat (r + 1)) (Z.to_nat (c + 1)) w) as H.
  destruct (ensureSize _ _ _ w) as [w1 [u| |]]; simpl in *; try exact H.
  unfold bind, getSheet. destruct (JsMap.get nm (sheets w1)); simpl; [|exact H].
  destruct (r <? 0); simpl; [exact H|].
  destruct (rows s !! Z.to_nat r); exact H.
Qed.

(** *** Every computation of the evaluator is monotone *)

Lemma mono_ret {A} (a : A) : Mono (ret a).
Proof. intros st. apply wbGrows_refl. Qed.

Lemma mono_throw {A} e : Mono (throw (A := A) e).
Proof. intros st. apply wbGrows_refl. Qed.

Lemma mono_diverge {A} : Mono (diverge (A := A)).
Proof. intros st. apply wbGrows_refl. Qed.

Lemma mono_bind {A B} (m : M EvalState A) (k : A -> M EvalState B) :
  Mono m -> (forall a, Mono (k a)) -> Mono (bind m k).
Proof.
  intros Hm Hk st. unfold bind. specialize (Hm st).
  destruct (m st) as [st' [a| |]]; simpl in *; try exact Hm.
  eapply wbGrows_trans; [exact Hm | apply Hk].
Qed.

Lemma mono_liftWb {A} (m : M Workbook A) :
  (forall w, wbGrows w (m w).1) -> Mono (liftWb m).
Proof.
  intros Hm st. unfold liftWb. specialize (Hm (wb st)). now destruct (m (wb st)).
Qed.

Lemma mono_seenHas key : Mono (seenHas key).
Proof. intros st. apply wbGrows_refl. Qed.

Lemma mono_seenAdd key : Mono (seenAdd key).
Proof. intros st. apply wbGrows_refl. Qed.

Lemma mono_foldM {A B} (f : B -> A -> M EvalState B) (l : list A) :
  (forall b x, Mono (f b x)) -> forall b, Mono (foldM f l b).
Proof.
  intros Hf. induction l as [|x l IH]; intros b; simpl; [apply mono_ret|].
  apply mono_bind; [apply Hf | apply IH].
Qed.

Create HintDb mono.
#[local] Hint Resolve mono_ret mono_throw mono_diverge mono_seenHas mono_seenAdd : mono.

Section WithHost.
Context {host : JsHost}.

Section Helpers.
Variable ev : string -> Z -> Z -> M EvalState Val.
Hypothesis ev_mono : forall nm r c, Mono (ev nm r c).

Lemma mono_evalRef nm a1 : Mono (evalRef ev nm a1).
Proof.
  unfold evalRef. destruct (a1ToRc a1) as [[r c]| |]; auto with mono.
  apply mono_bind; [apply ev_mono|]. intros [| | |]; auto with mono.
Qed.

Lemma mono_sumRange nm a1range : Mono (sumRange ev nm a1range).
Proof.
  unfold sumRange. destruct (matchRange a1range) as [[pa pb]|]; auto with mono.
  destruct (a1ToRc pa) as [[ar ac]| |], (a1ToRc pb) as [[br bc]| |]; auto with mono.
  apply mono_foldM. intros total r. apply mono_foldM. intros total' c.
  apply mono_bind; [apply ev_mono | auto with mono].
Qed.

Lemma mono_sumTerm nm term : Mono (sumTerm ev nm term).
Proof.
  unfold sumTerm. destruct (matchRange (trim term)) eqn:E.
  - apply mono_bind; [apply mono_sumRange | auto with mono].
  - destruct (isRef (trim term)); [apply mono_evalRef | auto with mono].
Qed.

Lemma mono_sumTerms nm terms : forall total, Mono (sumTerms ev nm terms total).
Proof.
  induction terms as [|t terms IH]; intros total; simpl; auto with mono.
  apply mono_bind; [apply mono_sumTerm|]. intros [n|s]; auto with mono.
Qed.

Lemma mono_sumArgs nm args : Mono (sumArgs ev nm args).
Proof. apply mono_sumTerms. Qed.

Lemma mono_replaceSums fuel : forall nm expr, Mono (replaceSums ev fuel nm expr).
Proof.
  induction fuel as [|k IH]; intros nm [|a r]; cbn [replaceSums]; auto with mono.
  destruct (matchSum (String a r)) as [[args after]|].
  - apply mono_bind; [apply mono_sumArgs|]. intros v.
    apply mono_bind; [apply IH | auto with mono].
  - apply mono_bind; [apply IH | auto with mono].
Qed.

Lemma mono_replaceWord nm w : Mono (replaceWord ev nm w).
Proof.
  unfold replaceWord. destruct (isRef w); auto with mono.
  apply mono_bind; [apply mono_evalRef | auto with mono].
Qed.

Lemma mono_replaceRefs nm expr : forall w, Mono (replaceRefs ev nm w expr).
Proof.
  induction expr as [|a r IH]; intros w; simpl; [apply mono_replaceWord|].
  destruct (isWord a); [apply IH|].
  apply mono_bind; [apply mono_replaceWord|]. intros x.
  apply mono_bind; [apply IH | auto with mono].
Qed.

Lemma mono_setValueOf nm r c v : Mono (liftWb (setValueOf nm r c v)).
Proof. apply mono_liftWb. intros w. apply wbGrows_setValueOf. Qed.

Lemma mono_getCell nm r c : Mono (liftWb (getCell nm r c)).
Proof. apply mono_liftWb. intros w. apply wbGrows_getCell. Qed.

Lemma mono_finishCell nm r c expr : Mono (finishCell nm r c expr).
Proof.
  unfold finishCell.
  destruct (includes "#REF!" expr || includes "#ERROR!" expr);
    (apply mono_bind; [apply mono_setValueOf | auto with mono]).
Qed.

Lemma mono_afterCell nm r c x : Mono (afterCell ev nm r c x).
Proof.
  unfold afterCell. destruct x as [cell|]; auto with mono.
  destruct (formula cell) as [[|a t]|]; auto with mono.
  destruct (negb _); auto with mono.
  apply mono_bind; [apply mono_replaceSums|]. intros e1.
  apply mono_bind; [apply mono_replaceRefs|]. intros e2. apply mono_finishCell.
Qed.

(** The cell is fetched first in both branches of [evaluateCell]. *)
Lemma body_unfold nm r c st :
  evaluateCellBody ev nm r c st =
  if bool_decide (cellKey nm r c ∈ seen st) then
    (let* x := liftWb (getCell nm r c) in
     match x with
     | None => throw TypeError
     | Some _ => liftWb (setValueOf nm r c (VStr "#REF!")) ;; ret (VStr "#REF!")
     end) st
  else
    (let* x := liftWb (getCell nm r c) in afterCell ev nm r c x)
      (mkEvalState (wb st) ({[cellKey nm r c]} ∪ seen st)).
Proof.
  unfold evaluateCellBody. unfold bind at 1, seenHas at 1.
  destruct (bool_decide (cellKey nm r c ∈ seen st)); reflexivity.
Qed.

Lemma mono_body nm r c : Mono (evaluateCellBody ev nm r c).
Proof.
  intros st. rewrite body_unfold.
  destruct (bool_decide (cellKey nm r c ∈ seen st)).
  - apply (mono_bind (liftWb (getCell nm r c))); [apply mono_getCell|].
    intros [cell|]; auto with mono.
    apply mono_bind; [apply mono_setValueOf | auto with mono].
  - apply (mono_bind (liftWb (getCell nm r c)) (afterCell ev nm r c)
             (mono_getCell nm r c) (mono_afterCell nm r c)
             (mkEvalState (wb st) ({[cellKey nm r c]} ∪ seen st))).
Qed.

End Helpers.

Lemma mono_evaluateCell fuel : forall nm r c, Mono (evaluateCell fuel nm r c).
Proof.
  induction fuel as [|k IH]; intros nm r c; simpl; [apply mono_diverge|].
  now apply mono_body.
Qed.

(** *** C10: the shape of the grid after an evaluation *)

Lemma stamp_lengths r c v (rs : list Row) i row :
  stamp r c v rs !! i = Some row ->
  exists row0, rs !! i = Some row0 /\ length row = length row0.
Proof.
  unfold stamp. destruct (rs !! r) as [rowr|] eqn:Er; [|eauto].
  destruct (readAt rowr c) as [cell|] eqn:Ec; [|eauto].
  destruct (decide (i = r)) as [->|Hne].
  - rewrite list_lookup_insert_eq by (eapply lookup_lt_Some; eauto).
    intros [= <-]. exists rowr. split; [exact Er|].
    assert (Hlt : (c < length rowr)%nat).
    { unfold readAt in Ec. destruct (rowr !! c) eqn:E; [|discriminate].
      eapply lookup_lt_Some; eauto. }
    unfold writeAt. apply Nat.ltb_lt in Hlt. rewrite Hlt. apply length_insert.
  - rewrite list_lookup_insert_ne by congruence. eauto.
Qed.

(** C10, as the engine has it. Whatever way the evaluation of the cell at
    (r, c) of a sheet of the workbook ends, afterwards the sheet is still
    there, no row was removed or shortened and no cell object lost, row r
    exists, and row r and every row that the sheet had before the call have
    more than c cells. Rows that the evaluation of a referenced cell
    appended may be shorter; when the cell has no formula, every row of
    the sheet has more than c cells. *)
Theorem evaluateCell_pads_the_grid
    (fuel : nat) (st : EvalState) (nm : string) (s : Sheet) (r c : nat) :
  JsMap.get nm (sheets (wb st)) = Some s ->
  exists s',
    JsMap.get nm
      (sheets (wb (evaluateCell (S fuel) nm (Z.of_nat r) (Z.of_nat c) st).1)) = Some s' /\
    grows (rows s) (rows s') /\
    (r < length (rows s'))%nat /\
    (forall i row', (i < Nat.max (length (rows s)) (S r))%nat ->
       rows s' !! i = Some row' -> (c < length row')%nat) /\
    ((forall cell, cellOf (rows s) r c = Some cell -> formula cell = None) ->
     Forall (fun row' : Row => (c < length row')%nat) (rows s')).
Proof.
  destruct st as [w sn]. cbn [wb]. intros Hs.
  cbn [evaluateCell]. rewrite body_unfold. cbn [wb seen].
  set (rs1 := ensureRows (Z.to_nat (Z.of_nat r + 1)) (Z.to_nat (Z.of_nat c + 1)) (rows s)).
  assert (Hlen1 : length rs1 = Nat.max (length (rows s)) (S r))
    by (subst rs1; rewrite length_ensureRows; lia).
  assert (Hwide1 : forall i row, rs1 !! i = Some row -> (c < length row)%nat).
  { intros i row H. apply ensureRows_wide in H. lia. }
  assert (Hget : forall sn',
            liftWb (getCell nm (Z.of_nat r) (Z.of_nat c)) (mkEvalState w sn')
            = (mkEvalState (setRows nm rs1 w) sn', Ret (cellOf rs1 r c))).
  { intros sn'. unfold liftWb. simpl.
    rewrite (getCell_Some nm _ _ _ _ Hs) by lia. fold rs1.
    now rewrite !Nat2Z.id. }
  pose proof (sheets_setRows nm rs1 _ _ Hs) as Hs1.
  (* what follows the fetch of the cell is monotone *)
  assert (Hend : forall (K : option Cell -> M EvalState Val) sn',
            (forall x, Mono (K x)) ->
            exists s', JsMap.get nm
                (sheets (wb (K (cellOf rs1 r c)
                               (mkEvalState (setRows nm rs1 w) sn')).1)) = Some s'
              /\ grows rs1 (rows s')).
  { intros K sn' HK.
    destruct (wbGrows_sheet _ _ _ _
                (HK (cellOf rs1 r c) (mkEvalState (setRows nm rs1 w) sn')) Hs1)
      as (s' & Hs' & Hg). exists s'. split; [exact Hs' | exact Hg]. }
  assert (Hfin : forall s', grows rs1 (rows s') ->
            grows (rows s) (rows s') /\ (r < length (rows s'))%nat /\
            (forall i row', (i < Nat.max (length (rows s)) (S r))%nat ->
               rows s' !! i = Some row' -> (c < length row')%nat)).
  { intros s' Hg. split; [|split].
    - eapply grows_trans; [apply grows_ensureRows | exact Hg].
    - apply grows_length in Hg. lia.
    - intros i row' Hi Hrow'.
      destruct (lookup_lt_is_Some_2 rs1 i ltac:(lia)) as [row1 Hrow1].
      destruct (Hg _ _ Hrow1) as (row2 & Hrow2 & Hlen & _).
      specialize (Hwide1 _ _ Hrow1). assert (row2 = row') as -> by congruence. lia. }
  assert (Hall1 : forall s', rows s' = rs1 ->
            Forall (fun row' : Row => (c < length row')%nat) (rows s')).
  { intros s' ->. apply Forall_lookup. intros i row. apply Hwide1. }
  destruct (bool_decide (cellKey nm (Z.of_nat r) (Z.of_nat c) ∈ sn)).
  - (* the key was visited *)
    rewrite (bind_Ret _ _ _ _ _ (Hget sn)).
    destruct (cellOf rs1 r c) as [cell|] eqn:Ecell.
    + unfold bind, liftWb. simpl. rewrite (setValueOf_Some _ _ _ _ _ _ Hs1). simpl.
      rewrite !Nat2Z.id, Ecell. simpl. rewrite setRows_setRows.
      rewrite (sheets_setRows nm _ _ _ Hs). eexists. split; [reflexivity|].
      simpl. destruct (Hfin (mkSheet (name s) (stamp r c (VStr "#REF!") rs1)))
        as (H1 & H2 & H3); [apply grows_stamp|].
      repeat split; auto. intros _. apply Forall_lookup. intros i row Hrow.
      destruct (stamp_lengths _ _ _ _ _ _ Hrow) as (row0 & Hrow0 & ->). eauto.
    + simpl. rewrite Hs1. eexists. split; [reflexivity|].
      destruct (Hfin (mkSheet (name s) rs1)) as (H1 & H2 & H3); [apply grows_refl|].
      repeat split; auto.
  - (* the key is new *)
    rewrite (bind_Ret _ _ _ _ _ (Hget _)).
    destruct (Hend (afterCell (evaluateCell fuel) nm (Z.of_nat r) (Z.of_nat c))
                ({[cellKey nm (Z.of_nat r) (Z.of_nat c)]} ∪ sn))
      as (s' & Hs' & Hg).
    { intros x. apply mono_afterCell. apply mono_evaluateCell. }
    exists s'. split; [exact Hs'|]. destruct (Hfin s' Hg) as (H1 & H2 & H3).
    repeat split; auto. intros Hnone.
    destruct (cellOf rs1 r c) as [cell|] eqn:Ecell.
    + assert (Hf : formula cell = None).
      { subst rs1. apply cellOf_ensureRows_inv in Ecell as [H| ->]; [auto | reflexivity]. }
      unfold afterCell in Hs'. rewrite Hf in Hs'. simpl in Hs'.
      apply Hall1. rewrite Hs1 in Hs'. now injection Hs' as <-.
    + simpl in Hs'. apply Hall1. rewrite Hs1 in Hs'. now injection Hs' as <-.
Qed.

End WithHost.

(** Against C10 as the specification states it: B1 holds [=A3] on a sheet of
    one row; its evaluation returns, and the two rows that the evaluation
    of A3 appended have one cell, not the two that column 1 would need. *)
Lemma evaluation_leaves_short_rows :
  (evaluateFresh (host := SampleHost.host) 3 "Sheet1" 0 1 Samples.chain).2
    = Ret (VNum 0%float) /\
  Samples.shapeOf Samples.chain "Sheet1" = Some [2%nat] /\
  Samples.shapeOf
    (evaluateFresh (host := SampleHost.host) 3 "Sheet1" 0 1 Samples.chain).1 "Sheet1"
    = Some [2%nat; 1%nat; 1%nat].
Proof. repeat split; vm_compute; reflexivity. Qed.

Lemma evaluateCell_pads_the_grid_witness :
  exists s',
    JsMap.get "Sheet1"
      (sheets (wb (evaluateCell (host := SampleHost.host) 3 "Sheet1" 0 1
                     (mkEvalState Samples.chain ∅)).1)) = Some s' /\
    grows [[Some defaultCell; Some (mkCell VNull (Some "=A3") None None)]] (rows s') /\
    (0 < length (rows s'))%nat /\
    (forall i row', (i < Nat.max 1 1)%nat ->
       rows s' !! i = Some row' -> (1 < length row')%nat) /\
    ((forall cell,
        cellOf [[Some defaultCell; Some (mkCell VNull (Some "=A3") None None)]] 0 1
          = Some cell -> formula cell = None) ->
     Forall (fun row' : Row => (1 < length row')%nat) (rows s')).
Proof.
  apply (evaluateCell_pads_the_grid (host := SampleHost.host) 2
           (mkEvalState Samples.chain ∅) "Sheet1"
           (mkSheet "Sheet1" [[Some defaultCell; Some (mkCell VNull (Some "=A3") None None)]])
           0 1).
  reflexivity.
Defined.

End GrowFacts.

(** ** The event log *)

Module LogFacts.
Import Text Codec Engine Evaluator Predicates EngineFacts GrowFacts.

Section WithHost.
Context {host : JsHost}.

Lemma outlines_app (l l' : list SheetEvent) :
  outlines (l ++ l') = outlines l ++ outlines l'.
Proof. apply map_app. Qed.

Lemma evaluateFresh_keeps_log fuel nm r c w :
  outlines (events (evaluateFresh fuel nm r c w).1) = outlines (events w) /\
  checkpoints (evaluateFresh fuel nm r c w).1 = checkpoints w.
Proof.
  unfold evaluateFresh.
  pose proof (mono_evaluateCell fuel nm r c (mkEvalState w ∅)) as (_ & E & C).
  destruct (evaluateCell fuel nm r c _) as [st o]. simpl in *.
  split; [now rewrite E | exact C].
Qed.

(** C3, as the engine has it. The log is read in [outline]: the cells and
    the sheet that an event holds are objects of the grid, which later
    calls write (see [frame]); the events, their order, their operations
    and arguments are what the log keeps. A call of [dispatch] that
    returns has appended to the log the events that [logged] gives: none
    for [noop] and for a name that is not an operation, one event for the
    operation otherwise; a call that throws adds and removes no event; a
    checkpoint leaves the log alone, and the evaluation of a cell adds and
    removes no event. [undo] on an empty log returns nothing and changes
    nothing; on a log [l ++ [ev]] it removes [ev], returns it, and replays
    its inverse through [dispatch], so that the log afterwards is [l]
    followed by what the replay logged: one new event, unless the inverse
    is [noop] or the replay throws. The event that the replay of a
    [setCells] logged has [noop] for its inverse: the [undo] after it
    removes that event and changes nothing else. *)
Theorem undo_pops_one_and_replay_logs :
  (forall o internal w,
     match dispatch o internal w with
     | (w', Ret _) =>
         exists evs,
           outlines (events w') = outlines (events w) ++ outlines evs /\ logged o evs
     | (w', Throw _) => outlines (events w') = outlines (events w)
     | (_, Diverge) => False
     end) /\
  (forall id w, events (checkpoint id w).1 = events w) /\
  (forall fuel nm r c w,
     outlines (events (evaluateFresh fuel nm r c w).1) = outlines (events w)) /\
  (forall id sh cps,
     undo (mkWorkbook id sh cps []) = (mkWorkbook id sh cps [], Ret None)) /\
  (forall id sh cps l ev,
     match undo (mkWorkbook id sh cps (l ++ [ev])) with
     | (w', Ret x) =>
         outline <$> x = Some (outline ev) /\
         exists evs, outlines (events w') = outlines l ++ outlines evs /\
                     logged (inverse ev) evs
     | (w', Throw _) => outlines (events w') = outlines l
     | (_, Diverge) => False
     end) /\
  (forall id sh cps l o summ,
     undo (mkWorkbook id sh cps (l ++ [mkEvent o OpNoop summ]))
     = (mkWorkbook id sh cps l, Ret (Some (mkEvent o OpNoop summ)))).
Proof.
  assert (Hd : forall o internal w,
             match dispatch o internal w with
             | (w', Ret _) =>
                 exists evs,
                   outlines (events w') = outlines (events w) ++ outlines evs /\
                   logged o evs
             | (w', Throw _) => outlines (events w') = outlines (events w)
             | (_, Diverge) => False
             end).
  { intros o internal w. pose proof (dispatch_log o internal w) as H.
    destruct (dispatch o internal w) as [w' [u|e|]]; [|now rewrite H|exact H].
    destruct H as (evs & E & L). exists evs. now rewrite E, outlines_app. }
  split; [exact Hd|]. split; [reflexivity|].
  split; [intros; apply evaluateFresh_keeps_log|]. split; [reflexivity|]. split.
  - intros id sh cps l ev. unfold undo.
    rewrite (bind_Ret _ _ _ _ _ (popEvent_snoc id sh cps l ev)).
    pose proof (Hd (inverse ev) true (mkWorkbook id sh cps l)) as H.
    unfold bind. destruct (dispatch (inverse ev) true _) as [w' [u| |]];
      simpl in *; auto.
  - intros id sh cps l o summ. unfold undo.
    now rewrite (bind_Ret _ _ _ _ _ (popEvent_snoc id sh cps l _)).
Qed.

End WithHost.

(** Against C3 as the specification states it: after the two [setValues] of
    the undo test, [undo] leaves a log that is as long as before, with the
    event of its own [setCells] replay in the last place; a second [undo]
    removes that event and leaves A1 at 'Initial Value' instead of going
    back past the first [setValues]. *)
Lemma undo_replay_is_logged :
  map summary (events Samples.edited)
    = ["create Sheet1"; "setValues Sheet1!A1"; "setValues Sheet1!A1"] /\
  map summary (events Samples.undone)
    = ["create Sheet1"; "setValues Sheet1!A1"; "setCells"] /\
  events Samples.undone <> removelast (events Samples.edited) /\
  Samples.valueAt Samples.undone "Sheet1" 0 0 = Some (VStr "Initial Value") /\
  map summary (events Samples.undoneTwice)
    = ["create Sheet1"; "setValues Sheet1!A1"] /\
  Samples.valueAt Samples.undoneTwice "Sheet1" 0 0 = Some (VStr "Initial Value").
Proof. repeat split; try reflexivity. discriminate. Qed.

End LogFacts.

(** ** The steps of an evaluation *)

Module EvalFacts.
Import Text Codec Engine Evaluator Predicates EngineFacts GridFacts GrowFacts.

Lemma Holds_grows w w' nm r c f :
  wbGrows w w' -> Holds w nm r c f -> Holds w' nm r c f.
Proof.
  intros Hg (s & cell & Hs & Hc & Hf).
  destruct (wbGrows_sheet _ _ _ _ Hg Hs) as (s' & Hs' & Hrows).
  destruct (grows_cellOf _ _ _ _ _ Hrows Hc) as (cell' & Hc' & Hf').
  exists s', cell'. repeat split; congruence.
Qed.

Lemma plain_char (a : ascii) :
  plain a = true ->
  isSpace a = false /\ Ascii.eqb a "," = false /\ Ascii.eqb a ":" = false.
Proof.
  unfold plain, isLetter. intros H.
  assert (Hb : 65 <= code a <= 90 \/ 97 <= code a <= 122 \/ 48 <= code a <= 57).
  { apply orb_true_iff in H as [H|H]; [apply orb_true_iff in H as [H|H]|];
      apply CodecFacts.between_bounds in H; auto. }
  split; [|split].
  - unfold isSpace. destruct (between 9 13 a) eqn:E1.
    { apply CodecFacts.between_bounds in E1. lia. }
    destruct (code a =? 32) eqn:E2; [apply Z.eqb_eq in E2; lia|].
    destruct (code a =? 160) eqn:E3; [apply Z.eqb_eq in E3; lia|]. reflexivity.
  - destruct (Ascii.eqb_spec a ","); [|reflexivity].
    subst a. change (code ",") with 44 in Hb. lia.
  - destruct (Ascii.eqb_spec a ":"); [|reflexivity].
    subst a. change (code ":") with 58 in Hb. lia.
Qed.

Lemma allS_impl (p q : ascii -> bool) (s : string) :
  (forall a, p a = true -> q a = true) -> allS p s = true -> allS q s = true.
Proof.
  intros Hpq. induction s as [|a s IH]; simpl; [reflexivity|].
  intros [Ha Hs]%andb_true_iff. now rewrite (Hpq a Ha), IH.
Qed.

Lemma spanS_spec (p : ascii -> bool) (s l t : string) :
  spanS p s = (l, t) -> s = l +:+ t /\ allS p l = true.
Proof.
  revert l t. induction s as [|a s IH]; intros l t; simpl.
  - intros [= <- <-]. auto.
  - destruct (p a) eqn:Ea.
    + destruct (spanS p s) as [l0 t0]. intros [= <- <-].
      destruct (IH l0 t0 eq_refl) as [-> Hl]. simpl. now rewrite Ea, Hl.
    + intros [= <- <-]. auto.
Qed.

Lemma spanS_all (p : ascii -> bool) (s : string) :
  allS p s = true -> spanS p s = (s, EmptyString).
Proof.
  induction s as [|a s IH]; simpl; [reflexivity|].
  intros [Ha Hs]%andb_true_iff. now rewrite Ha, IH.
Qed.

(** The text of a reference is made of letters and digits. *)
Lemma isRef_plain (s : string) : isRef s = true -> allS plain s = true /\ s <> EmptyString.
Proof.
  unfold isRef, matchA1. destruct (spanS isLetter s) as [l d] eqn:E.
  apply spanS_spec in E as [-> Hl].
  destruct (nonEmpty l) eqn:Nl; [|discriminate].
  destruct (nonEmpty d) eqn:Nd; [|discriminate].
  destruct (allS isDigit d) eqn:Hd; [|discriminate]. intros _. split.
  - rewrite CodecFacts.allS_append. apply andb_true_iff. split.
    + eapply allS_impl; [|exact Hl]. intros a Ha. unfold plain. now rewrite Ha.
    + eapply allS_impl; [|exact Hd]. intros a Ha. unfold plain. rewrite Ha. apply orb_true_r.
  - destruct l; [discriminate | discriminate].
Qed.

Lemma trim_plain (s : string) : allS plain s = true -> trim s = s.
Proof.
  intros H. unfold trim.
  assert (Hs : trimStart s = s).
  { destruct s as [|a s]; [reflexivity|]. simpl in *.
    apply andb_true_iff in H as [Ha _]. now rewrite (proj1 (plain_char a Ha)). }
  rewrite Hs. clear Hs. induction s as [|a s IH]; [reflexivity|]. simpl in *.
  apply andb_true_iff in H as [Ha Hs]. rewrite (IH Hs).
  destruct s; [now rewrite (proj1 (plain_char a Ha)) | reflexivity].
Qed.

Lemma matchRange_plain (s : string) : allS plain s = true -> matchRange s = None.
Proof.
  intros H. unfold matchRange. rewrite spanS_all; [reflexivity|].
  eapply allS_impl; [|exact H]. intros a Ha.
  now rewrite (proj2 (proj2 (plain_char a Ha))).
Qed.

Lemma split_plain (s rest : string) :
  allS plain s = true ->
  split "," (s +:+ String "," rest) = s :: split "," rest.
Proof.
  induction s as [|a s IH]; simpl; [reflexivity|].
  intros [Ha Hs]%andb_true_iff. rewrite (proj1 (proj2 (plain_char a Ha))).
  now rewrite (IH Hs).
Qed.

Section WithHost.
Context {host : JsHost}.

(** Storing a value in a cell object that is there. *)
Lemma store_step nm (r c : nat) v st f :
  Holds (wb st) nm r c f ->
  exists st',
    liftWb (setValueOf nm (Z.of_nat r) (Z.of_nat c) v) st = (st', Ret tt) /\
    seen st' = seen st /\ Shows (wb st') nm r c v /\ wbGrows (wb st) (wb st').
Proof.
  intros (s & cell & Hs & Hc & Hf). unfold liftWb.
  rewrite (setValueOf_Some _ _ _ _ _ _ Hs), !Nat2Z.id, Hc.
  eexists. split; [reflexivity|]. split; [reflexivity|]. split.
  - eexists _, _. simpl. split; [apply (sheets_setRows _ _ _ _ Hs)|].
    simpl. split; [apply (cellOf_stamp_eq _ _ _ _ _ Hc) | reflexivity].
  - simpl. eapply wbGrows_setRows; [exact Hs | apply grows_stamp].
Qed.

Lemma finish_step nm (r c : nat) expr st f :
  Holds (wb st) nm r c f ->
  exists st',
    finishCell nm (Z.of_nat r) (Z.of_nat c) expr st = (st', Ret (finishValue expr)) /\
    seen st' = seen st /\ Shows (wb st') nm r c (finishValue expr) /\
    wbGrows (wb st) (wb st').
Proof.
  intros H. unfold finishCell, finishValue.
  destruct (includes "#REF!" expr || includes "#ERROR!" expr).
  - destruct (store_step nm r c
                (VStr (if includes "#REF!" expr then "#REF!" else "#ERROR!")) st f H)
      as (st' & E & S1 & S2 & S3).
    exists st'. rewrite (bind_Ret _ _ _ _ _ E). auto.
  - match goal with |- context [setValueOf _ _ _ ?v] =>
      destruct (store_step nm r c v st f H) as (st' & E & S1 & S2 & S3) end.
    exists st'. rewrite (bind_Ret _ _ _ _ _ E). auto.
Qed.

Section Helpers.
Variable ev : string -> Z -> Z -> M EvalState Val.

(** The fetch of the cell, in a state that has the sheet. *)
Lemma fetch_step nm (r c : nat) st f :
  Holds (wb st) nm r c f ->
  exists w' cell,
    liftWb (getCell nm (Z.of_nat r) (Z.of_nat c)) st
      = (mkEvalState w' (seen st), Ret (Some cell)) /\
    formula cell = f /\ wbGrows (wb st) w' /\
    Holds w' nm r c f.
Proof.
  intros (s & cell & Hs & Hc & Hf). unfold liftWb.
  rewrite (getCell_Some _ _ _ _ _ Hs) by lia. rewrite !Nat2Z.id.
  rewrite (cellOf_ensureRows_old _ _ _ _ _ _ Hc).
  eexists _, cell. split; [reflexivity|]. split; [exact Hf|]. split.
  - eapply wbGrows_setRows; [exact Hs | apply grows_ensureRows].
  - eexists _, cell. simpl. split; [apply (sheets_setRows _ _ _ _ Hs)|].
    simpl. split; [now apply cellOf_ensureRows_old | exact Hf].
Qed.

(** A cell whose key is in [seen]: the sentinel is stored and returned. *)
Lemma visited_step nm (r c : nat) st f :
  Holds (wb st) nm r c f ->
  cellKey nm (Z.of_nat r) (Z.of_nat c) ∈ seen st ->
  exists st',
    evaluateCellBody ev nm (Z.of_nat r) (Z.of_nat c) st = (st', Ret (VStr "#REF!")) /\
    seen st' = seen st /\ Shows (wb st') nm r c (VStr "#REF!") /\
    wbGrows (wb st) (wb st').
Proof.
  intros H Hin. rewrite body_unfold, bool_decide_true by exact Hin.
  destruct (fetch_step nm r c st f H) as (w1 & cell & E1 & _ & G1 & H1).
  rewrite (bind_Ret _ _ _ _ _ E1).
  destruct (store_step nm r c (VStr "#REF!") (mkEvalState w1 (seen st)) f H1)
    as (st' & E2 & S1 & S2 & G2).
  exists st'. rewrite (bind_Ret _ _ _ _ _ E2).
  split; [reflexivity|]. split; [exact S1|]. split; [exact S2|].
  eapply wbGrows_trans; eauto.
Qed.

(** A cell with a live formula whose key is not in [seen]: the key is
    added, the grid padded, and the text after [=] goes through the two
    replacements and [finishCell]. *)
Lemma live_step nm (r c : nat) st text :
  Holds (wb st) nm r c (Some text) ->
  cellKey nm (Z.of_nat r) (Z.of_nat c) ∉ seen st ->
  startsWith "=" (trim text) = true ->
  exists w1,
    evaluateCellBody ev nm (Z.of_nat r) (Z.of_nat c) st
    = (let* e1 := replaceSums ev (String.length (slice1 (trim text))) nm
                    (slice1 (trim text)) in
       let* e2 := replaceRefs ev nm EmptyString e1 in
       finishCell nm (Z.of_nat r) (Z.of_nat c) e2)
        (mkEvalState w1 ({[cellKey nm (Z.of_nat r) (Z.of_nat c)]} ∪ seen st)) /\
    wbGrows (wb st) w1 /\ Holds w1 nm r c (Some text).
Proof.
  intros H Hnot Hlive. rewrite body_unfold, bool_decide_false by exact Hnot.
  destruct (fetch_step nm r c
              (mkEvalState (wb st) ({[cellKey nm (Z.of_nat r) (Z.of_nat c)]} ∪ seen st))
              _ H) as (w1 & cell & E1 & Hf & G1 & H1).
  exists w1. rewrite (bind_Ret _ _ _ _ _ E1). split; [|split; assumption].
  unfold afterCell. rewrite Hf.
  destruct text as [|a t]; [discriminate|]. now rewrite Hlive.
Qed.

End Helpers.

Lemma evaluateCell_S (k : nat) nm r c st :
  evaluateCell (S k) nm r c st = evaluateCellBody (evaluateCell k) nm r c st.
Proof. reflexivity. Qed.

(** *** C4: a cell that refers to itself, and a cell that refers to it *)

Lemma sums_of_A1 (ev : string -> Z -> Z -> M EvalState Val) nm st :
  replaceSums ev (String.length (slice1 (trim "=A1"))) nm (slice1 (trim "=A1")) st
  = (st, Ret "A1").
Proof. reflexivity. Qed.

Lemma sums_of_A1_plus_10 (ev : string -> Z -> Z -> M EvalState Val) nm st :
  replaceSums ev (String.length (slice1 (trim "=A1+10"))) nm (slice1 (trim "=A1+10")) st
  = (st, Ret "A1+10").
Proof. reflexivity. Qed.

Lemma evalRef_A1 (ev : string -> Z -> Z -> M EvalState Val) nm st st' s :
  ev nm 0 0 st = (st', Ret (VStr s)) ->
  evalRef ev nm "A1" st = (st', Ret (IsStr s)).
Proof.
  intros H. change (evalRef ev nm "A1") with
    (let* v := ev nm 0 0 in
     match v with
     | VStr s => ret (IsStr s)
     | VNum n => ret (IsNum n)
     | VNull => ret (IsNum 0%float)
     | VUndef =>
         let n := numberOf v in ret (IsNum (if is_nan n then 0%float else n))
     end).
  now rewrite (bind_Ret _ _ _ _ _ H).
Qed.

Lemma refs_of_A1 (ev : string -> Z -> Z -> M EvalState Val) nm st st' s :
  ev nm 0 0 st = (st', Ret (VStr s)) ->
  replaceRefs ev nm EmptyString "A1" st = (st', Ret s).
Proof.
  intros H. change (replaceRefs ev nm EmptyString "A1") with
    (let* refResult := evalRef ev nm "A1" in ret (stringOf refResult)).
  now rewrite (bind_Ret _ _ _ _ _ (evalRef_A1 ev nm st st' s H)).
Qed.

Lemma refs_of_A1_plus_10 (ev : string -> Z -> Z -> M EvalState Val) nm st st' s :
  ev nm 0 0 st = (st', Ret (VStr s)) ->
  replaceRefs ev nm EmptyString "A1+10" st = (st', Ret (s +:+ "+10")).
Proof.
  intros H. change (replaceRefs ev nm EmptyString "A1+10") with
    (let* x := (let* refResult := evalRef ev nm "A1" in ret (stringOf refResult)) in
     let* rest := ret "10" in
     ret (x +:+ String "+" rest)).
  assert (Hword : (let* refResult := evalRef ev nm "A1" in ret (stringOf refResult)) st
                  = (st', Ret s))
    by now rewrite (bind_Ret _ _ _ _ _ (evalRef_A1 ev nm st st' s H)).
  now rewrite (bind_Ret _ _ _ _ _ Hword).
Qed.

Lemma cellKey_columns nm : cellKey nm 0 0 <> cellKey nm 0 1.
Proof.
  unfold cellKey. intros H. apply (inj (String.append nm)) in H. discriminate.
Qed.

(** The cell A1 with the formula [=A1]: the second visit, through the
    reference, finds the key in [seen]. *)
Lemma self_reference (k : nat) nm st :
  Holds (wb st) nm 0 0 (Some "=A1") ->
  cellKey nm 0 0 ∉ seen st ->
  exists st',
    evaluateCell (S (S k)) nm 0 0 st = (st', Ret (VStr "#REF!")) /\
    Shows (wb st') nm 0 0 (VStr "#REF!") /\
    wbGrows (wb st) (wb st').
Proof.
  intros H Hnot. rewrite evaluateCell_S.
  destruct (live_step (evaluateCell (S k)) nm 0 0 st "=A1" H Hnot eq_refl)
    as (w1 & E & G1 & H1).
  change (Z.of_nat 0) with 0 in E. rewrite E. clear E.
  rewrite (bind_Ret _ _ _ _ _ (sums_of_A1 _ nm _)).
  destruct (visited_step (evaluateCell k) nm 0 0
              (mkEvalState w1 ({[cellKey nm 0 0]} ∪ seen st)) _ H1)
    as (st2 & E2 & S2 & V2 & G2); [set_solver|].
  change (Z.of_nat 0) with 0 in E2. rewrite <- evaluateCell_S in E2.
  rewrite (bind_Ret _ _ _ _ _ (refs_of_A1 (evaluateCell (S k)) nm _ _ _ E2)).
  assert (H2 : Holds (wb st2) nm 0 0 (Some "=A1")) by (eapply Holds_grows; eauto).
  destruct (finish_step nm 0 0 "#REF!" st2 _ H2) as (st3 & E3 & S3 & V3 & G3).
  exists st3. split; [exact E3|]. split; [exact V3|].
  eapply wbGrows_trans; [exact G1|]. eapply wbGrows_trans; eauto.
Qed.

(** The cell B1 with [=A1+10], A1 being as above: the sentinel that the
    reference gives stands in the text, and is what B1 gets. *)
Lemma dependent_of_self_reference (k : nat) nm st :
  Holds (wb st) nm 0 0 (Some "=A1") ->
  Holds (wb st) nm 0 1 (Some "=A1+10") ->
  cellKey nm 0 0 ∉ seen st ->
  cellKey nm 0 1 ∉ seen st ->
  exists st',
    evaluateCell (S (S (S k))) nm 0 1 st = (st', Ret (VStr "#REF!")) /\
    Shows (wb st') nm 0 1 (VStr "#REF!").
Proof.
  intros HA HB HnA HnB. rewrite evaluateCell_S.
  destruct (live_step (evaluateCell (S (S k))) nm 0 1 st "=A1+10" HB HnB eq_refl)
    as (w1 & E & G1 & H1).
  change (Z.of_nat 0) with 0 in E. change (Z.of_nat 1) with 1 in E. rewrite E. clear E.
  rewrite (bind_Ret _ _ _ _ _ (sums_of_A1_plus_10 _ nm _)).
  destruct (self_reference k nm (mkEvalState w1 ({[cellKey nm 0 1]} ∪ seen st)))
    as (st2 & E2 & V2 & G2).
  { eapply Holds_grows; eauto. }
  { simpl. intros [Hin|Hin]%elem_of_union; [|contradiction].
    apply elem_of_singleton in Hin. now apply (cellKey_columns nm). }
  rewrite (bind_Ret _ _ _ _ _ (refs_of_A1_plus_10 (evaluateCell (S (S k))) nm _ _ _ E2)).
  assert (H2 : Holds (wb st2) nm 0 1 (Some "=A1+10")) by (eapply Holds_grows; eauto).
  destruct (finish_step nm 0 1 ("#REF!" +:+ "+10") st2 _ H2) as (st3 & E3 & S3 & V3 & G3).
  exists st3. split; [exact E3 | exact V3].
Qed.

(** C4. In a workbook whose cell A1 holds the formula [=A1] and whose
    cell B1, on the same sheet, holds [=A1+10], the evaluation of A1
    returns the sentinel ["#REF!"] and stores it as the value of A1; the
    evaluation of B1 that follows returns ["#REF!"] too, as a value and
    not as the text ["#REF!+10"], and stores it as the value of B1. No
    exception is thrown. *)
Theorem cycle_sentinel_propagates (k : nat) (w : Workbook) (nm : string) :
  Holds w nm 0 0 (Some "=A1") ->
  Holds w nm 0 1 (Some "=A1+10") ->
  exists w1 w2,
    evaluateFresh (S (S k)) nm 0 0 w = (w1, Ret (VStr "#REF!")) /\
    Shows w1 nm 0 0 (VStr "#REF!") /\
    evaluateFresh (S (S (S k))) nm 0 1 w1 = (w2, Ret (VStr "#REF!")) /\
    Shows w2 nm 0 1 (VStr "#REF!").
Proof.
  intros HA HB.
  destruct (self_reference k nm (mkEvalState w ∅) HA) as (st1 & E1 & V1 & G1);
    [set_solver|].
  destruct (dependent_of_self_reference k nm (mkEvalState (wb st1) ∅))
    as (st2 & E2 & V2); try set_solver.
  { eapply Holds_grows; eauto. }
  { eapply Holds_grows; eauto. }
  exists (wb st1), (wb st2). unfold evaluateFresh. rewrite E1, E2. auto.
Qed.

(** *** A reference as a term of an aggregation *)

Lemma sumTerm_ref (ev : string -> Z -> Z -> M EvalState Val) nm ref st :
  isRef ref = true -> sumTerm ev nm ref st = evalRef ev nm ref st.
Proof.
  intros H. destruct (isRef_plain ref H) as [Hp _]. unfold sumTerm.
  now rewrite (trim_plain ref Hp), (matchRange_plain ref Hp), H.
Qed.

(** *** C6: what the run of the text leaves in the cell *)

(** C6, as the engine has it. For a cell with a live formula that was not
    visited, once the two replacements have returned a text without a
    sentinel, the evaluation returns, without an exception, the value
    [resultOf] of the run of that text and stores it in the cell:
    ["#ERROR!"] when the run throws, the number itself when the run gives
    a number, finite or not. *)
Theorem arithmetic_result_is_stored
    (fuel : nat) (nm text e1 e2 : string) (r c : nat) (s : Sheet) (cell : Cell)
    (st st2 st3 : EvalState) :
  JsMap.get nm (sheets (wb st)) = Some s ->
  cellOf (rows s) r c = Some cell ->
  formula cell = Some text ->
  cellKey nm (Z.of_nat r) (Z.of_nat c) ∉ seen st ->
  startsWith "=" (trim text) = true ->
  replaceSums (evaluateCell fuel) (String.length (slice1 (trim text))) nm
    (slice1 (trim text))
    (mkEvalState (setRows nm (ensureRows (S r) (S c) (rows s)) (wb st))
       ({[cellKey nm (Z.of_nat r) (Z.of_nat c)]} ∪ seen st)) = (st2, Ret e1) ->
  replaceRefs (evaluateCell fuel) nm EmptyString e1 st2 = (st3, Ret e2) ->
  includes "#REF!" e2 = false ->
  includes "#ERROR!" e2 = false ->
  exists st4,
    evaluateCell (S fuel) nm (Z.of_nat r) (Z.of_nat c) st
      = (st4, Ret (resultOf (runFunction e2))) /\
    Shows (wb st4) nm r c (resultOf (runFunction e2)) /\
    (runFunction e2 = Threw -> resultOf (runFunction e2) = VStr "#ERROR!") /\
    (forall n, runFunction e2 = GaveNumber n -> resultOf (runFunction e2) = VNum n).
Proof.
  intros Hs Hc Hf Hnot Hlive Hsums Hrefs Hno1 Hno2.
  rewrite evaluateCell_S, body_unfold, bool_decide_false by exact Hnot.
  unfold liftWb at 1. unfold bind at 1. cbn [wb seen].
  rewrite (getCell_Some _ _ _ _ _ Hs) by lia.
  replace (Z.to_nat (Z.of_nat r + 1)) with (S r) by lia.
  replace (Z.to_nat (Z.of_nat c + 1)) with (S c) by lia.
  rewrite !Nat2Z.id, (cellOf_ensureRows_old _ _ _ _ _ _ Hc).
  unfold afterCell. rewrite Hf.
  destruct text as [|a t]; [discriminate|]. rewrite Hlive. cbn [negb].
  rewrite (bind_Ret _ _ _ _ _ Hsums), (bind_Ret _ _ _ _ _ Hrefs).
  assert (G2 : wbGrows (wb st2) (wb st3)).
  { pose proof (mono_replaceRefs (evaluateCell fuel) (mono_evaluateCell fuel)
                  nm e1 EmptyString st2) as G. rewrite Hrefs in G. exact G. }
  assert (G1 : wbGrows (setRows nm (ensureRows (S r) (S c) (rows s)) (wb st)) (wb st2)).
  { match type of Hsums with _ _ _ _ ?x = _ =>
      pose proof (mono_replaceSums (evaluateCell fuel) (mono_evaluateCell fuel)
                    (String.length (slice1 (trim (String a t)))) nm
                    (slice1 (trim (String a t))) x) as G end.
    rewrite Hsums in G. exact G. }
  assert (H3 : Holds (wb st3) nm r c (Some (String a t))).
  { eapply Holds_grows; [exact G2|]. eapply Holds_grows; [exact G1|].
    exists (mkSheet (name s) (ensureRows (S r) (S c) (rows s))), cell.
    split; [apply (sheets_setRows _ _ _ _ Hs)|].
    split; [now apply cellOf_ensureRows_old | exact Hf]. }
  destruct (finish_step nm r c e2 st3 _ H3) as (st4 & E4 & _ & V4 & _).
  unfold finishValue in E4, V4. rewrite Hno1, Hno2 in E4, V4. cbn [orb] in E4, V4.
  exists st4. split; [exact E4|]. split; [exact V4|]. split.
  - now intros ->.
  - now intros n ->.
Qed.

(** *** C9: the import of a workbook without sheets *)

(** C9. The import of an empty list of sheets leaves, whatever the
    workbook was, exactly one sheet, the default [Sheet1] without rows, an
    empty event log, and exactly one checkpoint, [import], taken at
    position 0 of the log. *)
Theorem import_without_sheets (fuel : nat) (w : Workbook) :
  loadFromJSON fuel [] w
  = (mkWorkbook (wbId w) [("Sheet1", mkSheet "Sheet1" [])]
       [mkCheckpoint (Some "import") 0] [], Ret tt).
Proof. destruct fuel; reflexivity. Qed.

(** For every host, the argument list is cut at its commas before a
    term is read, so ["1,000"] is the two terms ["1"] and ["000"], and the
    [replace] of the commas in [sumTerm] finds none. *)
Lemma thousands_separator_splits (ev : string -> Z -> Z -> M EvalState Val) nm st :
  let known n := if isFinite n then n else 0%float in
  sumArgs ev nm "1,000" st
  = (st, Ret (IsNum (0 + known (toNumber "1") + known (toNumber "000"))%float)).
Proof. reflexivity. Qed.

End WithHost.

(** C7 at its failing input, on the sample host, where [Number("1")] is
    1 and [Number("000")] is 0 as in JavaScript: the arguments ["1,000"]
    sum to 1, not 1000, and a cell that holds [=SUM(1,000)] gets the
    value 1; [sumTerm], were it given the whole literal, would read 1000. *)
Lemma thousands_separator_sum (ev : string -> Z -> Z -> M EvalState Val) nm st :
  sumArgs (host := SampleHost.host) ev nm "1,000" st = (st, Ret (IsNum 1%float)) /\
  sumTerm (host := SampleHost.host) ev nm "1,000" st = (st, Ret (IsNum 1000%float)) /\
  (evaluateFresh (host := SampleHost.host) 1 "Sheet1" 0 0 Samples.thousand).2
    = Ret (VNum 1%float) /\
  Samples.valueAt
    (evaluateFresh (host := SampleHost.host) 1 "Sheet1" 0 0 Samples.thousand).1
    "Sheet1" 0 0 = Some (VNum 1%float).
Proof.
  split; [reflexivity|]. split; [reflexivity|].
  split; vm_compute; reflexivity.
Qed.

(** Against C6 as the specification states it: the run of ["1/0"] gives
    Infinity, which is a number and is stored as it is. *)
Lemma division_by_zero_is_stored :
  (evaluateFresh (host := SampleHost.host) 1 "Sheet1" 0 0 Samples.divided).2
    = Ret (VNum infinity) /\
  Samples.valueAt
    (evaluateFresh (host := SampleHost.host) 1 "Sheet1" 0 0 Samples.divided).1
    "Sheet1" 0 0 = Some (VNum infinity) /\
  isFinite infinity = false /\
  VNum infinity <> VStr "#ERROR!".
Proof. repeat split; try (vm_compute; reflexivity). discriminate. Qed.

Lemma cycle_sentinel_propagates_witness :
  exists w1 w2,
    evaluateFresh (host := SampleHost.host) 2 "Sheet1" 0 0 Samples.cyclic
      = (w1, Ret (VStr "#REF!")) /\
    Shows w1 "Sheet1" 0 0 (VStr "#REF!") /\
    evaluateFresh (host := SampleHost.host) 3 "Sheet1" 0 1 w1
      = (w2, Ret (VStr "#REF!")) /\
    Shows w2 "Sheet1" 0 1 (VStr "#REF!").
Proof.
  apply (cycle_sentinel_propagates (host := SampleHost.host) 0 Samples.cyclic "Sheet1").
  - eexists _, _. split; [reflexivity|]. split; reflexivity.
  - eexists _, _. split; [reflexivity|]. split; reflexivity.
Defined.

Lemma arithmetic_result_is_stored_witness :
  exists st4,
    evaluateCell (host := SampleHost.host) 1 "Sheet1" 0 0 (mkEvalState Samples.malformed ∅)
      = (st4, Ret (VStr "#ERROR!")) /\
    Shows (wb st4) "Sheet1" 0 0 (VStr "#ERROR!") /\
    (runFunction (JsHost := SampleHost.host) "1+/2" = Threw ->
     resultOf (runFunction (JsHost := SampleHost.host) "1+/2") = VStr "#ERROR!") /\
    (forall n, runFunction (JsHost := SampleHost.host) "1+/2" = GaveNumber n ->
     resultOf (runFunction (JsHost := SampleHost.host) "1+/2") = VNum n).
Proof.
  apply (arithmetic_result_is_stored (host := SampleHost.host) 0 "Sheet1" "=1+/2"
           "1+/2" "1+/2" 0 0
           (mkSheet "Sheet1" [[Some (mkCell VNull (Some "=1+/2") None None)]])
           (mkCell VNull (Some "=1+/2") None None)
           (mkEvalState Samples.malformed ∅)
           (mkEvalState
              (setRows "Sheet1"
                 (ensureRows 1 1 [[Some (mkCell VNull (Some "=1+/2") None None)]])
                 Samples.malformed)
              ({[cellKey "Sheet1" 0 0]} ∪ ∅))
           (mkEvalState
              (setRows "Sheet1"
                 (ensureRows 1 1 [[Some (mkCell VNull (Some "=1+/2") None None)]])
                 Samples.malformed)
              ({[cellKey "Sheet1" 0 0]} ∪ ∅)));
    try reflexivity.
  simpl. set_solver.
Defined.

End EvalFacts.

(** ** Aggregations *)

Module AggregationFacts.
Import Text Codec Engine Evaluator Predicates EngineFacts EvalFacts.

Section WithHost.
Context {host : JsHost}.

Lemma collect_app {S A B} (f : A -> M S B) (l l' : list A) (s : S) :
  collect (l ++ l') f s
  = (let* ys := collect l f in let* ys' := collect l' f in ret (ys ++ ys')) s.
Proof.
  revert s. induction l as [|x l IH]; intros s; simpl.
  - unfold bind, ret. now destruct (collect l' f s) as [s' [ys| |]].
  - unfold bind. destruct (f x s) as [s1 [y| |]]; [|reflexivity..].
    rewrite IH. unfold bind, ret.
    destruct (collect l f s1) as [s2 [ys| |]]; [|reflexivity..].
    now destruct (collect l' f s2) as [s3 [ys'| |]].
Qed.

(** The additions of a range: a value that does not count adds nothing. *)
Lemma fold_addCell (vs : list Val) :
  forall total,
    fold_left addCell vs total
    = fold_left (fun t v => (t + numberOf v)%float) (List.filter counts vs) total.
Proof.
  induction vs as [|v vs IH]; intros total; simpl; [reflexivity|].
  rewrite IH. unfold addCell, counts.
  replace (match v with VNum x => x | _ => numberOf v end) with (numberOf v)
    by now destruct v.
  now destruct (is_nan (numberOf v)).
Qed.

(** The loop over the columns of a row of a range: the visit of its
    places, then the additions. *)
Lemma columns_visit (ev : string -> Z -> Z -> M EvalState Val) nm r (cols : list Z) :
  forall total st,
    foldM (fun total c => let* v := ev nm r c in ret (addCell total v)) cols total st
    = (let* vs := visit ev nm (map (fun c => (r, c)) cols) in
       ret (fold_left addCell vs total)) st.
Proof.
  unfold visit. induction cols as [|c cols IH]; intros total st; simpl; [reflexivity|].
  unfold bind. destruct (ev nm r c st) as [st1 [v| |]]; [|reflexivity..].
  unfold ret at 1. rewrite IH. unfold bind, ret.
  now destruct (collect _ _ st1) as [st2 [vs| |]].
Qed.

(** The two loops of a range. *)
Lemma rows_visit (ev : string -> Z -> Z -> M EvalState Val) nm (cols rws : list Z) :
  forall total st,
    foldM (fun total r =>
             foldM (fun total c => let* v := ev nm r c in ret (addCell total v)) cols total)
      rws total st
    = (let* vs := visit ev nm (flat_map (fun r => map (fun c => (r, c)) cols) rws) in
       ret (fold_left addCell vs total)) st.
Proof.
  induction rws as [|r rws IH]; intros total st; simpl; [reflexivity|].
  unfold visit. unfold bind at 1. rewrite columns_visit.
  unfold visit. unfold bind at 3. rewrite collect_app.
  unfold bind, ret.
  destruct (collect _ _ st) as [st1 [vs| |]]; [|reflexivity..].
  rewrite IH. unfold visit, bind, ret.
  destruct (collect _ _ st1) as [st2 [vs'| |]]; [|reflexivity..].
  now rewrite fold_left_app.
Qed.

(** A range term: the visit of the rectangle, then the sum. *)
Lemma sumTerm_range (ev : string -> Z -> Z -> M EvalState Val) nm range pa pb st :
  matchRange (trim range) = Some (pa, pb) ->
  exists a b,
    a1ToRc pa = Ret a /\ a1ToRc pb = Ret b /\
    sumTerm ev nm range st
    = (let* vs := visit ev nm (rectangle a b) in ret (IsNum (sumOf vs))) st.
Proof.
  intros Hm.
  assert (Hab : isRef pa = true /\ isRef pb = true).
  { unfold matchRange in Hm. destruct (spanS _ (trim range)) as [p q].
    destruct q as [|x q']; [discriminate|].
    destruct (isRef p) eqn:Ep; [|discriminate].
    destruct (isRef q') eqn:Eq; [|discriminate]. simpl in Hm. now injection Hm as <- <-. }
  destruct Hab as [Ha Hb]. unfold isRef in Ha, Hb.
  destruct (matchA1 pa) as [[a1 a2]|] eqn:Ea; [|discriminate].
  destruct (matchA1 pb) as [[b1 b2]|] eqn:Eb; [|discriminate].
  eexists (_, _), (_, _). split; [unfold a1ToRc; rewrite Ea; reflexivity|].
  split; [unfold a1ToRc; rewrite Eb; reflexivity|].
  unfold sumTerm, sumRange. rewrite Hm. unfold a1ToRc. rewrite Ea, Eb.
  unfold bind at 1. rewrite rows_visit. unfold rectangle, sumOf, bind, ret. simpl.
  destruct (visit _ _ _ st) as [st1 [vs| |]]; [|reflexivity..].
  now rewrite fold_addCell.
Qed.

Lemma sumOf_skips (vs vs' : list Val) (s : string) :
  is_nan (toNumber s) = true -> sumOf (vs ++ VStr s :: vs') = sumOf (vs ++ vs').
Proof.
  intros Hnan. unfold sumOf. rewrite !List.filter_app. simpl.
  unfold counts at 2. simpl. now rewrite Hnan.
Qed.

Lemma sumOf_null (vs : list Val) : sumOf (vs ++ [VNull]) = (sumOf vs + 0)%float.
Proof. unfold sumOf. now rewrite List.filter_app, fold_left_app. Qed.

(** C5. When the arguments of an aggregation are a cell reference, a
    comma and more arguments, and the evaluation of the reference gives a
    string (an error sentinel is one), the aggregation gives that string
    and leaves the state that the evaluation of the reference left: the
    workbook and the set of visited keys show no evaluation of a later
    argument. A range argument does what the visit of the cells of its
    rectangle does, row after row between the two corners, and ends as
    the visit ends; when the visit returns the values of the cells, the
    range returns a number, never a string: the sum of the values that
    count. A string that [Number] turns into NaN, as a sentinel is, does
    not count, wherever it stands in the range; [null] counts as 0. (A
    cell of the range whose evaluation throws, as one of the row number 0
    does, ends the visit and the range with that exception: it is not a
    value of the aggregation.) *)
Theorem aggregation_short_circuits
    (fuel : nat) (nm ref rest e : string) (st st' : EvalState) :
  isRef ref = true ->
  evalRef (evaluateCell fuel) nm ref st = (st', Ret (IsStr e)) ->
  sumArgs (evaluateCell fuel) nm (ref +:+ "," +:+ rest) st = (st', Ret (IsStr e)) /\
  (forall k range pa pb st0,
     matchRange (trim range) = Some (pa, pb) ->
     exists a b,
       a1ToRc pa = Ret a /\ a1ToRc pb = Ret b /\
       sumTerm (evaluateCell k) nm range st0
       = (let* vs := visit (evaluateCell k) nm (rectangle a b) in
          ret (IsNum (sumOf vs))) st0) /\
  (forall vs vs' s,
     is_nan (toNumber s) = true -> sumOf (vs ++ VStr s :: vs') = sumOf (vs ++ vs')) /\
  (forall vs, sumOf (vs ++ [VNull]) = (sumOf vs + 0)%float).
Proof.
  intros Href Hev. split; [|split; [|split]].
  - destruct (isRef_plain ref Href) as [Hp _]. unfold sumArgs.
    change (ref +:+ "," +:+ rest) with (ref +:+ String "," rest).
    rewrite (split_plain ref rest Hp). cbn [sumTerms].
    rewrite <- (sumTerm_ref (evaluateCell fuel) nm ref st Href) in Hev.
    now rewrite (bind_Ret _ _ _ _ _ Hev).
  - intros k range pa pb st0. apply sumTerm_range.
  - intros vs vs' s. apply sumOf_skips.
  - apply sumOf_null.
Qed.

End WithHost.

(** The aggregation of A1 and of a range when A1 holds a formula that
    fails, and the sum over a range whose cells hold the error value, 5
    and a text: 5. *)
Lemma aggregation_short_circuits_witness :
  sumArgs (host := SampleHost.host) (evaluateCell (host := SampleHost.host) 2)
    "Sheet1" ("A1" +:+ "," +:+ " B2:B4") (mkEvalState Samples.failing ∅)
  = ((evaluateCell (host := SampleHost.host) 2 "Sheet1" 0 0
        (mkEvalState Samples.failing ∅)).1, Ret (IsStr "#ERROR!")) /\
  (sumTerm (host := SampleHost.host) (evaluateCell (host := SampleHost.host) 1)
     "Sheet1" "A1:C1" (mkEvalState Samples.mixed ∅)).2 = Ret (IsNum 5%float).
Proof.
  assert (Hev : evalRef (host := SampleHost.host) (evaluateCell (host := SampleHost.host) 2)
                   "Sheet1" "A1" (mkEvalState Samples.failing ∅)
                 = ((evaluateCell (host := SampleHost.host) 2 "Sheet1" 0 0
                       (mkEvalState Samples.failing ∅)).1, Ret (IsStr "#ERROR!")))
    by reflexivity.
  destruct (aggregation_short_circuits (host := SampleHost.host) 2 "Sheet1" "A1" " B2:B4"
              "#ERROR!" _ _ eq_refl Hev) as (H1 & H2 & _).
  split; [exact H1|].
  destruct (H2 1%nat "A1:C1" "A1" "C1" (mkEvalState Samples.mixed ∅) eq_refl)
    as (a & b & Ha & Hb & ->).
  injection Ha as <-. injection Hb as <-. vm_compute. reflexivity.
Defined.

End AggregationFacts.

(** ** The address codec at its edges *)

Module CodecEdges.
Import Text Codec Predicates CodecFacts EvalFacts.

Ltac leb_cases :=
  repeat match goal with
         | |- context [(?a <=? ?b)] => destruct (Z.leb_spec a b)
         end;
  simpl; try reflexivity; try lia.

Lemma upper_cases (a : ascii) :
  (97 <= code a <= 122 /\ code (upper a) = code a - 32) \/
  (~ 97 <= code a <= 122 /\ upper a = a).
Proof.
  unfold upper. destruct (isLower a) eqn:E.
  - apply between_bounds in E. left. split; [exact E|]. apply code_chr. lia.
  - right. split; [|reflexivity]. intros H. unfold isLower, between in E.
    apply andb_false_iff in E as [E|E]; apply Z.leb_gt in E; lia.
Qed.

Lemma isLetter_upper (a : ascii) : isLetter (upper a) = isLetter a.
Proof.
  destruct (upper_cases a) as [[H E]|[_ ->]]; [|reflexivity].
  unfold isLetter, isUpper, isLower, between. rewrite E. leb_cases.
Qed.

Lemma isDigit_upper (a : ascii) : isDigit (upper a) = isDigit a.
Proof.
  destruct (upper_cases a) as [[H E]|[_ ->]]; [|reflexivity].
  unfold isDigit, between. rewrite E. leb_cases.
Qed.

Lemma isUpper_upper (a : ascii) : isLetter a = true -> isUpper (upper a) = true.
Proof.
  destruct (upper_cases a) as [[H E]|[H ->]].
  - intros _. unfold isUpper, between. rewrite E. leb_cases.
  - unfold isLetter, isUpper, isLower, between. leb_cases.
Qed.

Lemma upper_digit (a : ascii) : isDigit a = true -> upper a = a.
Proof.
  intros H. unfold upper. destruct (isLower a) eqn:E; [|reflexivity].
  apply between_bounds in H, E. lia.
Qed.

Lemma upper_upper (a : ascii) : upper (upper a) = upper a.
Proof.
  unfold upper at 1. destruct (isLower (upper a)) eqn:E; [|reflexivity].
  apply between_bounds in E.
  destruct (upper_cases a) as [[H E']|[H E']]; [lia|]. rewrite E' in E. lia.
Qed.

Lemma toUpperCase_twice (s : string) : toUpperCase (toUpperCase s) = toUpperCase s.
Proof. induction s as [|a s IH]; simpl; [reflexivity|]. now rewrite upper_upper, IH. Qed.

Lemma toUpperCase_digits (s : string) : allS isDigit s = true -> toUpperCase s = s.
Proof.
  induction s as [|a s IH]; simpl; [reflexivity|].
  intros [Ha Hs]%andb_true_iff. now rewrite (upper_digit a Ha), (IH Hs).
Qed.

Lemma allS_isDigit_upper (s : string) : allS isDigit (toUpperCase s) = allS isDigit s.
Proof. induction s as [|a s IH]; simpl; [reflexivity|]. now rewrite isDigit_upper, IH. Qed.

Lemma allS_isUpper_upper (s : string) :
  allS isLetter s = true -> allS isUpper (toUpperCase s) = true.
Proof.
  induction s as [|a s IH]; simpl; [reflexivity|].
  intros [Ha Hs]%andb_true_iff. now rewrite (isUpper_upper a Ha), (IH Hs).
Qed.

Lemma nonEmpty_upper (s : string) : nonEmpty (toUpperCase s) = nonEmpty s.
Proof. now destruct s. Qed.

Lemma spanS_upper (s : string) :
  spanS isLetter (toUpperCase s)
  = (toUpperCase (spanS isLetter s).1, toUpperCase (spanS isLetter s).2).
Proof.
  induction s as [|a s IH]; simpl; [reflexivity|].
  rewrite isLetter_upper. destruct (isLetter a).
  - rewrite IH. now destruct (spanS isLetter s).
  - reflexivity.
Qed.

(** The groups of an address, and what they are made of. *)
Lemma matchA1_Some (ref m1 m2 : string) :
  matchA1 ref = Some (m1, m2) ->
  ref = m1 +:+ m2 /\ allS isLetter m1 = true /\ nonEmpty m1 = true /\
  allS isDigit m2 = true /\ nonEmpty m2 = true.
Proof.
  unfold matchA1. destruct (spanS isLetter ref) as [l d] eqn:E.
  apply spanS_spec in E as [-> Hl].
  destruct (nonEmpty l) eqn:Nl; [|discriminate].
  destruct (nonEmpty d) eqn:Nd; [|discriminate].
  destruct (allS isDigit d) eqn:Hd; [|discriminate].
  intros [= <- <-]. auto.
Qed.

(** Decoding sees the address in upper case. *)
Lemma a1ToRc_upper (ref : string) :
  a1ToRc (toUpperCase ref)
  = match a1ToRc ref with
    | Ret rc => Ret rc
    | _ => Throw (BadA1Ref (toUpperCase ref))
    end.
Proof.
  unfold a1ToRc, matchA1. rewrite spanS_upper.
  destruct (spanS isLetter ref) as [l d]. simpl.
  rewrite !nonEmpty_upper, allS_isDigit_upper.
  destruct (nonEmpty l && nonEmpty d && allS isDigit d) eqn:E; [|reflexivity].
  apply andb_true_iff in E as [_ Hd].
  now rewrite toUpperCase_twice, (toUpperCase_digits d Hd).
Qed.

Lemma colValue_letters (s : string) :
  forall acc, 0 <= acc -> allS isUpper s = true ->
    acc <= colValue acc s /\ (nonEmpty s = true -> 1 <= colValue acc s).
Proof.
  induction s as [|a s IH]; intros acc Hacc Hs; simpl in *.
  - split; [lia | discriminate].
  - apply andb_true_iff in Hs as [Ha Hs]. apply between_bounds in Ha.
    destruct (IH (acc * 26 + (code a - 64)) ltac:(lia) Hs) as [H1 _]. lia.
Qed.

Lemma digitsValue_digits (s : string) :
  forall acc, 0 <= acc -> allS isDigit s = true -> 0 <= digitsValue acc s.
Proof.
  induction s as [|a s IH]; intros acc Hacc Hs; simpl in *; [exact Hacc|].
  apply andb_true_iff in Hs as [Ha Hs]. apply between_bounds in Ha.
  apply IH; [lia | exact Hs].
Qed.

Lemma a1ToRc_cases (ref : string) :
  match a1ToRc ref with
  | Ret (r, c) => -1 <= r /\ 0 <= c
  | Throw e => e = BadA1Ref ref
  | Diverge => False
  end.
Proof.
  unfold a1ToRc. destruct (matchA1 ref) as [[m1 m2]|] eqn:E; [|reflexivity].
  apply matchA1_Some in E as (_ & Hl & Nl & Hd & _).
  pose proof (colValue_letters (toUpperCase m1) 0 ltac:(lia) (allS_isUpper_upper m1 Hl))
    as [_ Hc].
  rewrite nonEmpty_upper in Hc. specialize (Hc Nl).
  pose proof (digitsValue_digits m2 0 ltac:(lia) Hd) as Hr.
  unfold parseInt. lia.
Qed.

(** X1. [a1ToRc] never gives a negative column, and no row below -1 (the
    row of the row number 0); when it throws, the error is the bad
    reference with the text it was given. *)
Theorem a1ToRc_outcomes (ref : string) :
  match a1ToRc ref with
  | Ret (r, c) => -1 <= r /\ 0 <= c
  | Throw e => e = BadA1Ref ref
  | Diverge => False
  end.
Proof. exact (a1ToRc_cases ref). Qed.

(** X2. Two addresses that differ only in the case of their letters decode
    to the same coordinates. *)
Theorem a1ToRc_ignores_case (ref ref' : string) (rc : Z * Z) :
  toUpperCase ref' = toUpperCase ref ->
  a1ToRc ref = Ret rc ->
  a1ToRc ref' = Ret rc.
Proof.
  intros Heq H. pose proof (a1ToRc_upper ref) as Hu. rewrite H, <- Heq in Hu.
  rewrite a1ToRc_upper in Hu. destruct (a1ToRc ref'); congruence.
Qed.

Lemma a1ToRc_ignores_case_witness : a1ToRc "ab12" = Ret (11, 27).
Proof. apply (a1ToRc_ignores_case "Ab12" "ab12" (11, 27)); reflexivity. Defined.

(** The round trip of [a1ToRc_rcToA1] reaches one row further down, to the
    row -1 that the row number 0 stands for. *)
Lemma a1ToRc_rcToA1_from_row_zero (r c : Z) :
  -1 <= r -> 0 <= c -> a1ToRc (rcToA1 r c) = Ret (r, c).
Proof.
  intros Hr Hc. unfold rcToA1.
  destruct (colLoop_letters (Z.to_nat (c + 1)) (c + 1) EmptyString ltac:(lia))
    as (l & El & Ul & Vl & Nl).
  assert (El' : colLoop (Z.to_nat (c + 1)) (c + 1) EmptyString = l).
  { rewrite El. clear. induction l; simpl; [reflexivity | now f_equal]. }
  rewrite El'. unfold ofInt.
  replace (r + 1 <? 0) with false by (symmetry; apply Z.ltb_ge; lia).
  destruct (digitsOf_digits (S (Z.to_nat (r + 1))) (r + 1) EmptyString ltac:(lia))
    as (d & Ed & Dd & Nd & Vd).
  assert (Ed' : digitsOf (S (Z.to_nat (r + 1))) (r + 1) EmptyString = d).
  { rewrite Ed. clear. induction d; simpl; [reflexivity | now f_equal]. }
  rewrite Ed'. unfold a1ToRc, matchA1.
  rewrite (spanS_letters l d Ul Dd Nd).
  rewrite (Nl ltac:(lia)), Nd, Dd. simpl.
  rewrite (toUpperCase_upper l Ul). unfold parseInt. rewrite Vl, Vd.
  do 2 f_equal; lia.
Qed.

(** X3. For coordinates that the engine computes with exactly ([r], [c],
    [r + 1] and [c + 1] are safe integers), encoding then
    decoding returns them exactly for the columns from 0 and the rows from
    -1 on: for a negative column, or a row below -1, the text that
    [rcToA1] gives does not decode to them. *)
Theorem round_trip_iff (r c : Z) :
  safeInteger r -> safeInteger (r + 1) -> safeInteger c -> safeInteger (c + 1) ->
  (a1ToRc (rcToA1 r c) = Ret (r, c) <-> -1 <= r /\ 0 <= c).
Proof.
  intros _ _ _ _. split.
  - intros H. pose proof (a1ToRc_cases (rcToA1 r c)) as Ho.
    now rewrite H in Ho.
  - intros [Hr Hc]. now apply a1ToRc_rcToA1_from_row_zero.
Qed.

Lemma round_trip_iff_witness :
  (a1ToRc (rcToA1 (-1) 27) = Ret (-1, 27) <-> -1 <= -1 /\ 0 <= 27) /\
  (a1ToRc (rcToA1 3 (-1)) = Ret (3, -1) <-> -1 <= 3 /\ 0 <= -1).
Proof.
  split.
  - apply (round_trip_iff (-1) 27); unfold safeInteger; simpl; lia.
  - apply (round_trip_iff 3 (-1)); unfold safeInteger; simpl; lia.
Defined.

(** X4. Two different cells of a sheet never share an address, as long as
    the numbers [r + 1] and [c + 1] that [rcToA1] computes are safe
    integers. *)
Theorem rcToA1_injective (r c r' c' : Z) :
  0 <= r -> 0 <= c -> 0 <= r' -> 0 <= c' ->
  safeInteger (r + 1) -> safeInteger (c + 1) ->
  safeInteger (r' + 1) -> safeInteger (c' + 1) ->
  (r, c) <> (r', c') -> rcToA1 r c <> rcToA1 r' c'.
Proof.
  intros Hr Hc Hr' Hc' _ _ _ _ Hne H. apply Hne.
  pose proof (a1ToRc_rcToA1_from_row_zero r c ltac:(lia) Hc) as E.
  rewrite H, (a1ToRc_rcToA1_from_row_zero r' c') in E by lia.
  now injection E as -> ->.
Qed.

Lemma rcToA1_injective_witness :
  rcToA1 0 25 <> rcToA1 0 26 /\ rcToA1 0 26 <> rcToA1 26 0.
Proof.
  split.
  - apply (rcToA1_injective 0 25 0 26); unfold safeInteger; simpl; solve [lia | discriminate].
  - apply (rcToA1_injective 0 26 26 0); unfold safeInteger; simpl; solve [lia | discriminate].
Defined.

End CodecEdges.

(** ** Sheets: creation, deletion and their undo *)

Module SheetFacts.
Import Text Codec Engine Evaluator Api Predicates EngineFacts JsMapFacts.

Lemma delete_set_absent {V} (k : string) (v : V) (m : JsMap.t V) :
  JsMap.get k m = None -> JsMap.delete k (JsMap.set k v m) = m.
Proof.
  induction m as [|[k' v'] m IH]; simpl.
  - now rewrite String.eqb_refl.
  - destruct (String.eqb k' k) eqn:E; [discriminate|]. simpl. rewrite E.
    intros H. now rewrite IH.
Qed.

Lemma set_absent {V} (k : string) (v : V) (m : JsMap.t V) :
  JsMap.get k m = None -> JsMap.set k v m = m ++ [(k, v)].
Proof.
  induction m as [|[k' v'] m IH]; simpl; [reflexivity|].
  destruct (String.eqb k' k); [discriminate|]. intros H. now rewrite IH.
Qed.

Lemma get_None_keys {V} (k : string) (m : JsMap.t V) :
  k ∉ map fst m -> JsMap.get k m = None.
Proof.
  induction m as [|[k' v'] m IH]; simpl; [reflexivity|].
  intros H. apply not_elem_of_cons in H as [Hne Hin].
  destruct (String.eqb_spec k' k); [congruence | now apply IH].
Qed.

Lemma get_delete_eq {V} (k : string) (m : JsMap.t V) :
  NoDup (map fst m) -> JsMap.get k (JsMap.delete k m) = None.
Proof.
  induction m as [|[k' v'] m IH]; simpl; [reflexivity|].
  intros [Hnot Hnd]%NoDup_cons. destruct (String.eqb_spec k' k) as [->|Hne].
  - now apply get_None_keys.
  - simpl. destruct (String.eqb_spec k' k); [congruence | now apply IH].
Qed.

Lemma get_delete_ne {V} (k k' : string) (m : JsMap.t V) :
  k' <> k -> JsMap.get k' (JsMap.delete k m) = JsMap.get k' m.
Proof.
  intros Hne. induction m as [|[k0 v0] m IH]; simpl; [reflexivity|].
  destruct (String.eqb_spec k0 k) as [->|H0].
  - destruct (String.eqb_spec k k'); [congruence | reflexivity].
  - simpl. now rewrite IH.
Qed.

(** X5. On a workbook that has no sheet [nm], [createSheet nm] returns
    and [undo] then deletes the sheet again: the map of sheets is what it
    was, in the same order, and the log is not: it holds one event more
    than before the creation, the [deleteSheet] that the replay logged. *)
Theorem createSheet_then_undo (w : Workbook) (nm : string) :
  JsMap.get nm (sheets w) = None ->
  exists w1,
    createSheet nm w = (w1, Ret tt) /\
    JsMap.get nm (sheets w1) = Some (mkSheet nm []) /\
    events w1 = events w ++ [mkEvent (OpCreateSheet nm) (OpDeleteSheet nm) ("create " +:+ nm)] /\
    undo w1
    = (mkWorkbook (wbId w) (sheets w) (checkpoints w)
         (events w ++ [mkEvent (OpDeleteSheet nm) (OpRestoreSheet (mkSheet nm []))
                         ("delete " +:+ nm)]),
       Ret (Some (mkEvent (OpCreateSheet nm) (OpDeleteSheet nm) ("create " +:+ nm)))).
Proof.
  intros Hnone. eexists. split; [|split; [|split]].
  - unfold createSheet, bind, get, JsMap.has. rewrite Hnone. reflexivity.
  - simpl. apply get_set_eq.
  - reflexivity.
  - unfold undo. cbn [events sheets checkpoints wbId].
    rewrite (bind_Ret _ _ _ _ _ (popEvent_snoc _ _ _ _ _)). cbn [inverse dispatch].
    unfold deleteSheet, bind, getSheet. cbn [sheets]. rewrite get_set_eq.
    simpl. now rewrite (delete_set_absent _ _ _ Hnone).
Qed.

Lemma createSheet_then_undo_witness :
  exists w1,
    createSheet "Data" Samples.fresh = (w1, Ret tt) /\
    JsMap.get "Data" (sheets w1) = Some (mkSheet "Data" []) /\
    events w1
    = events Samples.fresh
      ++ [mkEvent (OpCreateSheet "Data") (OpDeleteSheet "Data") ("create " +:+ "Data")] /\
    undo w1
    = (mkWorkbook (wbId Samples.fresh) (sheets Samples.fresh) (checkpoints Samples.fresh)
         (events Samples.fresh
          ++ [mkEvent (OpDeleteSheet "Data") (OpRestoreSheet (mkSheet "Data" []))
                ("delete " +:+ "Data")]),
       Ret (Some (mkEvent (OpCreateSheet "Data") (OpDeleteSheet "Data")
                    ("create " +:+ "Data")))).
Proof. apply (createSheet_then_undo Samples.fresh "Data"). reflexivity. Defined.

(** X6. On a workbook whose sheets have distinct keys, [deleteSheet] of a
    sheet stored under its own name, followed by [undo], puts the sheet
    object back, but at the end of the order of the map and not at the
    place it had; the other sheets are found as before, and the log holds
    one event more than before the deletion. *)
Theorem deleteSheet_then_undo (w : Workbook) (nm : string) (s : Sheet) :
  NoDup (map fst (sheets w)) ->
  JsMap.get nm (sheets w) = Some s ->
  name s = nm ->
  exists w1,
    deleteSheet nm w = (w1, Ret tt) /\
    JsMap.get nm (sheets w1) = None /\
    undo w1
    = (mkWorkbook (wbId w) (JsMap.delete nm (sheets w) ++ [(nm, s)]) (checkpoints w)
         (events w ++ [mkEvent (OpRestoreSheet s) (OpDeleteSheet nm) ("restore " +:+ nm)]),
       Ret (Some (mkEvent (OpDeleteSheet nm) (OpRestoreSheet s) ("delete " +:+ nm)))) /\
    JsMap.get nm (JsMap.delete nm (sheets w) ++ [(nm, s)]) = Some s /\
    forall nm', nm' <> nm ->
      JsMap.get nm' (JsMap.delete nm (sheets w) ++ [(nm, s)]) = JsMap.get nm' (sheets w).
Proof.
  intros Hnd Hs Hname.
  pose proof (get_delete_eq nm (sheets w) Hnd) as Hgone.
  pose proof (set_absent nm s _ Hgone) as Hset.
  eexists. split; [|split; [|split; [|split]]].
  - unfold deleteSheet. rewrite (bind_Ret _ _ _ _ _ (getSheet_Some _ _ _ Hs)). reflexivity.
  - exact Hgone.
  - unfold undo. cbn [events sheets checkpoints wbId].
    rewrite (bind_Ret _ _ _ _ _ (popEvent_snoc _ _ _ _ _)). cbn [inverse dispatch].
    unfold restoreSheet, bind. simpl. now rewrite Hname, Hset.
  - rewrite <- Hset. apply get_set_eq.
  - intros nm' Hne. rewrite <- Hset, get_set_ne by congruence.
    now apply get_delete_ne.
Qed.

Lemma deleteSheet_then_undo_witness :
  exists w1,
    deleteSheet "Sheet1" Samples.twoSheets = (w1, Ret tt) /\
    JsMap.get "Sheet1" (sheets w1) = None /\
    undo w1
    = (mkWorkbook (wbId Samples.twoSheets)
         (JsMap.delete "Sheet1" (sheets Samples.twoSheets)
          ++ [("Sheet1", mkSheet "Sheet1" [])])
         (checkpoints Samples.twoSheets)
         (events Samples.twoSheets
          ++ [mkEvent (OpRestoreSheet (mkSheet "Sheet1" [])) (OpDeleteSheet "Sheet1")
                ("restore " +:+ "Sheet1")]),
       Ret (Some (mkEvent (OpDeleteSheet "Sheet1") (OpRestoreSheet (mkSheet "Sheet1" []))
                    ("delete " +:+ "Sheet1")))) /\
    JsMap.get "Sheet1"
      (JsMap.delete "Sheet1" (sheets Samples.twoSheets) ++ [("Sheet1", mkSheet "Sheet1" [])])
    = Some (mkSheet "Sheet1" []) /\
    forall nm', nm' <> "Sheet1" ->
      JsMap.get nm'
        (JsMap.delete "Sheet1" (sheets Samples.twoSheets)
         ++ [("Sheet1", mkSheet "Sheet1" [])])
      = JsMap.get nm' (sheets Samples.twoSheets).
Proof.
  apply (deleteSheet_then_undo Samples.twoSheets "Sheet1" (mkSheet "Sheet1" []));
    [|reflexivity|reflexivity].
  apply NoDup_cons. split; [|apply NoDup_singleton].
  intros H. apply list_elem_of_singleton in H. discriminate.
Defined.

(** X7. An operation on a range whose sheet the workbook does not have
    throws the error of [getSheet] and changes nothing: no padding, no
    write, no event. So does the read of a provenance, once the address has
    been decoded. *)
Theorem missing_sheet_changes_nothing
    (w : Workbook) (range : RangeRef) (values : list (list Val))
    (prov : option (list CellProvenance)) (formulas : list (list (option string)))
    (fmt : option string) (cells : list (list Cell)) (links : list CellProvenance)
    (a1 : string) (rc : Z * Z) :
  JsMap.get (sheet range) (sheets w) = None ->
  a1ToRc a1 = Ret rc ->
  let gone := (w, @Throw unit (SheetNotFound (sheet range))) in
  setValues range values prov w = gone /\
  setFormulas range formulas w = gone /\
  formatRange range fmt w = gone /\
  setCells range cells w = gone /\
  linkProvenance range links w = gone /\
  getProvenance (sheet range) a1 w = (w, Throw (SheetNotFound (sheet range))).
Proof.
  intros Hnone Ha1 gone.
  assert (Hsnap : snapshot range w = (w, Throw (SheetNotFound (sheet range)))).
  { unfold snapshot. now rewrite (bind_Throw _ _ _ _ _ (getSheet_None _ _ Hnone)). }
  repeat split.
  - unfold setValues. now rewrite (bind_Throw _ _ _ _ _ Hsnap).
  - unfold setFormulas. now rewrite (bind_Throw _ _ _ _ _ Hsnap).
  - unfold formatRange. now rewrite (bind_Throw _ _ _ _ _ Hsnap).
  - unfold setCells. now rewrite (bind_Throw _ _ _ _ _ (getSheet_None _ _ Hnone)).
  - unfold linkProvenance. now rewrite (bind_Throw _ _ _ _ _ Hsnap).
  - unfold getProvenance. rewrite Ha1. destruct rc as [r c].
    unfold getCell, ensureSize. unfold bind at 1. unfold bind at 1.
    now rewrite (onRows_None _ _ _ Hnone).
Qed.

Lemma missing_sheet_changes_nothing_witness :
  let range := mkRange "Ghost" 0 0 0 0 in
  let gone := (Samples.fresh, @Throw unit (SheetNotFound "Ghost")) in
  setValues range [[VNum 1%float]] None Samples.fresh = gone /\
  setFormulas range [[Some "=1"]] Samples.fresh = gone /\
  formatRange range (Some "percent") Samples.fresh = gone /\
  setCells range [[defaultCell]] Samples.fresh = gone /\
  linkProvenance range ["p"] Samples.fresh = gone /\
  getProvenance "Ghost" "A1" Samples.fresh = (Samples.fresh, Throw (SheetNotFound "Ghost")).
Proof.
  apply (missing_sheet_changes_nothing Samples.fresh (mkRange "Ghost" 0 0 0 0)
           [[VNum 1%float]] None [[Some "=1"]] (Some "percent") [[defaultCell]] ["p"]
           "A1" (0, 0)); reflexivity.
Defined.

End SheetFacts.

(** ** What the operations on a range write *)

Module WriteFacts.
Import Text Codec Engine Predicates EngineFacts GridFacts UndoFacts JsMapFacts.

Section Puts.
Context {A : Type} (f : A -> Cell -> Cell).

Lemma readAt_putLine_below (line : list A) :
  forall (j c : nat) (row : Row), (c < j)%nat -> readAt (putLine f j line row) c = readAt row c.
Proof.
  induction line as [|x line IH]; intros j c row Hc; simpl; [reflexivity|].
  rewrite IH by lia. rewrite readAt_writeAt. destruct (decide (c = j)); [lia | reflexivity].
Qed.

Lemma readAt_putLine_above (line : list A) :
  forall (j c : nat) (row : Row),
    (j + length line <= c)%nat -> readAt (putLine f j line row) c = readAt row c.
Proof.
  induction line as [|x line IH]; intros j c row Hc; simpl in *; [reflexivity|].
  rewrite IH by lia. rewrite readAt_writeAt. destruct (decide (c = j)); [lia | reflexivity].
Qed.

Lemma readAt_putLine (line : list A) :
  forall (j c : nat) (row : Row) (x : A),
    (j <= c)%nat -> line !! (c - j)%nat = Some x ->
    readAt (putLine f j line row) c = Some (f x (orDefault (readAt row c))).
Proof.
  induction line as [|y line IH]; intros j c row x Hc Hx; simpl; [discriminate|].
  destruct (decide (c = j)) as [->|Hne].
  - rewrite readAt_putLine_below by lia. rewrite readAt_writeAt.
    replace (j - j)%nat with 0%nat in Hx by lia. simpl in Hx. injection Hx as ->.
    destruct (decide (j = j)); congruence.
  - rewrite (IH (S j) c _ x); [|lia|].
    + rewrite readAt_writeAt. destruct (decide (c = j)); [lia | reflexivity].
    + replace (c - j)%nat with (S (c - S j)) in Hx by lia. exact Hx.
Qed.

Lemma length_putGrid co (grid : list (list A)) :
  forall i rs, length (putGrid f co i grid rs) = length rs.
Proof.
  induction grid as [|line grid IH]; intros i rs; simpl; [reflexivity|].
  destruct (rs !! i); [|reflexivity]. now rewrite IH, length_insert.
Qed.

Lemma lookup_putGrid_out co (grid : list (list A)) :
  forall i r rs, (r < i \/ i + length grid <= r)%nat -> putGrid f co i grid rs !! r = rs !! r.
Proof.
  induction grid as [|line grid IH]; intros i r rs Hr; simpl in *; [reflexivity|].
  destruct (rs !! i); [|reflexivity]. rewrite IH by lia.
  apply list_lookup_insert_ne. lia.
Qed.

Lemma lookup_putGrid co (grid : list (list A)) :
  forall i r rs line row,
    (i <= r)%nat -> (i + length grid <= length rs)%nat ->
    grid !! (r - i)%nat = Some line -> rs !! r = Some row ->
    putGrid f co i grid rs !! r = Some (putLine f co line row).
Proof.
  induction grid as [|l0 grid IH]; intros i r rs line row Hr Hlen Hline Hrow;
    simpl in *; [discriminate|].
  destruct (rs !! i) as [row0|] eqn:Ei; [|apply lookup_ge_None_1 in Ei; lia].
  destruct (decide (r = i)) as [->|Hne].
  - rewrite lookup_putGrid_out by lia.
    replace (i - i)%nat with 0%nat in Hline by lia. simpl in Hline.
    rewrite list_lookup_insert_eq by lia. congruence.
  - apply IH; [lia | rewrite length_insert; lia | |].
    + replace (r - i)%nat with (S (r - S i)) in Hline by lia. exact Hline.
    + rewrite list_lookup_insert_ne by lia. exact Hrow.
Qed.

(** The cell at a place after the writes: made from the argument and the
    cell that was there at a place that the grid covers, the cell that was
    there elsewhere. *)
Lemma cellOf_putGrid_in co i0 (grid : list (list A)) rs i j line x :
  (i0 + length grid <= length rs)%nat ->
  grid !! i = Some line -> line !! j = Some x ->
  cellOf (putGrid f co i0 grid rs) (i0 + i) (co + j)
  = Some (f x (orDefault (cellOf rs (i0 + i) (co + j)))).
Proof.
  intros Hlen Hline Hx.
  pose proof (lookup_lt_Some _ _ _ Hline) as Hi.
  destruct (rs !! (i0 + i)%nat) as [row|] eqn:Erow;
    [|apply lookup_ge_None_1 in Erow; lia].
  unfold cellOf.
  rewrite (lookup_putGrid co grid i0 (i0 + i) rs line row), Erow; auto; try lia.
  - apply readAt_putLine; [lia|]. now replace (co + j - co)%nat with j by lia.
  - now replace (i0 + i - i0)%nat with i by lia.
Qed.

Lemma cellOf_putGrid_out co i0 (grid : list (list A)) rs r c :
  (i0 + length grid <= length rs)%nat ->
  covers i0 co grid r c = false ->
  cellOf (putGrid f co i0 grid rs) r c = cellOf rs r c.
Proof.
  intros Hlen Hout. unfold cellOf, covers in *.
  destruct (decide (r < i0 \/ i0 + length grid <= r)%nat) as [Hr|Hr].
  { now rewrite lookup_putGrid_out. }
  destruct (grid !! (r - i0)%nat) as [line|] eqn:Eline;
    [|apply lookup_ge_None_1 in Eline; lia].
  destruct (rs !! r) as [row|] eqn:Erow; [|apply lookup_ge_None_1 in Erow; lia].
  rewrite (lookup_putGrid co grid i0 r rs line row) by (auto; lia).
  replace (i0 <=? r)%nat with true in Hout by (symmetry; apply Nat.leb_le; lia).
  simpl in Hout. destruct (Nat.leb_spec co c) as [Hc|Hc]; simpl in Hout.
  - apply Nat.ltb_ge in Hout. apply readAt_putLine_above. lia.
  - now apply readAt_putLine_below.
Qed.

(** The inner loop of [overGrid] with a body that reads the cell and writes
    what [f] makes of it, on a row of the grid. *)
Lemma forEach_putLine (co rr : nat) (line : list A) :
  forall (k : nat) (rs : list Row) (row : Row),
    rs !! rr = Some row ->
    forEach (zip (seq k (length line)) line)
      (fun '(c, x) =>
         let* y := cellAt rr (co + c)%nat in
         setCellAt rr (co + c)%nat (f x (orDefault y))) rs
    = (<[rr := putLine f (co + k) line row]> rs, Ret tt).
Proof.
  induction line as [|x line IH]; intros k rs row Hrow; simpl.
  - unfold ret. now rewrite list_insert_id.
  - pose proof (lookup_lt_Some _ _ _ Hrow) as Hlt.
    unfold bind at 1. unfold bind at 1, cellAt at 1. rewrite Hrow.
    unfold setCellAt at 1. rewrite Hrow.
    rewrite (IH (S k) _ (writeAt (co + k) (f x (orDefault (readAt row (co + k)))) row))
      by now apply list_lookup_insert_eq.
    rewrite list_insert_insert_eq. now replace (co + S k)%nat with (S (co + k)) by lia.
Qed.

Lemma forEach_putGrid (range : RangeRef) (grid : list (list A)) :
  forall (k : nat) (rs : list Row),
    (r1 range + k + length grid <= length rs)%nat ->
    forEach (zip (seq k (length grid)) grid)
      (fun '(r, line) =>
         forEach (indexed line)
           (fun '(c, x) =>
              let* y := cellAt (r1 range + r) (c1 range + c) in
              setCellAt (r1 range + r) (c1 range + c) (f x (orDefault y)))) rs
    = (putGrid f (c1 range) (r1 range + k) grid rs, Ret tt).
Proof.
  induction grid as [|line grid IH]; intros k rs Hlen; simpl in *; [reflexivity|].
  destruct (rs !! (r1 range + k)%nat) as [row|] eqn:Erow;
    [|apply lookup_ge_None_1 in Erow; lia].
  unfold bind at 1, indexed.
  rewrite (forEach_putLine (c1 range) (r1 range + k) line 0 rs row Erow).
  rewrite IH by (rewrite length_insert; lia).
  now replace (c1 range + 0)%nat with (c1 range) by lia;
    replace (r1 range + S k)%nat with (S (r1 range + k)) by lia.
Qed.

Lemma overGrid_put (range : RangeRef) (grid : list (list A)) (rs : list Row) :
  (r1 range + length grid <= length rs)%nat ->
  overGrid range grid
    (fun rr cc x => let* y := cellAt rr cc in setCellAt rr cc (f x (orDefault y))) rs
  = (putGrid f (c1 range) (r1 range) grid rs, Ret tt).
Proof.
  intros Hlen. unfold overGrid, indexed at 1.
  rewrite (forEach_putGrid range grid 0 rs) by lia.
  now replace (r1 range + 0)%nat with (r1 range) by lia.
Qed.

End Puts.

Lemma padRow_twice k (row : Row) : padRow k (padRow k row) = padRow k row.
Proof.
  unfold padRow at 1. rewrite length_padRow.
  replace (k - Nat.max (length row) k)%nat with 0%nat by lia. apply app_nil_r.
Qed.

Lemma ensureRows_twice n k (rs : list Row) :
  ensureRows n k (ensureRows n k rs) = ensureRows n k rs.
Proof.
  unfold ensureRows at 1. rewrite length_ensureRows.
  replace (n - Nat.max (length rs) n)%nat with 0%nat by lia. simpl. rewrite app_nil_r.
  unfold ensureRows. rewrite <- list_fmap_compose. apply list_fmap_ext.
  intros i row _. apply padRow_twice.
Qed.

(** The cell that a write finds at a place of the padded grid is the cell
    of the grid, or the default one. *)
Lemma orDefault_ensureRows n k (rs : list Row) r c :
  orDefault (cellOf (ensureRows n k rs) r c) = orDefault (cellOf rs r c).
Proof.
  destruct (cellOf rs r c) as [cell|] eqn:E.
  - now rewrite (cellOf_ensureRows_old _ _ _ _ _ _ E).
  - destruct (cellOf (ensureRows n k rs) r c) as [cell|] eqn:E'; [|reflexivity].
    apply cellOf_ensureRows_inv in E' as [E'| ->]; [congruence | reflexivity].
Qed.


(** The loops of [formatRange], which run over the range itself. *)
Lemma forEach_rangeLine (g : Cell -> Cell) (rr : nat) :
  forall (n k : nat) (rs : list Row) (row : Row),
    rs !! rr = Some row ->
    forEach (seq k n)
      (fun c => let* y := cellAt rr c in setCellAt rr c (g (orDefault y))) rs
    = (<[rr := putLine (fun _ : unit => g) k (replicate n tt) row]> rs, Ret tt).
Proof.
  induction n as [|n IH]; intros k rs row Hrow; simpl.
  - unfold ret. now rewrite list_insert_id.
  - pose proof (lookup_lt_Some _ _ _ Hrow) as Hlt.
    unfold bind at 1. unfold bind at 1, cellAt at 1. rewrite Hrow.
    unfold setCellAt at 1. rewrite Hrow.
    rewrite (IH (S k) _ (writeAt k (g (orDefault (readAt row k))) row))
      by now apply list_lookup_insert_eq.
    now rewrite list_insert_insert_eq.
Qed.

Lemma forEach_rangeGrid (g : Cell -> Cell) (co m : nat) :
  forall (n k : nat) (rs : list Row),
    ((0 < n)%nat -> (k + n <= length rs)%nat) ->
    forEach (seq k n)
      (fun r =>
         forEach (seq co m)
           (fun c => let* y := cellAt r c in setCellAt r c (g (orDefault y)))) rs
    = (putGrid (fun _ : unit => g) co k (replicate n (replicate m tt)) rs, Ret tt).
Proof.
  induction n as [|n IH]; intros k rs Hlen; simpl; [reflexivity|].
  destruct (rs !! k) as [row|] eqn:Erow; [|apply lookup_ge_None_1 in Erow; lia].
  unfold bind at 1. rewrite (forEach_rangeLine g k m co rs row Erow).
  now rewrite IH by (rewrite length_insert; lia).
Qed.

(** An operation that takes a snapshot, pads the grid, runs the writes [m]
    on the rows and logs an event whose inverse puts the snapshot back. *)
Lemma mutation_result (range : RangeRef) (m : M (list Row) unit) (o : Op) (summ : string)
    (w : Workbook) (s : Sheet) (rs' : list Row) :
  JsMap.get (sheet range) (sheets w) = Some s ->
  m (ensureRows (r2 range + 1) (c2 range + 1) (rows s)) = (rs', Ret tt) ->
  (let* before := snapshot range in
   let* _ := getSheet (sheet range) in
   ensureSize (sheet range) (r2 range + 1) (c2 range + 1) ;;
   onRows (sheet range) m ;;
   appendEvent o (OpSetCells range before) summ ;;
   ret tt) w
  = (mkWorkbook (wbId w) (JsMap.set (sheet range) (mkSheet (name s) rs') (sheets w))
       (checkpoints w)
       (events w ++ [mkEvent o
                       (OpSetCells range
                          (copyOf range (ensureRows (r2 range + 1) (c2 range + 1) (rows s))))
                       summ]),
     Ret tt).
Proof.
  intros Hs Hm.
  rewrite (bind_Ret _ _ _ _ _ (snapshot_Some range w s Hs)).
  set (rs := ensureRows (r2 range + 1) (c2 range + 1) (rows s)) in *.
  pose proof (sheets_setRows _ rs _ _ Hs) as Hs1.
  rewrite (bind_Ret _ _ _ _ _ (getSheet_Some _ _ _ Hs1)).
  unfold ensureSize. unfold bind at 1.
  rewrite (onRows_Some _ _ _ _ Hs1). simpl. rewrite setRows_setRows.
  subst rs. rewrite ensureRows_twice.
  set (rs := ensureRows (r2 range + 1) (c2 range + 1) (rows s)) in *.
  pose proof (sheets_setRows _ rs _ _ Hs) as Hs2.
  unfold bind at 1. rewrite (onRows_Some _ _ _ _ Hs2). simpl. rewrite Hm.
  rewrite setRows_setRows. unfold setRows. rewrite Hs. reflexivity.
Qed.

Lemma setValues_result range values prov w s :
  JsMap.get (sheet range) (sheets w) = Some s ->
  (r1 range + length values <= Nat.max (length (rows s)) (r2 range + 1))%nat ->
  let rs := ensureRows (r2 range + 1) (c2 range + 1) (rows s) in
  setValues range values prov w
  = (mkWorkbook (wbId w)
       (JsMap.set (sheet range)
          (mkSheet (name s) (putGrid (valueCell prov) (c1 range) (r1 range) values rs))
          (sheets w))
       (checkpoints w)
       (events w ++ [mkEvent (OpSetValues range values prov)
                       (OpSetCells range (copyOf range rs))
                       ("setValues " +:+ sheet range +:+ "!" +:+ cornerA1 range)]),
     Ret tt).
Proof.
  intros Hs Hfit rs. subst rs. unfold setValues. apply (mutation_result range _ _ _ w s _ Hs).
  apply (overGrid_put (valueCell prov)). rewrite length_ensureRows. exact Hfit.
Qed.

Lemma setFormulas_result range formulas w s :
  JsMap.get (sheet range) (sheets w) = Some s ->
  (r1 range + length formulas <= Nat.max (length (rows s)) (r2 range + 1))%nat ->
  let rs := ensureRows (r2 range + 1) (c2 range + 1) (rows s) in
  setFormulas range formulas w
  = (mkWorkbook (wbId w)
       (JsMap.set (sheet range)
          (mkSheet (name s) (putGrid formulaCell (c1 range) (r1 range) formulas rs))
          (sheets w))
       (checkpoints w)
       (events w ++ [mkEvent (OpSetFormulas range formulas)
                       (OpSetCells range (copyOf range rs))
                       ("setFormulas " +:+ sheet range +:+ "!" +:+ cornerA1 range)]),
     Ret tt).
Proof.
  intros Hs Hfit rs. subst rs. unfold setFormulas. apply (mutation_result range _ _ _ w s _ Hs).
  apply (overGrid_put formulaCell). rewrite length_ensureRows. exact Hfit.
Qed.

Lemma formatRange_result range fmt w s :
  JsMap.get (sheet range) (sheets w) = Some s ->
  let rs := ensureRows (r2 range + 1) (c2 range + 1) (rows s) in
  formatRange range fmt w
  = (mkWorkbook (wbId w)
       (JsMap.set (sheet range)
          (mkSheet (name s)
             (putGrid (formatCell fmt) (c1 range) (r1 range) (rangeGrid range) rs))
          (sheets w))
       (checkpoints w)
       (events w ++ [mkEvent (OpFormatRange range fmt)
                       (OpSetCells range (copyOf range rs))
                       ("formatRange " +:+ sheet range +:+ " " +:+ default "clear" fmt)]),
     Ret tt).
Proof.
  intros Hs rs. subst rs. unfold formatRange. apply (mutation_result range _ _ _ w s _ Hs).
  unfold fromTo, rangeGrid.
  apply (forEach_rangeGrid (formatCell fmt tt)). rewrite length_ensureRows. lia.
Qed.

(** [undo] of an event whose inverse puts back the copy of a grid [rs]:
    every cell of the range is the copy taken of it. *)
Lemma undo_restores_copy id sh cps l range o summ (rs : list Row) s1 r c :
  JsMap.get (sheet range) sh = Some s1 ->
  (r1 range <= r <= r2 range)%nat ->
  (c1 range <= c <= c2 range)%nat ->
  exists s2,
    undo (mkWorkbook id sh cps
            (l ++ [mkEvent o (OpSetCells range (copyOf range rs)) summ]))
    = (mkWorkbook id (JsMap.set (sheet range) s2 sh) cps
         (l ++ [mkEvent (OpSetCells range (copyOf range rs)) OpNoop "setCells"]),
       Ret (Some (mkEvent o (OpSetCells range (copyOf range rs)) summ))) /\
    cellOf (rows s2) r c = Some (spread (cellOf rs r c)).
Proof.
  intros Hs1 Hr Hc.
  set (w3 := mkWorkbook id sh cps l).
  set (rs4 := ensureRows (r2 range + 1) (c2 range + 1) (rows s1)).
  set (rs5 := writeGrid (c1 range) (r1 range) (copyOf range rs) rs4).
  assert (Hlen4 : (r2 range < length rs4)%nat)
    by (subst rs4; rewrite length_ensureRows; lia).
  assert (Hs3 : JsMap.get (sheet range) (sheets w3) = Some s1) by exact Hs1.
  assert (Hundo : setCells range (copyOf range rs) w3
                  = (mkWorkbook id (JsMap.set (sheet range) (mkSheet (name s1) rs5) sh) cps
                       (l ++ [mkEvent (OpSetCells range (copyOf range rs)) OpNoop
                                "setCells"]), Ret tt)).
  { unfold setCells.
    rewrite (bind_Ret _ _ _ _ _ (getSheet_Some _ _ _ Hs3)).
    unfold ensureSize. unfold bind at 1. rewrite (onRows_Some _ _ _ _ Hs3). simpl.
    fold rs4.
    pose proof (sheets_setRows _ rs4 _ _ Hs3) as Hs4. simpl in Hs4.
    unfold bind at 1. rewrite (onRows_Some _ _ _ _ Hs4). simpl.
    rewrite overGrid_setCellAt by (rewrite length_copyOf; lia). simpl.
    fold rs5. rewrite setRows_setRows.
    unfold setRows. rewrite Hs3. reflexivity. }
  destruct (lookup_copyOf range rs r c Hr Hc) as (line & Hline & Hx).
  destruct (rs4 !! r) as [row4|] eqn:Erow4; [|apply lookup_ge_None_1 in Erow4; lia].
  exists (mkSheet (name s1) rs5). split.
  - unfold undo. rewrite (bind_Ret _ _ _ _ _ (popEvent_snoc _ _ _ _ _)).
    simpl. fold w3. unfold bind. rewrite Hundo. reflexivity.
  - simpl. unfold cellOf at 1. subst rs5.
    rewrite (lookup_writeGrid _ _ _ _ _ line row4) by (rewrite ?length_copyOf; auto; lia).
    now rewrite (readAt_writeLine line _ _ _ _ (proj1 Hc) Hx).
Qed.


(** X8. On a sheet that the workbook has, with a grid of values that has
    no more rows than the padded grid has from the first row of the range
    on, [setValues] returns. It writes the grid of values aligned at the top
    left corner of the range, whatever the bottom right corner is: the cell
    at a place that the values cover has the value given for it, no formula,
    the format that the cell had before and, unless a provenance is given,
    the provenance it had; every other place holds what the padded grid
    held. *)
Theorem setValues_writes
    (w : Workbook) (range : RangeRef) (values : list (list Val))
    (prov : option (list CellProvenance)) (s : Sheet) :
  JsMap.get (sheet range) (sheets w) = Some s ->
  (r1 range + length values <= Nat.max (length (rows s)) (r2 range + 1))%nat ->
  exists w1 s1,
    setValues range values prov w = (w1, Ret tt) /\
    JsMap.get (sheet range) (sheets w1) = Some s1 /\
    (forall i j line v,
       values !! i = Some line -> line !! j = Some v ->
       cellOf (rows s1) (r1 range + i) (c1 range + j)
       = Some (valueCell prov v
                 (orDefault (cellOf (rows s) (r1 range + i) (c1 range + j))))) /\
    (forall r c,
       covers (r1 range) (c1 range) values r c = false ->
       cellOf (rows s1) r c
       = cellOf (ensureRows (r2 range + 1) (c2 range + 1) (rows s)) r c).
Proof.
  intros Hs Hfit. eexists _, _.
  split; [apply (setValues_result range values prov w s Hs Hfit)|].
  split; [apply get_set_eq|]. cbn [rows].
  assert (Hlen : (r1 range + length values
                  <= length (ensureRows (r2 range + 1) (c2 range + 1) (rows s)))%nat)
    by now rewrite length_ensureRows.
  split.
  - intros i j line v Hline Hv.
    rewrite (cellOf_putGrid_in _ _ _ _ _ _ _ _ _ Hlen Hline Hv).
    now rewrite orDefault_ensureRows.
  - intros r c Hout. now apply cellOf_putGrid_out.
Qed.

Lemma setValues_writes_witness :
  exists w1 s1,
    setValues Samples.cellA1 [[VNum 7%float]] None Samples.formatted = (w1, Ret tt) /\
    JsMap.get "Sheet1" (sheets w1) = Some s1 /\
    (forall i j line v,
       [[VNum 7%float]] !! i = Some line -> line !! j = Some v ->
       cellOf (rows s1) (0 + i) (0 + j)
       = Some (valueCell None v
                 (orDefault (cellOf (rows (Samples.firstSheet Samples.formatted))
                               (0 + i) (0 + j))))) /\
    (forall r c,
       covers 0 0 [[VNum 7%float]] r c = false ->
       cellOf (rows s1) r c
       = cellOf (ensureRows (0 + 1) (0 + 1) (rows (Samples.firstSheet Samples.formatted)))
           r c).
Proof.
  apply (setValues_writes Samples.formatted Samples.cellA1 [[VNum 7%float]] None
           (Samples.firstSheet Samples.formatted)); [reflexivity | simpl; lia].
Defined.

(** X9. Under the same conditions [setFormulas] returns and writes the
    grid of formulas aligned at the top left corner of the range: a cell
    that the formulas cover has the formula given for it (none for [null]),
    the value [null] until it is evaluated, and the format and provenance
    it had; every other place holds what the padded grid held. *)
Theorem setFormulas_writes
    (w : Workbook) (range : RangeRef) (formulas : list (list (option string)))
    (s : Sheet) :
  JsMap.get (sheet range) (sheets w) = Some s ->
  (r1 range + length formulas <= Nat.max (length (rows s)) (r2 range + 1))%nat ->
  exists w1 s1,
    setFormulas range formulas w = (w1, Ret tt) /\
    JsMap.get (sheet range) (sheets w1) = Some s1 /\
    (forall i j line f,
       formulas !! i = Some line -> line !! j = Some f ->
       cellOf (rows s1) (r1 range + i) (c1 range + j)
       = Some (formulaCell f
                 (orDefault (cellOf (rows s) (r1 range + i) (c1 range + j))))) /\
    (forall r c,
       covers (r1 range) (c1 range) formulas r c = false ->
       cellOf (rows s1) r c
       = cellOf (ensureRows (r2 range + 1) (c2 range + 1) (rows s)) r c).
Proof.
  intros Hs Hfit. eexists _, _.
  split; [apply (setFormulas_result range formulas w s Hs Hfit)|].
  split; [apply get_set_eq|]. cbn [rows].
  assert (Hlen : (r1 range + length formulas
                  <= length (ensureRows (r2 range + 1) (c2 range + 1) (rows s)))%nat)
    by now rewrite length_ensureRows.
  split.
  - intros i j line f Hline Hf.
    rewrite (cellOf_putGrid_in _ _ _ _ _ _ _ _ _ Hlen Hline Hf).
    now rewrite orDefault_ensureRows.
  - intros r c Hout. now apply cellOf_putGrid_out.
Qed.

Lemma setFormulas_writes_witness :
  exists w1 s1,
    setFormulas Samples.cellA1 [[Some "=B1*2"]] Samples.formatted = (w1, Ret tt) /\
    JsMap.get "Sheet1" (sheets w1) = Some s1 /\
    (forall i j line f,
       [[Some "=B1*2"]] !! i = Some line -> line !! j = Some f ->
       cellOf (rows s1) (0 + i) (0 + j)
       = Some (formulaCell f
                 (orDefault (cellOf (rows (Samples.firstSheet Samples.formatted))
                               (0 + i) (0 + j))))) /\
    (forall r c,
       covers 0 0 [[Some "=B1*2"]] r c = false ->
       cellOf (rows s1) r c
       = cellOf (ensureRows (0 + 1) (0 + 1) (rows (Samples.firstSheet Samples.formatted)))
           r c).
Proof.
  apply (setFormulas_writes Samples.formatted Samples.cellA1 [[Some "=B1*2"]]
           (Samples.firstSheet Samples.formatted)); [reflexivity | simpl; lia].
Defined.

Lemma lookup_rangeGrid range r c :
  (r1 range <= r <= r2 range)%nat -> (c1 range <= c <= c2 range)%nat ->
  exists line, rangeGrid range !! (r - r1 range)%nat = Some line /\
               line !! (c - c1 range)%nat = Some tt /\
               length (rangeGrid range) = (S (r2 range) - r1 range)%nat.
Proof.
  intros Hr Hc. unfold rangeGrid. eexists. split; [|split].
  - apply lookup_replicate_2. lia.
  - apply lookup_replicate_2. lia.
  - apply length_replicate.
Qed.

Lemma covers_rangeGrid range r c :
  ~ ((r1 range <= r <= r2 range)%nat /\ (c1 range <= c <= c2 range)%nat) ->
  covers (r1 range) (c1 range) (rangeGrid range) r c = false.
Proof.
  intros Hout. unfold covers, rangeGrid.
  destruct (Nat.leb_spec (r1 range) r) as [Hr|Hr]; [|reflexivity].
  destruct (Nat.leb_spec (c1 range) c) as [Hc|Hc]; [|reflexivity]. simpl.
  destruct (replicate _ _ !! _) as [line|] eqn:E; [|reflexivity].
  apply lookup_replicate_1 in E as [-> Hlt]. rewrite length_replicate.
  apply Nat.ltb_ge. lia.
Qed.

(** X10. On a sheet that the workbook has, [formatRange] always returns:
    every cell of the range gets the format (none for [null]) and keeps its
    value, formula and provenance, a place of the range that the grid did
    not reach getting the default cell with that format; every place
    outside the range holds what the padded grid held. *)
Theorem formatRange_writes
    (w : Workbook) (range : RangeRef) (fmt : option string) (s : Sheet) :
  JsMap.get (sheet range) (sheets w) = Some s ->
  exists w1 s1,
    formatRange range fmt w = (w1, Ret tt) /\
    JsMap.get (sheet range) (sheets w1) = Some s1 /\
    (forall r c,
       (r1 range <= r <= r2 range)%nat -> (c1 range <= c <= c2 range)%nat ->
       cellOf (rows s1) r c = Some (formatCell fmt tt (orDefault (cellOf (rows s) r c)))) /\
    (forall r c,
       ~ ((r1 range <= r <= r2 range)%nat /\ (c1 range <= c <= c2 range)%nat) ->
       cellOf (rows s1) r c
       = cellOf (ensureRows (r2 range + 1) (c2 range + 1) (rows s)) r c).
Proof.
  intros Hs. eexists _, _.
  split; [apply (formatRange_result range fmt w s Hs)|].
  split; [apply get_set_eq|]. cbn [rows].
  set (rs := ensureRows (r2 range + 1) (c2 range + 1) (rows s)).
  split.
  - intros r c Hr Hc.
    destruct (lookup_rangeGrid range r c Hr Hc) as (line & Hline & Hx & Hn).
    assert (Hlen : (r1 range + length (rangeGrid range) <= length rs)%nat)
      by (subst rs; rewrite Hn, length_ensureRows; lia).
    pose proof (cellOf_putGrid_in (formatCell fmt) (c1 range) (r1 range) _ rs _ _ _ _
                  Hlen Hline Hx) as E.
    replace (r1 range + (r - r1 range))%nat with r in E by lia.
    replace (c1 range + (c - c1 range))%nat with c in E by lia.
    rewrite E. subst rs. now rewrite orDefault_ensureRows.
  - intros r c Hout.
    destruct (decide (r1 range <= r2 range)%nat) as [Hwf|Hwf].
    + apply cellOf_putGrid_out; [|now apply covers_rangeGrid].
      unfold rangeGrid. subst rs. rewrite length_replicate, length_ensureRows. lia.
    + unfold rangeGrid. now replace (S (r2 range) - r1 range)%nat with 0%nat by lia.
Qed.

Lemma formatRange_writes_witness :
  exists w1 s1,
    formatRange (mkRange "Sheet1" 0 0 1 1) (Some "percent") Samples.formatted
      = (w1, Ret tt) /\
    JsMap.get "Sheet1" (sheets w1) = Some s1 /\
    (forall r c,
       (0 <= r <= 1)%nat -> (0 <= c <= 1)%nat ->
       cellOf (rows s1) r c
       = Some (formatCell (Some "percent") tt
                 (orDefault (cellOf (rows (Samples.firstSheet Samples.formatted)) r c)))) /\
    (forall r c,
       ~ ((0 <= r <= 1)%nat /\ (0 <= c <= 1)%nat) ->
       cellOf (rows s1) r c
       = cellOf (ensureRows (1 + 1) (1 + 1) (rows (Samples.firstSheet Samples.formatted)))
           r c).
Proof.
  apply (formatRange_writes Samples.formatted (mkRange "Sheet1" 0 0 1 1) (Some "percent")
           (Samples.firstSheet Samples.formatted)). reflexivity.
Defined.

(** X11. [setFormulas] followed by [undo], under the conditions of X9: a
    cell of the range that the grid had holds again the cell it held, with
    its value, formula, format and provenance. *)
Theorem setFormulas_then_undo_restores
    (w : Workbook) (range : RangeRef) (formulas : list (list (option string)))
    (s : Sheet) (r c : nat) (before : Cell) :
  JsMap.get (sheet range) (sheets w) = Some s ->
  (r1 range + length formulas <= Nat.max (length (rows s)) (r2 range + 1))%nat ->
  (r1 range <= r <= r2 range)%nat ->
  (c1 range <= c <= c2 range)%nat ->
  cellOf (rows s) r c = Some before ->
  exists w1 w2 ev s2,
    setFormulas range formulas w = (w1, Ret tt) /\
    undo w1 = (w2, Ret (Some ev)) /\
    op ev = OpSetFormulas range formulas /\
    JsMap.get (sheet range) (sheets w2) = Some s2 /\
    cellOf (rows s2) r c = Some before.
Proof.
  intros Hs Hfit Hr Hc Hcell.
  pose proof (setFormulas_result range formulas w s Hs Hfit) as E. cbv zeta in E.
  match type of E with _ = (mkWorkbook _ ?sh _ _, _) =>
    destruct (undo_restores_copy (wbId w) sh (checkpoints w) (events w) range
                (OpSetFormulas range formulas)
                ("setFormulas " +:+ sheet range +:+ "!" +:+ cornerA1 range)
                (ensureRows (r2 range + 1) (c2 range + 1) (rows s)) _ r c
                (get_set_eq _ _ _) Hr Hc) as (s2 & Hundo & Hafter)
  end.
  eexists _, _, _, s2. split; [exact E|]. split; [exact Hundo|].
  split; [reflexivity|]. split; [apply get_set_eq|].
  now rewrite Hafter, (cellOf_ensureRows_old _ _ _ _ _ _ Hcell).
Qed.

Lemma setFormulas_then_undo_restores_witness :
  exists w1 w2 ev s2,
    setFormulas Samples.cellA1 [[Some "=B1*2"]] Samples.formatted = (w1, Ret tt) /\
    undo w1 = (w2, Ret (Some ev)) /\
    op ev = OpSetFormulas Samples.cellA1 [[Some "=B1*2"]] /\
    JsMap.get "Sheet1" (sheets w2) = Some s2 /\
    cellOf (rows s2) 0 0
    = Some (mkCell (VNum 5%float) None (Some "currency") (Some ["10-K"])).
Proof.
  apply (setFormulas_then_undo_restores Samples.formatted Samples.cellA1
           [[Some "=B1*2"]] (Samples.firstSheet Samples.formatted) 0 0);
    solve [reflexivity | simpl; lia].
Defined.

(** X12. [formatRange] followed by [undo]: a cell of the range that the
    grid had holds again the cell it held, with the format it had. *)
Theorem formatRange_then_undo_restores
    (w : Workbook) (range : RangeRef) (fmt : option string)
    (s : Sheet) (r c : nat) (before : Cell) :
  JsMap.get (sheet range) (sheets w) = Some s ->
  (r1 range <= r <= r2 range)%nat ->
  (c1 range <= c <= c2 range)%nat ->
  cellOf (rows s) r c = Some before ->
  exists w1 w2 ev s2,
    formatRange range fmt w = (w1, Ret tt) /\
    undo w1 = (w2, Ret (Some ev)) /\
    op ev = OpFormatRange range fmt /\
    JsMap.get (sheet range) (sheets w2) = Some s2 /\
    cellOf (rows s2) r c = Some before.
Proof.
  intros Hs Hr Hc Hcell.
  pose proof (formatRange_result range fmt w s Hs) as E. cbv zeta in E.
  match type of E with _ = (mkWorkbook _ ?sh _ _, _) =>
    destruct (undo_restores_copy (wbId w) sh (checkpoints w) (events w) range
                (OpFormatRange range fmt)
                ("formatRange " +:+ sheet range +:+ " " +:+ default "clear" fmt)
                (ensureRows (r2 range + 1) (c2 range + 1) (rows s)) _ r c
                (get_set_eq _ _ _) Hr Hc) as (s2 & Hundo & Hafter)
  end.
  eexists _, _, _, s2. split; [exact E|]. split; [exact Hundo|].
  split; [reflexivity|]. split; [apply get_set_eq|].
  now rewrite Hafter, (cellOf_ensureRows_old _ _ _ _ _ _ Hcell).
Qed.

Lemma formatRange_then_undo_restores_witness :
  exists w1 w2 ev s2,
    formatRange Samples.cellA1 (Some "percent") Samples.formatted = (w1, Ret tt) /\
    undo w1 = (w2, Ret (Some ev)) /\
    op ev = OpFormatRange Samples.cellA1 (Some "percent") /\
    JsMap.get "Sheet1" (sheets w2) = Some s2 /\
    cellOf (rows s2) 0 0
    = Some (mkCell (VNum 5%float) None (Some "currency") (Some ["10-K"])).
Proof.
  apply (formatRange_then_undo_restores Samples.formatted Samples.cellA1
           (Some "percent") (Samples.firstSheet Samples.formatted) 0 0);
    solve [reflexivity | simpl; lia].
Defined.

End WriteFacts.

(** ** What no evaluation changes *)

Module KeepFacts.
Import Text Codec Engine Evaluator Predicates EngineFacts GridFacts GrowFacts JsMapFacts.

(** *** Any relation that the two accesses to the grid respect *)

Section Kept.
Context {host : JsHost}.
Variable R : Workbook -> Workbook -> Prop.
Hypothesis R_refl : forall w, R w w.
Hypothesis R_trans : forall a b c, R a b -> R b c -> R a c.
Hypothesis R_getCell : forall nm r c w, R w (getCell nm r c w).1.
Hypothesis R_setValueOf : forall nm r c v w, R w (setValueOf nm r c v w).1.

Lemma kept_ret {A} (a : A) : Kept R (ret a).
Proof. intros st. apply R_refl. Qed.

Lemma kept_throw {A} e : Kept R (throw (A := A) e).
Proof. intros st. apply R_refl. Qed.

Lemma kept_diverge {A} : Kept R (diverge (A := A)).
Proof. intros st. apply R_refl. Qed.

Lemma kept_bind {A B} (m : M EvalState A) (k : A -> M EvalState B) :
  Kept R m -> (forall a, Kept R (k a)) -> Kept R (bind m k).
Proof.
  intros Hm Hk st. unfold bind. specialize (Hm st).
  destruct (m st) as [st' [a| |]]; simpl in *; try exact Hm.
  eapply R_trans; [exact Hm | apply Hk].
Qed.

Lemma kept_liftWb {A} (m : M Workbook A) :
  (forall w, R w (m w).1) -> Kept R (liftWb m).
Proof.
  intros Hm st. unfold liftWb. specialize (Hm (wb st)). now destruct (m (wb st)).
Qed.

Lemma kept_foldM {A B} (f : B -> A -> M EvalState B) (l : list A) :
  (forall b x, Kept R (f b x)) -> forall b, Kept R (foldM f l b).
Proof.
  intros Hf. induction l as [|x l IH]; intros b; simpl; [apply kept_ret|].
  apply kept_bind; [apply Hf | apply IH].
Qed.

Section Helpers.
Variable ev : string -> Z -> Z -> M EvalState Val.
Hypothesis ev_kept : forall nm r c, Kept R (ev nm r c).

Lemma kept_evalRef nm a1 : Kept R (evalRef ev nm a1).
Proof.
  unfold evalRef.
  destruct (a1ToRc a1) as [[r c]| |];
    [|apply kept_throw|apply kept_diverge].
  apply kept_bind; [apply ev_kept|]. intros [| | |]; apply kept_ret.
Qed.

Lemma kept_sumRange nm a1range : Kept R (sumRange ev nm a1range).
Proof.
  unfold sumRange. destruct (matchRange a1range) as [[pa pb]|]; [|apply kept_ret].
  destruct (a1ToRc pa) as [[ar ac]| |], (a1ToRc pb) as [[br bc]| |];
    try apply kept_throw; try apply kept_diverge.
  apply kept_foldM. intros total r. apply kept_foldM. intros total' c.
  apply kept_bind; [apply ev_kept | intros v; apply kept_ret].
Qed.

Lemma kept_sumTerm nm term : Kept R (sumTerm ev nm term).
Proof.
  unfold sumTerm. destruct (matchRange (trim term)).
  - apply kept_bind; [apply kept_sumRange | intros n; apply kept_ret].
  - destruct (isRef (trim term)); [apply kept_evalRef | apply kept_ret].
Qed.

Lemma kept_sumTerms nm terms : forall total, Kept R (sumTerms ev nm terms total).
Proof.
  induction terms as [|t terms IH]; intros total; simpl; [apply kept_ret|].
  apply kept_bind; [apply kept_sumTerm|]. intros [n|s]; [apply IH | apply kept_ret].
Qed.

Lemma kept_replaceSums fuel : forall nm expr, Kept R (replaceSums ev fuel nm expr).
Proof.
  induction fuel as [|k IH]; intros nm [|a r]; cbn [replaceSums];
    try apply kept_ret; try apply kept_diverge.
  destruct (matchSum (String a r)) as [[args after]|].
  - apply kept_bind; [apply kept_sumTerms|]. intros v.
    apply kept_bind; [apply IH | intros rest; apply kept_ret].
  - apply kept_bind; [apply IH | intros rest; apply kept_ret].
Qed.

Lemma kept_replaceWord nm w : Kept R (replaceWord ev nm w).
Proof.
  unfold replaceWord. destruct (isRef w); [|apply kept_ret].
  apply kept_bind; [apply kept_evalRef | intros x; apply kept_ret].
Qed.

Lemma kept_replaceRefs nm expr : forall w, Kept R (replaceRefs ev nm w expr).
Proof.
  induction expr as [|a r IH]; intros w; simpl; [apply kept_replaceWord|].
  destruct (isWord a); [apply IH|].
  apply kept_bind; [apply kept_replaceWord|]. intros x.
  apply kept_bind; [apply IH | intros rest; apply kept_ret].
Qed.

Lemma kept_finishCell nm r c expr : Kept R (finishCell nm r c expr).
Proof.
  unfold finishCell.
  destruct (includes "#REF!" expr || includes "#ERROR!" expr);
    (apply kept_bind;
     [apply kept_liftWb; intros w; apply R_setValueOf | intros u; apply kept_ret]).
Qed.

Lemma kept_afterCell nm r c x : Kept R (afterCell ev nm r c x).
Proof.
  unfold afterCell. destruct x as [cell|]; [|apply kept_throw].
  destruct (formula cell) as [[|a t]|]; try apply kept_ret.
  destruct (negb _); [apply kept_ret|].
  apply kept_bind; [apply kept_replaceSums|]. intros e1.
  apply kept_bind; [apply kept_replaceRefs|]. intros e2. apply kept_finishCell.
Qed.

Lemma kept_body nm r c : Kept R (evaluateCellBody ev nm r c).
Proof.
  assert (Hget : Kept R (liftWb (getCell nm r c)))
    by (apply kept_liftWb; intros w; apply R_getCell).
  intros st. rewrite body_unfold.
  destruct (bool_decide (cellKey nm r c ∈ seen st)).
  - apply (kept_bind (liftWb (getCell nm r c))); [exact Hget|].
    intros [cell|]; [|apply kept_throw].
    apply kept_bind;
      [apply kept_liftWb; intros w; apply R_setValueOf | intros u; apply kept_ret].
  - apply (kept_bind (liftWb (getCell nm r c)) (afterCell ev nm r c)
             Hget (kept_afterCell nm r c)
             (mkEvalState (wb st) ({[cellKey nm r c]} ∪ seen st))).
Qed.

End Helpers.

Lemma kept_evaluateCell fuel : forall nm r c, Kept R (evaluateCell fuel nm r c).
Proof.
  induction fuel as [|k IH]; intros nm r c; simpl; [apply kept_diverge|].
  now apply kept_body.
Qed.

Lemma kept_evaluateFresh fuel nm r c w : R w (evaluateFresh fuel nm r c w).1.
Proof.
  unfold evaluateFresh.
  pose proof (kept_evaluateCell fuel nm r c (mkEvalState w ∅)) as H.
  now destruct (evaluateCell fuel nm r c _).
Qed.

Lemma kept_colsLoop fuel i r :
  forall rounds c w, R w (colsLoop rounds fuel i r c w).1.
Proof.
  induction rounds as [|k IH]; intros c w; simpl;
    destruct (sheetNo i w) as [s|]; try apply R_refl;
    destruct (rows s !! r) as [row|]; try apply R_refl;
    destruct (c <? length row)%nat; try apply R_refl.
  unfold bind.
  pose proof (kept_evaluateFresh fuel (name s) (Z.of_nat r) (Z.of_nat c) w) as H.
  destruct (evaluateFresh _ _ _ _ w) as [w1 [v| |]]; simpl in *; try exact H.
  eapply R_trans; [exact H | apply IH].
Qed.

Lemma kept_rowsLoop fuel i :
  forall rounds r w, R w (rowsLoop rounds fuel i r w).1.
Proof.
  induction rounds as [|k IH]; intros r w; simpl;
    destruct (sheetNo i w) as [s|]; try apply R_refl;
    destruct (r <? length (rows s))%nat; try apply R_refl.
  unfold bind.
  pose proof (kept_colsLoop fuel i r fuel 0%nat w) as H.
  destruct (colsLoop _ _ _ _ _ w) as [w1 [v| |]]; simpl in *; try exact H.
  eapply R_trans; [exact H | apply IH].
Qed.

Lemma kept_forEach {A} (l : list A) (body : A -> M Workbook unit) :
  (forall x w, R w (body x w).1) -> forall w, R w (forEach l body w).1.
Proof.
  intros Hb. induction l as [|x l IH]; intros w; simpl; [apply R_refl|].
  unfold bind. specialize (Hb x w).
  destruct (body x w) as [w1 [u| |]]; simpl in *; try exact Hb.
  eapply R_trans; [exact Hb | apply IH].
Qed.

Lemma kept_evaluateAll fuel w : R w (evaluateAll fuel w).1.
Proof.
  unfold evaluateAll, bind, get. simpl.
  apply kept_forEach. intros i w'. apply kept_rowsLoop.
Qed.

End Kept.


(** *** The sheets, the formulas, the formats and the events are kept *)

Lemma rowKeeps_refl row : rowKeeps row row.
Proof. split; [lia | eauto]. Qed.

Lemma rowKeeps_trans a b c : rowKeeps a b -> rowKeeps b c -> rowKeeps a c.
Proof.
  intros [L1 H1] [L2 H2]. split; [lia|]. intros i x Hx.
  destruct (H1 i x Hx) as (y & Hy & F1 & F2 & F3).
  destruct (H2 i y Hy) as (z & Hz & G1 & G2 & G3).
  exists z. repeat split; congruence.
Qed.

Lemma gridKeeps_refl rs : gridKeeps rs rs.
Proof. intros i row H. exists row. split; [exact H | apply rowKeeps_refl]. Qed.

Lemma gridKeeps_trans a b c : gridKeeps a b -> gridKeeps b c -> gridKeeps a c.
Proof.
  intros H1 H2 i x Hx. destruct (H1 i x Hx) as (y & Hy & Gy).
  destruct (H2 i y Hy) as (z & Hz & Gz). exists z. split; [exact Hz|].
  eapply rowKeeps_trans; eauto.
Qed.

Lemma wbKeeps_refl w : wbKeeps w w.
Proof.
  split; [reflexivity|]. split; [|repeat split].
  intros nm s H. exists s. split; [exact H|]. split; [reflexivity | apply gridKeeps_refl].
Qed.

Lemma wbKeeps_trans a b c : wbKeeps a b -> wbKeeps b c -> wbKeeps a c.
Proof.
  intros (K1 & H1 & E1 & C1 & I1) (K2 & H2 & E2 & C2 & I2).
  split; [congruence|]. split; [|repeat split; congruence].
  intros nm s Hs. destruct (H1 nm s Hs) as (s1 & Hs1 & N1 & G1).
  destruct (H2 nm s1 Hs1) as (s2 & Hs2 & N2 & G2). exists s2. split; [exact Hs2|].
  split; [congruence|]. eapply gridKeeps_trans; eauto.
Qed.

Lemma keys_set_present {V} (k : string) (v v0 : V) (m : JsMap.t V) :
  JsMap.get k m = Some v0 -> map fst (JsMap.set k v m) = map fst m.
Proof.
  induction m as [|[k' v'] m IH]; simpl; [discriminate|].
  destruct (String.eqb_spec k' k) as [->|Hne]; simpl; [reflexivity|].
  intros H. now rewrite IH.
Qed.

Lemma rowKeeps_padRow k row : rowKeeps row (padRow k row).
Proof.
  split; [unfold padRow; rewrite length_app; lia|].
  intros c cell H. exists cell. split; [now apply readAt_padRow_old | auto].
Qed.

Lemma gridKeeps_ensureRows n k rs : gridKeeps rs (ensureRows n k rs).
Proof.
  intros i row H. exists (padRow k row).
  split; [now apply lookup_ensureRows_old | apply rowKeeps_padRow].
Qed.

Lemma gridKeeps_stamp r c v rs : gridKeeps rs (stamp r c v rs).
Proof.
  unfold stamp. destruct (rs !! r) as [row|] eqn:Er; [|apply gridKeeps_refl].
  destruct (readAt row c) as [cell|] eqn:Ec; [|apply gridKeeps_refl].
  intros i x Hx. destruct (decide (i = r)) as [->|Hne].
  - rewrite list_lookup_insert_eq by (eapply lookup_lt_Some; eauto).
    eexists. split; [reflexivity|]. assert (x = row) as -> by congruence.
    assert (Hlt : (c < length row)%nat).
    { unfold readAt in Ec. destruct (row !! c) eqn:E; [|discriminate].
      eapply lookup_lt_Some; eauto. }
    split.
    + unfold writeAt. apply Nat.ltb_lt in Hlt. rewrite Hlt. now rewrite length_insert.
    + intros j y Hy. rewrite readAt_writeAt. destruct (decide (j = c)) as [->|Hj].
      * eexists. split; [reflexivity|]. simpl. assert (y = cell) as -> by congruence. auto.
      * exists y. auto.
  - exists x. rewrite list_lookup_insert_ne by congruence.
    split; [exact Hx | apply rowKeeps_refl].
Qed.

Lemma wbKeeps_setRows nm rs w s :
  JsMap.get nm (sheets w) = Some s -> gridKeeps (rows s) rs -> wbKeeps w (setRows nm rs w).
Proof.
  intros Hs Hg. split; [|split; [|split; [|split]]].
  - unfold setRows. rewrite Hs. simpl. now apply keys_set_present with s.
  - intros nm' s' Hs'. destruct (decide (nm = nm')) as [<-|Hne].
    + rewrite (sheets_setRows _ rs _ _ Hs). eexists. split; [reflexivity|].
      assert (s' = s) as -> by congruence. split; [reflexivity | exact Hg].
    + rewrite (sheets_setRows_ne _ _ rs w Hne). exists s'.
      split; [exact Hs'|]. split; [reflexivity | apply gridKeeps_refl].
  - now rewrite events_setRows.
  - apply checkpoints_setRows.
  - unfold setRows. now destruct (JsMap.get nm (sheets w)).
Qed.

Lemma wbKeeps_onRows {A} nm (m : M (list Row) A) w :
  (forall rs, gridKeeps rs (m rs).1) -> wbKeeps w (onRows nm m w).1.
Proof.
  intros Hm. destruct (JsMap.get nm (sheets w)) as [s|] eqn:E.
  - rewrite (onRows_Some _ _ _ _ E). simpl. now apply wbKeeps_setRows with s.
  - rewrite (onRows_None _ _ _ E). apply wbKeeps_refl.
Qed.

Lemma wbKeeps_setValueOf nm r c v w : wbKeeps w (setValueOf nm r c v w).1.
Proof.
  unfold setValueOf. apply wbKeeps_onRows. intros rs.
  rewrite setValueOf_rows. apply gridKeeps_stamp.
Qed.

Lemma wbKeeps_getCell nm r c w : wbKeeps w (getCell nm r c w).1.
Proof.
  unfold getCell. unfold bind at 1.
  assert (H : wbKeeps w (ensureSize nm (Z.to_nat (r + 1)) (Z.to_nat (c + 1)) w).1).
  { unfold ensureSize. apply wbKeeps_onRows. intros rs. apply gridKeeps_ensureRows. }
  destruct (ensureSize _ _ _ w) as [w1 [u| |]]; simpl in *; try exact H.
  unfold bind, getSheet. destruct (JsMap.get nm (sheets w1)); simpl; [|exact H].
  destruct (r <? 0); simpl; [exact H|].
  destruct (rows s !! Z.to_nat r); exact H.
Qed.

Section WithHost.
Context {host : JsHost}.

(** X13. The evaluation of a cell, however it ends and whatever formulas
    it goes through, leaves the workbook with the same sheets under the
    same names in the same order, the same checkpoints and identifier, and
    a log of the same events in [outline] (the values inside the cells and
    the sheets that the events hold are the ones an evaluation may write);
    in every sheet no row is removed or shortened, and every cell object
    is where it was with the formula, the format and the provenance it
    had. Only values change, and cells are appended. *)
Theorem evaluation_keeps (fuel : nat) (nm : string) (r c : Z) (w : Workbook) :
  wbKeeps w (evaluateFresh fuel nm r c w).1.
Proof.
  apply (kept_evaluateFresh wbKeeps wbKeeps_refl wbKeeps_trans
           wbKeeps_getCell wbKeeps_setValueOf).
Qed.

Lemma wbKeeps_evaluateAll (fuel : nat) (w : Workbook) :
  wbKeeps w (evaluateAll fuel w).1.
Proof.
  apply (kept_evaluateAll wbKeeps wbKeeps_refl wbKeeps_trans
           wbKeeps_getCell wbKeeps_setValueOf).
Qed.

(** X14. So does the recomputation of the whole workbook, also when one of
    its evaluations throws and ends it early: the same sheets, names and
    order, the same checkpoints and identifier, the same events in
    [outline], no row removed or shortened, and every cell with its
    formula, format and provenance. *)
Theorem evaluateAll_keeps (fuel : nat) (w : Workbook) :
  wbKeeps w (evaluateAll fuel w).1.
Proof. apply wbKeeps_evaluateAll. Qed.

Lemma forEach_setSheets (data : list SheetData) :
  forall w,
    forEach data (fun s => setSheets (JsMap.set (dataName s) (loadSheet s))) w
    = (mkWorkbook (wbId w)
         (foldl (fun m s => JsMap.set (dataName s) (loadSheet s) m) (sheets w) data)
         (checkpoints w) (events w), Ret tt).
Proof.
  induction data as [|s data IH]; intros w; simpl; [now destruct w|].
  unfold bind at 1. unfold setSheets at 1, modify at 1. now rewrite IH.
Qed.

(** What [loadFromJSON] does before the recomputation. *)
Lemma loadFromJSON_start (fuel : nat) (data : list SheetData) (w : Workbook) :
  loadFromJSON fuel data w
  = evaluateAll fuel
      (mkWorkbook (wbId w) (loadedSheets data) [mkCheckpoint (Some "import") 0] []).
Proof.
  unfold loadFromJSON. unfold bind at 1. unfold setSheets at 1, modify at 1.
  unfold bind at 1. rewrite forEach_setSheets. cbn [sheets wbId checkpoints events].
  unfold bind at 1, get at 1. cbn [sheets]. unfold loadedSheets.
  destruct (foldl _ _ data) as [|p m]; reflexivity.
Qed.

(** X15. Every import, whatever the data and however the recomputation
    ends, leaves an empty event log and the single checkpoint [import] at
    position 0, and keeps the identifier of the workbook: the former events
    and checkpoints are gone, and nothing can be undone. *)
Theorem import_resets_history (fuel : nat) (data : list SheetData) (w : Workbook) :
  events (loadFromJSON fuel data w).1 = [] /\
  checkpoints (loadFromJSON fuel data w).1 = [mkCheckpoint (Some "import") 0] /\
  wbId (loadFromJSON fuel data w).1 = wbId w /\
  undo (loadFromJSON fuel data w).1 = ((loadFromJSON fuel data w).1, Ret None).
Proof.
  rewrite loadFromJSON_start.
  destruct (wbKeeps_evaluateAll fuel
              (mkWorkbook (wbId w) (loadedSheets data) [mkCheckpoint (Some "import") 0] []))
    as (_ & _ & E & C & I).
  apply map_eq_nil in E.
  repeat split; try assumption.
  unfold undo, bind, popEvent. rewrite E. reflexivity.
Qed.

Lemma keys_fold (data : list SheetData) :
  forall m : JsMap.t Sheet,
    NoDup (map fst m ++ map dataName data) ->
    map fst (foldl (fun m s => JsMap.set (dataName s) (loadSheet s) m) m data)
    = map fst m ++ map dataName data /\
    (forall s, s ∈ data ->
       JsMap.get (dataName s)
         (foldl (fun m s => JsMap.set (dataName s) (loadSheet s) m) m data)
       = Some (loadSheet s)).
Proof.
  induction data as [|s0 data IH]; intros m Hnd; simpl.
  - rewrite app_nil_r. split; [reflexivity|]. intros s Hs. inversion Hs.
  - assert (Hnone : JsMap.get (dataName s0) m = None).
    { apply SheetFacts.get_None_keys. intros Hin.
      apply NoDup_app in Hnd as (_ & Hd & _). apply (Hd _ Hin). simpl. left. }
    pose proof (SheetFacts.set_absent (dataName s0) (loadSheet s0) m Hnone) as Hset.
    destruct (IH (JsMap.set (dataName s0) (loadSheet s0) m)) as [Hk Hg].
    { rewrite Hset, map_app. simpl. rewrite <- app_assoc. exact Hnd. }
    split.
    + rewrite Hk, Hset, map_app. simpl. now rewrite <- app_assoc.
    + intros s Hs. apply elem_of_cons in Hs as [->|Hs]; [|now apply Hg].
      clear Hg IH. 
      assert (Hkeep : forall (l : list SheetData) (m : JsMap.t Sheet),
                dataName s0 ∉ map dataName l ->
                JsMap.get (dataName s0)
                  (foldl (fun m s => JsMap.set (dataName s) (loadSheet s) m) m l)
                = JsMap.get (dataName s0) m).
      { induction l as [|x l IHl]; intros m' Hx; simpl; [reflexivity|].
        simpl in Hx. apply not_elem_of_cons in Hx as [Hne Hx].
        rewrite IHl by exact Hx. apply get_set_ne. congruence. }
      rewrite Hkeep; [apply get_set_eq|].
      apply NoDup_app in Hnd as (_ & _ & Hd). simpl in Hd.
      now apply NoDup_cons in Hd as [Hd _].
Qed.

(** X16. An import of sheets with distinct names: the workbook has those
    sheets and no other, in the order of the data; each has its name, a
    grid with at least the rows and cells of the data, and at each cell of
    the data the formula, the format and the provenance given for it. *)
Theorem import_loads_sheets (fuel : nat) (data : list SheetData) (w : Workbook) :
  data <> [] ->
  NoDup (map dataName data) ->
  map fst (sheets (loadFromJSON fuel data w).1) = map dataName data /\
  forall s, s ∈ data ->
    exists s',
      JsMap.get (dataName s) (sheets (loadFromJSON fuel data w).1) = Some s' /\
      name s' = dataName s /\
      gridKeeps (rows (loadSheet s)) (rows s').
Proof.
  intros Hne Hnd. rewrite loadFromJSON_start.
  destruct (keys_fold data [] Hnd) as [Hk Hg]. simpl in Hk.
  assert (Hl : loadedSheets data
               = foldl (fun m s => JsMap.set (dataName s) (loadSheet s) m) [] data).
  { unfold loadedSheets, JsMap.size.
    rewrite <- (length_map fst), Hk, length_map.
    destruct data; [contradiction | reflexivity]. }
  rewrite Hl.
  destruct (wbKeeps_evaluateAll fuel
              (mkWorkbook (wbId w)
                 (foldl (fun m s => JsMap.set (dataName s) (loadSheet s) m) [] data)
                 [mkCheckpoint (Some "import") 0] []))
    as (K & H & _). cbn [sheets] in K, H.
  split; [congruence|].
  intros s Hs. destruct (H _ _ (Hg s Hs)) as (s' & Hs' & Hn & G).
  exists s'. split; [exact Hs'|]. split; [exact Hn | exact G].
Qed.

End WithHost.

Lemma import_loads_sheets_witness :
  let data :=
    [mkSheetData "P&L" [Some [Some (mkCell (VStr "Revenue") None None None);
                              Some (mkCell VNull (Some "=1+2") (Some "currency") None)]];
     mkSheetData "Notes" []] in
  map fst (sheets (loadFromJSON (host := SampleHost.host) 3 data Samples.fresh).1)
  = map dataName data /\
  forall s, s ∈ data ->
    exists s',
      JsMap.get (dataName s)
        (sheets (loadFromJSON (host := SampleHost.host) 3 data Samples.fresh).1) = Some s' /\
      name s' = dataName s /\
      gridKeeps (rows (loadSheet s)) (rows s').
Proof.
  apply (import_loads_sheets (host := SampleHost.host) 3
           [mkSheetData "P&L" [Some [Some (mkCell (VStr "Revenue") None None None);
                                     Some (mkCell VNull (Some "=1+2") (Some "currency") None)]];
            mkSheetData "Notes" []] Samples.fresh); [discriminate|].
  apply NoDup_cons. split; [|apply NoDup_singleton].
  intros H. apply list_elem_of_singleton in H. discriminate.
Defined.

End KeepFacts.

(** ** Cells without a live formula, cells visited twice, and the row 0 *)

Module VisitFacts.
Import Text Codec Engine Evaluator Api Predicates EngineFacts GridFacts GrowFacts EvalFacts.

Lemma cellOf_stamp_ne r c v rs r' c' :
  (r', c') <> (r, c) -> cellOf (stamp r c v rs) r' c' = cellOf rs r' c'.
Proof.
  intros Hne. unfold cellOf, stamp.
  destruct (rs !! r) as [row|] eqn:Er; [|reflexivity].
  destruct (readAt row c) as [cell|] eqn:Ec; [|reflexivity].
  destruct (decide (r' = r)) as [->|Hr].
  - rewrite list_lookup_insert_eq by (eapply lookup_lt_Some; eauto). rewrite Er.
    rewrite readAt_writeAt. destruct (decide (c' = c)); [congruence | reflexivity].
  - now rewrite list_lookup_insert_ne by congruence.
Qed.

Lemma includes_append (p x y : string) :
  includes p y = true -> includes p (x +:+ y) = true.
Proof.
  intros H. induction x as [|a x IH]; simpl; [exact H|].
  rewrite IH. apply orb_true_r.
Qed.

Lemma matchSum_plain (s : string) : allS plain s = true -> matchSum s = None.
Proof.
  destruct s as [|a [|b [|c [|d rest]]]]; try reflexivity.
  simpl. intros H. repeat (apply andb_true_iff in H as [? H]).
  assert (E : Ascii.eqb d "(" = false).
  { destruct (Ascii.eqb_spec d "("); [|reflexivity]. subst d. discriminate. }
  rewrite E. now rewrite andb_false_r.
Qed.

Lemma plain_isWord (a : ascii) : plain a = true -> isWord a = true.
Proof. unfold plain, isWord. intros ->. reflexivity. Qed.

Section WithHost.
Context {host : JsHost}.

Section Helpers.
Variable ev : string -> Z -> Z -> M EvalState Val.

(** The first replacement leaves a text of letters and digits as it is. *)
Lemma replaceSums_plain nm (s : string) :
  allS plain s = true ->
  forall fuel st, (String.length s <= fuel)%nat ->
    replaceSums ev fuel nm s st = (st, Ret s).
Proof.
  induction s as [|a s IH]; intros Hs fuel st Hlen.
  - now destruct fuel.
  - destruct fuel as [|k]; [simpl in Hlen; lia|].
    cbn [replaceSums]. rewrite (matchSum_plain _ Hs).
    simpl in Hs. apply andb_true_iff in Hs as [_ Hs]. simpl in Hlen.
    now rewrite (bind_Ret _ _ _ _ _ (IH Hs k st ltac:(lia))).
Qed.

(** The second sees it as one word. *)
Lemma replaceRefs_word nm (s : string) :
  allS plain s = true ->
  forall w, replaceRefs ev nm w s = replaceWord ev nm (w +:+ s).
Proof.
  induction s as [|a s IH]; intros Hs w; simpl.
  - f_equal. clear. induction w; simpl; [reflexivity | now f_equal].
  - simpl in Hs. apply andb_true_iff in Hs as [Ha Hs].
    rewrite (plain_isWord a Ha), (IH Hs). f_equal.
    rewrite CodecFacts.append_assoc. reflexivity.
Qed.

(** A cell that is there and has no live formula, at its first visit: the
    key is added, the grid padded, and the value of the cell returned. *)
Lemma plain_step nm (r c : nat) st s cell :
  JsMap.get nm (sheets (wb st)) = Some s ->
  cellOf (rows s) r c = Some cell ->
  live cell = false ->
  cellKey nm (Z.of_nat r) (Z.of_nat c) ∉ seen st ->
  evaluateCellBody ev nm (Z.of_nat r) (Z.of_nat c) st
  = (mkEvalState (setRows nm (ensureRows (S r) (S c) (rows s)) (wb st))
       ({[cellKey nm (Z.of_nat r) (Z.of_nat c)]} ∪ seen st),
     Ret (orNull (value cell))).
Proof.
  intros Hs Hc Hlive Hnot. rewrite body_unfold, bool_decide_false by exact Hnot.
  unfold liftWb at 1. unfold bind at 1. cbn [wb seen].
  rewrite (getCell_Some _ _ _ _ _ Hs) by lia.
  replace (Z.to_nat (Z.of_nat r + 1)) with (S r) by lia.
  replace (Z.to_nat (Z.of_nat c + 1)) with (S c) by lia.
  rewrite !Nat2Z.id, (cellOf_ensureRows_old _ _ _ _ _ _ Hc).
  unfold afterCell, live in *. destruct (formula cell) as [[|a t]|]; try reflexivity.
  now rewrite Hlive.
Qed.

(** Any visit of a place in a row below 0 throws, once the columns are
    padded. *)
Lemma negative_row_step nm (r c : Z) st s :
  JsMap.get nm (sheets (wb st)) = Some s ->
  r < 0 ->
  exists st', evaluateCellBody ev nm r c st = (st', Throw TypeError).
Proof.
  intros Hs Hr.
  assert (Hget : forall w, JsMap.get nm (sheets w) = Some s ->
            exists w', getCell nm r c w = (w', Throw TypeError)).
  { intros w Hw. unfold getCell, ensureSize. unfold bind at 1.
    rewrite (onRows_Some _ _ _ _ Hw). simpl.
    rewrite (bind_Ret _ _ _ _ _ (getSheet_Some _ _ _ (sheets_setRows _ _ _ _ Hw))).
    apply Z.ltb_lt in Hr. rewrite Hr. eexists. reflexivity. }
  rewrite body_unfold. destruct (bool_decide _).
  - destruct (Hget (wb st) Hs) as [w' E]. eexists.
    apply bind_Throw. unfold liftWb. rewrite E. reflexivity.
  - destruct (Hget (wb st) Hs) as [w' E]. eexists.
    apply bind_Throw. unfold liftWb. cbn [wb]. rewrite E. reflexivity.
Qed.

End Helpers.

Lemma trim_formula (ref : string) :
  isRef ref = true -> trim (String "=" ref) = String "=" ref.
Proof.
  intros H. destruct (isRef_plain ref H) as [Hp Hne].
  pose proof (trim_plain ref Hp) as Ht. unfold trim in *.
  assert (Hs : trimStart ref = ref).
  { destruct ref as [|a s]; [reflexivity|]. simpl in *.
    apply andb_true_iff in Hp as [Ha _]. now rewrite (proj1 (plain_char a Ha)). }
  rewrite Hs in Ht. change (trimStart (String "=" ref)) with (String "=" ref).
  cbn [trimEnd]. rewrite Ht. destruct ref; [contradiction | reflexivity].
Qed.

Lemma evaluateFresh_plain
    (fuel : nat) (w : Workbook) (nm : string) (r c : nat) (s : Sheet) (cell : Cell) :
  JsMap.get nm (sheets w) = Some s ->
  cellOf (rows s) r c = Some cell ->
  live cell = false ->
  evaluateFresh (S fuel) nm (Z.of_nat r) (Z.of_nat c) w
  = (setRows nm (ensureRows (S r) (S c) (rows s)) w, Ret (orNull (value cell))).
Proof.
  intros Hs Hc Hlive. unfold evaluateFresh. rewrite evaluateCell_S.
  rewrite (plain_step (evaluateCell fuel) nm r c (mkEvalState w ∅) s cell Hs Hc Hlive)
    by set_solver.
  reflexivity.
Qed.

(** X17. A cell that is there and has no live formula (none, or a text
    that does not start with [=]) evaluates to its stored value, [null] for
    [undefined]; the workbook is padded to the cell and nothing else in it
    changes. *)
Theorem plain_cell_is_its_value
    (fuel : nat) (w : Workbook) (nm : string) (r c : nat) (s : Sheet) (cell : Cell) :
  JsMap.get nm (sheets w) = Some s ->
  cellOf (rows s) r c = Some cell ->
  live cell = false ->
  evaluateFresh (S fuel) nm (Z.of_nat r) (Z.of_nat c) w
  = (setRows nm (ensureRows (S r) (S c) (rows s)) w, Ret (orNull (value cell))).
Proof. apply evaluateFresh_plain. Qed.

(** X18. A cell whose key is already in the set of visited keys, whatever
    it holds, with or without a formula and whether or not the earlier
    visit is still running, evaluates to ["#REF!"], and that sentinel
    replaces its stored value. *)
Theorem revisit_stores_the_sentinel
    (fuel : nat) (nm : string) (r c : nat) (st : EvalState) (f : option string) :
  Holds (wb st) nm r c f ->
  cellKey nm (Z.of_nat r) (Z.of_nat c) ∈ seen st ->
  exists st',
    evaluateCell (S fuel) nm (Z.of_nat r) (Z.of_nat c) st = (st', Ret (VStr "#REF!")) /\
    seen st' = seen st /\
    Shows (wb st') nm r c (VStr "#REF!").
Proof.
  intros H Hin. rewrite evaluateCell_S.
  destruct (visited_step (evaluateCell fuel) nm r c st f H Hin) as (st' & E & S1 & S2 & _).
  exists st'. auto.
Qed.

Lemma sums_of_A1_twice (ev : string -> Z -> Z -> M EvalState Val) nm st :
  replaceSums ev (String.length (slice1 (trim "=A1+A1"))) nm (slice1 (trim "=A1+A1")) st
  = (st, Ret "A1+A1").
Proof. reflexivity. Qed.

Lemma evalRef_A1_value (ev : string -> Z -> Z -> M EvalState Val) nm st st' v :
  ev nm 0 0 st = (st', Ret v) ->
  exists y, evalRef ev nm "A1" st = (st', Ret y).
Proof.
  intros H. change (evalRef ev nm "A1") with
    (let* v := ev nm 0 0 in
     match v with
     | VStr s => ret (IsStr s)
     | VNum n => ret (IsNum n)
     | VNull => ret (IsNum 0%float)
     | VUndef =>
         let n := numberOf v in ret (IsNum (if is_nan n then 0%float else n))
     end).
  rewrite (bind_Ret _ _ _ _ _ H). destruct v; cbv zeta; unfold ret; eexists; reflexivity.
Qed.

Lemma Shows_store_other nm (r c r' c' : nat) v v' st st' :
  (r', c') <> (r, c) ->
  Shows (wb st) nm r' c' v' ->
  liftWb (setValueOf nm (Z.of_nat r) (Z.of_nat c) v) st = (st', Ret tt) ->
  Shows (wb st') nm r' c' v'.
Proof.
  intros Hne (s & cell & Hs & Hc & Hv). unfold liftWb.
  rewrite (setValueOf_Some _ _ _ _ _ _ Hs), !Nat2Z.id.
  destruct (cellOf (rows s) r c); intros [= <-]. simpl.
  eexists _, cell. split; [apply (sheets_setRows _ _ _ _ Hs)|]. simpl.
  split; [|exact Hv]. now rewrite cellOf_stamp_ne.
Qed.

(** X19. The set of visited keys is never emptied during an evaluation:
    when B1 holds [=A1+A1] and A1 holds a plain value, the second
    reference finds A1 visited. The evaluation of B1 returns ["#REF!"],
    B1 gets that value, and so does A1, whose own value is lost. *)
Theorem repeated_reference_is_flagged (k : nat) (w : Workbook) (nm : string) (s : Sheet)
    (a1 : Cell) :
  JsMap.get nm (sheets w) = Some s ->
  cellOf (rows s) 0 0 = Some a1 ->
  live a1 = false ->
  Holds w nm 0 1 (Some "=A1+A1") ->
  exists w',
    evaluateFresh (S (S k)) nm 0 1 w = (w', Ret (VStr "#REF!")) /\
    Shows w' nm 0 1 (VStr "#REF!") /\
    Shows w' nm 0 0 (VStr "#REF!").
Proof.
  intros Hs Ha1 Hlive HB. unfold evaluateFresh. rewrite evaluateCell_S.
  destruct (live_step (evaluateCell (S k)) nm 0 1 (mkEvalState w ∅) "=A1+A1" HB)
    as (w1 & E & G1 & H1); [set_solver | reflexivity |].
  change (Z.of_nat 0) with 0 in E. change (Z.of_nat 1) with 1 in E. rewrite E. clear E.
  rewrite (bind_Ret _ _ _ _ _ (sums_of_A1_twice _ nm _)).
  set (st1 := mkEvalState w1 ({[cellKey nm 0 1]} ∪ ∅)).
  (* the first reference: A1 is visited and gives its value *)
  destruct (wbGrows_sheet _ _ _ _ G1 Hs) as (s1 & Hs1 & Gs1).
  assert (Ha1' : exists a1', cellOf (rows s1) 0 0 = Some a1' /\ formula a1' = formula a1).
  { apply (grows_cellOf _ _ _ _ _ Gs1 Ha1). }
  destruct Ha1' as (a1' & Ha1' & Hf1).
  assert (Hlive' : live a1' = false) by (unfold live in *; now rewrite Hf1).
  assert (HnA : cellKey nm (Z.of_nat 0) (Z.of_nat 0) ∉ seen st1).
  { subst st1. simpl. intros [Hin|Hin]%elem_of_union; [|now apply not_elem_of_empty in Hin].
    apply elem_of_singleton in Hin. now apply (cellKey_columns nm). }
  pose proof (plain_step (evaluateCell k) nm 0 0 st1 s1 a1' Hs1 Ha1' Hlive' HnA) as E1.
  rewrite <- evaluateCell_S in E1. change (Z.of_nat 0) with 0 in E1.
  set (st2 := mkEvalState (setRows nm (ensureRows 1 1 (rows s1)) (wb st1))
                ({[cellKey nm 0 0]} ∪ seen st1)) in E1.
  (* the second reference: A1 is in the set *)
  assert (H2 : Holds (wb st2) nm 0 0 (formula a1')).
  { eexists _, a1'. split; [apply (sheets_setRows _ _ _ _ Hs1)|].
    split; [now apply cellOf_ensureRows_old | reflexivity]. }
  destruct (visited_step (evaluateCell k) nm 0 0 st2 _ H2) as (st3 & E3 & S3 & V3 & G3);
    [subst st2; simpl; set_solver|].
  change (Z.of_nat 0) with 0 in E3. rewrite <- evaluateCell_S in E3.
  (* the text after the second replacement *)
  assert (Erefs : exists x,
            replaceRefs (evaluateCell (S k)) nm EmptyString "A1+A1" st1
            = (st3, Ret (x +:+ "+#REF!"))).
  { change (replaceRefs (evaluateCell (S k)) nm EmptyString "A1+A1") with
      (let* x := (let* refResult := evalRef (evaluateCell (S k)) nm "A1" in
                  ret (stringOf refResult)) in
       let* rest := (let* refResult := evalRef (evaluateCell (S k)) nm "A1" in
                     ret (stringOf refResult)) in
       ret (x +:+ String "+" rest)).
    assert (Efirst : exists x,
              (let* refResult := evalRef (evaluateCell (S k)) nm "A1" in
               ret (stringOf refResult)) st1 = (st2, Ret x)).
    { destruct (evalRef_A1_value (evaluateCell (S k)) nm _ _ _ E1) as [y Ey].
      eexists. now rewrite (bind_Ret _ _ _ _ _ Ey). }
    destruct Efirst as [x Ex]. exists x. rewrite (bind_Ret _ _ _ _ _ Ex).
    assert (Esecond : (let* refResult := evalRef (evaluateCell (S k)) nm "A1" in
                       ret (stringOf refResult)) st2 = (st3, Ret "#REF!"))
      by now rewrite (bind_Ret _ _ _ _ _ (evalRef_A1 _ nm _ _ _ E3)).
    now rewrite (bind_Ret _ _ _ _ _ Esecond). }
  destruct Erefs as [x Erefs]. rewrite (bind_Ret _ _ _ _ _ Erefs).
  (* B1 is there, with its formula, and gets the sentinel *)
  assert (HB3 : Holds (wb st3) nm 0 1 (Some "=A1+A1")).
  { eapply Holds_grows; [exact G3|].
    eapply Holds_grows; [|exact H1].
    eapply wbGrows_setRows; [exact Hs1 | apply grows_ensureRows]. }
  unfold finishCell.
  assert (Hinc : includes "#REF!" (x +:+ "+#REF!") = true)
    by (apply includes_append; reflexivity).
  rewrite Hinc. cbn [orb].
  destruct (store_step nm 0 1 (VStr "#REF!") st3 _ HB3) as (st4 & E4 & S4 & V4 & G4).
  change (Z.of_nat 0) with 0 in E4. change (Z.of_nat 1) with 1 in E4.
  rewrite (bind_Ret _ _ _ _ _ E4). eexists. split; [reflexivity|]. simpl.
  split; [exact V4|].
  apply (Shows_store_other nm 0 1 0 0 (VStr "#REF!") (VStr "#REF!") st3 st4);
    [discriminate | exact V3 | exact E4].
Qed.

(** X20. A formula that is one reference to the row number 0, as [=B0], is
    not turned into a sentinel: the reference decodes to the row -1, the
    read of that row throws, and the exception leaves [evaluateCell]. *)
Theorem reference_to_row_zero_throws
    (k : nat) (nm ref : string) (r c : nat) (c' : Z) (st : EvalState) :
  Holds (wb st) nm r c (Some (String "=" ref)) ->
  cellKey nm (Z.of_nat r) (Z.of_nat c) ∉ seen st ->
  a1ToRc ref = Ret (-1, c') ->
  exists st',
    evaluateCell (S (S k)) nm (Z.of_nat r) (Z.of_nat c) st = (st', Throw TypeError).
Proof.
  intros H Hnot Href.
  assert (Hisref : isRef ref = true).
  { unfold isRef. unfold a1ToRc in Href. now destruct (matchA1 ref). }
  destruct (isRef_plain ref Hisref) as [Hp _].
  rewrite evaluateCell_S.
  destruct (live_step (evaluateCell (S k)) nm r c st _ H Hnot) as (w1 & E & G1 & H1).
  { now rewrite (trim_formula ref Hisref). }
  rewrite E. clear E. rewrite (trim_formula ref Hisref). cbn [slice1].
  rewrite (bind_Ret _ _ _ _ _ (replaceSums_plain _ nm ref Hp _ _ (le_n _))).
  rewrite (replaceRefs_word _ nm ref Hp). cbn [String.append].
  unfold replaceWord. rewrite Hisref.
  destruct H1 as (s1 & cell1 & Hs1 & _).
  destruct (negative_row_step (evaluateCell k) nm (-1) c'
              (mkEvalState w1 ({[cellKey nm (Z.of_nat r) (Z.of_nat c)]} ∪ seen st)) s1 Hs1)
    as [st' E']; [lia|].
  exists st'. rewrite <- evaluateCell_S in E'.
  apply bind_Throw. apply bind_Throw. unfold evalRef. rewrite Href.
  now apply bind_Throw.
Qed.

End WithHost.

Lemma plain_cell_is_its_value_witness :
  evaluateFresh (host := SampleHost.host) (S 0) "Sheet1" (Z.of_nat 0) (Z.of_nat 1)
    Samples.formatted
  = (setRows "Sheet1" (ensureRows 1 2 (rows (Samples.firstSheet Samples.formatted)))
       Samples.formatted,
     Ret (orNull (value (mkCell (VStr "total") None None None)))).
Proof.
  apply (plain_cell_is_its_value (host := SampleHost.host) 0 Samples.formatted "Sheet1"
           0 1 (Samples.firstSheet Samples.formatted)
           (mkCell (VStr "total") None None None)); reflexivity.
Defined.

Lemma revisit_stores_the_sentinel_witness :
  exists st',
    evaluateCell (host := SampleHost.host) (S 0) "Sheet1" (Z.of_nat 0) (Z.of_nat 0)
      (mkEvalState Samples.repeated {[cellKey "Sheet1" 0 0]})
    = (st', Ret (VStr "#REF!")) /\
    seen st' = seen (mkEvalState Samples.repeated {[cellKey "Sheet1" 0 0]}) /\
    Shows (wb st') "Sheet1" 0 0 (VStr "#REF!").
Proof.
  apply (revisit_stores_the_sentinel (host := SampleHost.host) 0 "Sheet1" 0 0
           (mkEvalState Samples.repeated {[cellKey "Sheet1" 0 0]}) None).
  - eexists _, _. split; [reflexivity|]. split; reflexivity.
  - cbn [seen]. now apply elem_of_singleton_2.
Defined.

Lemma repeated_reference_is_flagged_witness :
  exists w',
    evaluateFresh (host := SampleHost.host) (S (S 0)) "Sheet1" 0 1 Samples.repeated
    = (w', Ret (VStr "#REF!")) /\
    Shows w' "Sheet1" 0 1 (VStr "#REF!") /\
    Shows w' "Sheet1" 0 0 (VStr "#REF!").
Proof.
  apply (repeated_reference_is_flagged (host := SampleHost.host) 0 Samples.repeated
           "Sheet1" (Samples.firstSheet Samples.repeated)
           (mkCell (VNum 5%float) None None None)); try reflexivity.
  eexists _, _. split; [reflexivity|]. split; reflexivity.
Defined.

Lemma reference_to_row_zero_throws_witness :
  exists st',
    evaluateCell (host := SampleHost.host) (S (S 0)) "Sheet1" (Z.of_nat 0) (Z.of_nat 0)
      (mkEvalState Samples.rowZero ∅)
    = (st', Throw TypeError).
Proof.
  apply (reference_to_row_zero_throws (host := SampleHost.host) 0 "Sheet1" "B0" 0 0 1
           (mkEvalState Samples.rowZero ∅)).
  - eexists _, _. split; [reflexivity|]. split; reflexivity.
  - apply not_elem_of_empty.
  - reflexivity.
Defined.

End VisitFacts.

(** ** Checkpoints, the read of a provenance, and the summary *)

Module MarkFacts.
Import Text Codec Engine Evaluator Predicates EngineFacts.

Lemma marks_ret {A} (a : A) : keepsMarks (ret a).
Proof. intros w. split; reflexivity. Qed.

Lemma marks_throw {A} e : keepsMarks (throw (A := A) e).
Proof. intros w. split; reflexivity. Qed.

Lemma marks_get : keepsMarks get.
Proof. intros w. split; reflexivity. Qed.

Lemma marks_bind {A B} (m : M Workbook A) (k : A -> M Workbook B) :
  keepsMarks m -> (forall a, keepsMarks (k a)) -> keepsMarks (bind m k).
Proof.
  intros Hm Hk w. unfold bind. specialize (Hm w).
  destruct (m w) as [w' [a| |]]; simpl in *; try exact Hm.
  destruct (Hk a w') as [H1 H2]. destruct Hm as [H3 H4]. split; congruence.
Qed.

Lemma marks_getSheet nm : keepsMarks (getSheet nm).
Proof. intros w. unfold getSheet. destruct (JsMap.get nm (sheets w)); split; reflexivity. Qed.

Lemma marks_onRows {A} nm (m : M (list Row) A) : keepsMarks (onRows nm m).
Proof.
  intros w. destruct (JsMap.get nm (sheets w)) as [s|] eqn:E.
  - rewrite (onRows_Some _ _ _ _ E). simpl. split; [apply checkpoints_setRows|].
    unfold setRows. now rewrite E.
  - rewrite (onRows_None _ _ _ E). split; reflexivity.
Qed.

Lemma marks_setSheets f : keepsMarks (setSheets f).
Proof. intros w. split; reflexivity. Qed.

Lemma marks_appendEvent o inv summ : keepsMarks (appendEvent o inv summ).
Proof. intros w. split; reflexivity. Qed.

Ltac marks :=
  repeat first
    [ apply marks_ret | apply marks_throw | apply marks_get | apply marks_getSheet
    | apply marks_onRows | apply marks_setSheets | apply marks_appendEvent
    | apply marks_bind; [|intros ?]
    | match goal with
      | |- keepsMarks (if ?b then _ else _) => destruct b
      | |- keepsMarks (match ?x with _ => _ end) => destruct x
      end ].

Lemma marks_snapshot range : keepsMarks (snapshot range).
Proof. unfold snapshot, ensureSize. marks. Qed.

Lemma marks_dispatch o internal : keepsMarks (dispatch o internal).
Proof.
  destruct o; unfold dispatch;
    unfold createSheet, deleteSheet, restoreSheet, setValues, setFormulas, formatRange,
      setCells, linkProvenance, ensureSize;
    repeat first [apply marks_snapshot | progress marks].
Qed.

(** X22. No operation that [dispatch] runs and no [undo] changes the
    checkpoints or the identifier of the workbook, however it ends:
    checkpoints are only ever appended, by [checkpoint], which records the
    length of the log at that time; an [undo] that shortens the log leaves
    the positions recorded before as they are. *)
Theorem checkpoints_are_kept :
  (forall o internal, keepsMarks (dispatch o internal)) /\
  keepsMarks undo /\
  (forall id w,
     checkpoints (checkpoint id w).1
     = checkpoints w ++ [mkCheckpoint id (length (events w))]).
Proof.
  split; [exact marks_dispatch|]. split; [|reflexivity].
  unfold undo. apply marks_bind.
  - intros w. unfold popEvent. destruct (last (events w)); split; reflexivity.
  - intros [ev|]; [|apply marks_ret].
    apply marks_bind; [apply marks_dispatch | intros u; apply marks_ret].
Qed.

End MarkFacts.

Module ApiFacts.
Import Text Codec Engine Evaluator Api Predicates EngineFacts GridFacts GrowFacts CodecEdges.

(** X23. The read of the provenance of a cell is not read-only: on a sheet
    that the workbook has, with an address that decodes, the grid is padded
    to the cell before anything is read. The read then returns the
    provenance of the cell, the empty list when the cell has none; it
    throws for a hole and for the row number 0, after the padding. The
    event log is as it was. *)
Theorem getProvenance_pads
    (w : Workbook) (nm a1 : string) (s : Sheet) (r c : Z) :
  JsMap.get nm (sheets w) = Some s ->
  a1ToRc a1 = Ret (r, c) ->
  let rs := ensureRows (Z.to_nat (r + 1)) (Z.to_nat (c + 1)) (rows s) in
  getProvenance nm a1 w
  = (setRows nm rs w,
     if r <? 0 then Throw TypeError
     else match cellOf rs (Z.to_nat r) (Z.to_nat c) with
          | Some cell => Ret (default [] (provenance cell))
          | None => Throw TypeError
          end) /\
  events (setRows nm rs w) = events w.
Proof.
  intros Hs Ha1 rs. split; [|apply events_setRows].
  pose proof (a1ToRc_cases a1) as Hb. rewrite Ha1 in Hb. destruct Hb as [_ Hc].
  unfold getProvenance. rewrite Ha1.
  destruct (Z.ltb_spec r 0) as [Hr|Hr].
  - apply bind_Throw. unfold getCell, ensureSize. unfold bind at 1.
    rewrite (onRows_Some _ _ _ _ Hs). simpl. fold rs.
    rewrite (bind_Ret _ _ _ _ _ (getSheet_Some _ _ _ (sheets_setRows _ rs _ _ Hs))).
    apply Z.ltb_lt in Hr. now rewrite Hr.
  - unfold bind. rewrite (getCell_Some _ _ _ _ _ Hs Hr Hc). fold rs.
    now destruct (cellOf rs _ _).
Qed.

Lemma getProvenance_pads_witness :
  getProvenance "Sheet1" "A5" Samples.formatted
  = (setRows "Sheet1" (ensureRows 5 1 (rows (Samples.firstSheet Samples.formatted)))
       Samples.formatted,
     Ret []) /\
  events
    (setRows "Sheet1" (ensureRows 5 1 (rows (Samples.firstSheet Samples.formatted)))
       Samples.formatted)
  = events Samples.formatted.
Proof.
  apply (getProvenance_pads Samples.formatted "Sheet1" "A5"
           (Samples.firstSheet Samples.formatted) 4 0); reflexivity.
Defined.

End ApiFacts.

Module AgentFacts.
Import Text Engine Agent.

Lemma foldl_max (rs : list Row) :
  forall a,
    (a <= foldl (fun m r => Nat.max m (length r)) a rs)%nat /\
    (forall row, row ∈ rs ->
       (length row <= foldl (fun m r => Nat.max m (length r)) a rs)%nat) /\
    (foldl (fun m r => Nat.max m (length r)) a rs = a \/
     exists row, row ∈ rs /\ length row = foldl (fun m r => Nat.max m (length r)) a rs).
Proof.
  induction rs as [|r rs IH]; intros a; simpl.
  - split; [lia|]. split; [|now left]. intros row H. inversion H.
  - destruct (IH (Nat.max a (length r))) as (H1 & H2 & H3). split; [lia|]. split.
    + intros row [->|Hin]%elem_of_cons; [lia | now apply H2].
    + destruct H3 as [E|(row & Hin & E)].
      * destruct (Nat.max_spec a (length r)) as [[_ Hm]|[_ Hm]].
        -- right. exists r. split; [apply list_elem_of_here | congruence].
        -- left. congruence.
      * right. exists row. split; [now apply list_elem_of_further | exact E].
Qed.

Section WithHost.
Context {host : JsHost}.

(** X24. The summary of a sheet is bounded whatever the size of the sheet:
    at most 60 rows of at most 20 cells of preview, at most 50 header cells,
    at most 500 labels, numbered from 0 in order. It reports the number of
    rows and, as the number of columns, the length of the longest row. A
    preview cell is the text of [getCellText] for the cell at that place:
    the formula of a cell that has one rather than its value, and the empty
    string where a shorter row has no cell. *)
Theorem summary_is_bounded (s : Sheet) :
  let x := summarizeSheet s in
  sumRows x = length (rows s) /\
  (forall row, row ∈ rows s -> (length row <= sumCols x)%nat) /\
  (rows s <> [] -> exists row, row ∈ rows s /\ length row = sumCols x) /\
  length (previewA1 x) = Nat.min (length (rows s)) 60 /\
  (forall r line, previewA1 x !! r = Some line ->
     length line = Nat.min (sumCols x) 20 /\
     forall c, (c < length line)%nat ->
       line !! c = Some (getCellText (cellOf (rows s) r c))) /\
  (length (headerA1 x) <= 50)%nat /\
  length (labelsA x) = Nat.min (length (rows s)) 500 /\
  (forall i l, labelsA x !! i = Some l -> l.1 = i).
Proof.
  intros x. subst x. unfold summarizeSheet. cbn [sumRows sumCols previewA1 headerA1 labelsA].
  destruct (foldl_max (rows s) 0%nat) as (_ & Hmax & Hsome). fold (colCount (rows s)) in *.
  split; [reflexivity|]. split; [exact Hmax|]. split.
  { intros Hne. destruct Hsome as [E|H]; [|exact H].
    destruct (rows s) as [|row rs] eqn:Er; [contradiction|].
    exists row. split; [apply list_elem_of_here|].
    specialize (Hmax row (list_elem_of_here _ _)). lia. }
  split; [now rewrite length_map, length_seq|]. split.
  { intros r line Hline. rewrite list_lookup_fmap in Hline.
    destruct (seq 0 _ !! r) as [r'|] eqn:Er; [|discriminate].
    apply lookup_seq in Er as [-> _]. simpl in Hline. injection Hline as <-.
    rewrite length_map, length_seq. split; [reflexivity|].
    intros c Hc. rewrite list_lookup_fmap, lookup_seq_lt by exact Hc. reflexivity. }
  split.
  { destruct (0 <? length (rows s))%nat; simpl; [|lia].
    rewrite length_map, length_seq. lia. }
  split; [now rewrite length_map, length_seq|].
  intros i l Hl. rewrite list_lookup_fmap in Hl.
  destruct (seq 0 _ !! i) as [i'|] eqn:Ei; [|discriminate].
  apply lookup_seq in Ei as [-> _]. simpl in Hl. now injection Hl as <-.
Qed.

End WithHost.
End AgentFacts.

(** ** Ranges written backwards, and [setCells] *)

Module RangeFacts.
Import Text Codec Engine Evaluator Predicates EngineFacts GridFacts UndoFacts JsMapFacts
  EvalFacts WriteFacts.

Lemma spanS_until (p : ascii -> bool) (l t : string) (a : ascii) :
  allS p l = true -> p a = false -> spanS p (l +:+ String a t) = (l, String a t).
Proof.
  intros Hl Ha. induction l as [|b l IH]; simpl in *; [now rewrite Ha|].
  apply andb_true_iff in Hl as [Hb Hl]. now rewrite Hb, (IH Hl).
Qed.

Lemma matchRange_join (pa pb : string) :
  isRef pa = true -> isRef pb = true ->
  matchRange (pa +:+ String ":" pb) = Some (pa, pb).
Proof.
  intros Ha Hb. unfold matchRange. destruct (isRef_plain pa Ha) as [Hp _].
  rewrite (spanS_until _ pa pb ":"); [now rewrite Ha, Hb | | reflexivity].
  eapply allS_impl; [|exact Hp]. intros a Hpa.
  now rewrite (proj2 (proj2 (plain_char a Hpa))).
Qed.

Section WithHost.
Context {host : JsHost}.

(** X25. A range written from its bottom right corner to its top left one
    sums the same cells, in the same order, as the range written the usual
    way: the corners are sorted before the loops. *)
Theorem reversed_range_sums_the_same
    (ev : string -> Z -> Z -> M EvalState Val) (nm pa pb : string) (st : EvalState) :
  isRef pa = true -> isRef pb = true ->
  sumRange ev nm (pb +:+ String ":" pa) st = sumRange ev nm (pa +:+ String ":" pb) st.
Proof.
  intros Ha Hb. unfold sumRange.
  rewrite (matchRange_join pa pb Ha Hb), (matchRange_join pb pa Hb Ha).
  unfold isRef, a1ToRc in *.
  destruct (matchA1 pa) as [[a1 a2]|]; [|discriminate].
  destruct (matchA1 pb) as [[b1 b2]|]; [|discriminate].
  cbv zeta.
  now rewrite (Z.min_comm (parseInt b2 - 1)), (Z.max_comm (parseInt b2 - 1)),
    (Z.min_comm (colValue 0 (toUpperCase b1) - 1)),
    (Z.max_comm (colValue 0 (toUpperCase b1) - 1)).
Qed.

End WithHost.

Lemma reversed_range_sums_the_same_witness :
  sumRange (host := SampleHost.host) (evaluateCell (host := SampleHost.host) 1) "Sheet1"
    ("C1" +:+ String ":" "A1") (mkEvalState Samples.mixed ∅)
  = sumRange (host := SampleHost.host) (evaluateCell (host := SampleHost.host) 1) "Sheet1"
      ("A1" +:+ String ":" "C1") (mkEvalState Samples.mixed ∅).
Proof.
  apply (reversed_range_sums_the_same (host := SampleHost.host)
           (evaluateCell (host := SampleHost.host) 1) "Sheet1" "A1" "C1"
           (mkEvalState Samples.mixed ∅)); reflexivity.
Defined.

Lemma writeLine_putLine (line : list Cell) :
  forall j row, writeLine j line row = putLine (fun x _ => x) j line row.
Proof. induction line as [|x line IH]; intros j row; simpl; [reflexivity | apply IH]. Qed.

Lemma writeGrid_putGrid co (grid : list (list Cell)) :
  forall i rs, writeGrid co i grid rs = putGrid (fun x _ => x) co i grid rs.
Proof.
  induction grid as [|line grid IH]; intros i rs; simpl; [reflexivity|].
  destruct (rs !! i); [|reflexivity]. now rewrite writeLine_putLine, IH.
Qed.

(** X26. On a sheet that the workbook has, with a grid of cells that has
    no more rows than the padded grid has from the first row of the range
    on, [setCells] returns and puts the given cell objects at the places
    they cover from the top left corner of the range; every other place
    holds what the padded grid held. Its event has [noop] for inverse: the
    [undo] that follows removes that event and leaves the cells written. *)
Theorem setCells_writes
    (w : Workbook) (range : RangeRef) (cells : list (list Cell)) (s : Sheet) :
  JsMap.get (sheet range) (sheets w) = Some s ->
  (r1 range + length cells <= Nat.max (length (rows s)) (r2 range + 1))%nat ->
  exists w1 s1,
    setCells range cells w = (w1, Ret tt) /\
    JsMap.get (sheet range) (sheets w1) = Some s1 /\
    (forall i j line x,
       cells !! i = Some line -> line !! j = Some x ->
       cellOf (rows s1) (r1 range + i) (c1 range + j) = Some x) /\
    (forall r c,
       covers (r1 range) (c1 range) cells r c = false ->
       cellOf (rows s1) r c
       = cellOf (ensureRows (r2 range + 1) (c2 range + 1) (rows s)) r c) /\
    undo w1
    = (mkWorkbook (wbId w1) (sheets w1) (checkpoints w1) (events w),
       Ret (Some (mkEvent (OpSetCells range cells) OpNoop "setCells"))).
Proof.
  intros Hs Hfit.
  set (rs := ensureRows (r2 range + 1) (c2 range + 1) (rows s)).
  assert (Hlen : (r1 range + length cells <= length rs)%nat)
    by (subst rs; now rewrite length_ensureRows).
  assert (E : setCells range cells w
              = (mkWorkbook (wbId w)
                   (JsMap.set (sheet range)
                      (mkSheet (name s) (writeGrid (c1 range) (r1 range) cells rs))
                      (sheets w))
                   (checkpoints w)
                   (events w ++ [mkEvent (OpSetCells range cells) OpNoop "setCells"]),
                 Ret tt)).
  { unfold setCells.
    rewrite (bind_Ret _ _ _ _ _ (getSheet_Some _ _ _ Hs)).
    unfold ensureSize. unfold bind at 1. rewrite (onRows_Some _ _ _ _ Hs). simpl.
    fold rs. pose proof (sheets_setRows _ rs _ _ Hs) as Hs1.
    unfold bind at 1. rewrite (onRows_Some _ _ _ _ Hs1). simpl.
    rewrite overGrid_setCellAt by exact Hlen. simpl.
    rewrite setRows_setRows. unfold setRows. rewrite Hs. reflexivity. }
  eexists _, _. split; [exact E|]. split; [apply get_set_eq|]. cbn [rows].
  rewrite writeGrid_putGrid. split; [|split].
  - intros i j line x Hline Hx.
    now rewrite (cellOf_putGrid_in _ _ _ _ _ _ _ _ _ Hlen Hline Hx).
  - intros r c Hout. now apply cellOf_putGrid_out.
  - unfold undo. cbn [events sheets checkpoints wbId].
    now rewrite (bind_Ret _ _ _ _ _ (popEvent_snoc _ _ _ _ _)).
Qed.

Lemma setCells_writes_witness :
  exists w1 s1,
    setCells Samples.cellA1 [[mkCell (VNum 1%float) (Some "=1") None None]] Samples.formatted
    = (w1, Ret tt) /\
    JsMap.get "Sheet1" (sheets w1) = Some s1 /\
    (forall i j line x,
       [[mkCell (VNum 1%float) (Some "=1") None None]] !! i = Some line ->
       line !! j = Some x ->
       cellOf (rows s1) (0 + i) (0 + j) = Some x) /\
    (forall r c,
       covers 0 0 [[mkCell (VNum 1%float) (Some "=1") None None]] r c = false ->
       cellOf (rows s1) r c
       = cellOf (ensureRows (0 + 1) (0 + 1) (rows (Samples.firstSheet Samples.formatted)))
           r c) /\
    undo w1
    = (mkWorkbook (wbId w1) (sheets w1) (checkpoints w1) (events Samples.formatted),
       Ret (Some (mkEvent
                    (OpSetCells Samples.cellA1
                       [[mkCell (VNum 1%float) (Some "=1") None None]])
                    OpNoop "setCells"))).
Proof.
  apply (setCells_writes Samples.formatted Samples.cellA1
           [[mkCell (VNum 1%float) (Some "=1") None None]]
           (Samples.firstSheet Samples.formatted)); [reflexivity | simpl; lia].
Defined.

End RangeFacts.

(** ** The recomputation of a workbook without formulas *)

Module SquareFacts.
Import Text Codec Engine Evaluator Predicates EngineFacts GridFacts GrowFacts EvalFacts
  JsMapFacts VisitFacts.

(** *** The map of sheets as a list of entries *)

Lemma get_at {V} (m : JsMap.t V) i k v :
  NoDup (map fst m) -> m !! i = Some (k, v) -> JsMap.get k m = Some v.
Proof.
  revert i. induction m as [|[k' v'] m IH]; intros i Hnd Hi; [discriminate|].
  simpl in Hnd. apply NoDup_cons in Hnd as [Hnot Hnd]. simpl.
  destruct i as [|i]; simpl in Hi.
  - injection Hi as -> ->. now rewrite String.eqb_refl.
  - destruct (String.eqb_spec k' k) as [->|Hne]; [|now apply (IH i)].
    exfalso. apply Hnot. apply list_elem_of_fmap. exists (k, v).
    split; [reflexivity|]. eapply list_elem_of_lookup_2; eauto.
Qed.

Lemma set_at {V} (m : JsMap.t V) i k v v' :
  NoDup (map fst m) -> m !! i = Some (k, v) -> JsMap.set k v' m = <[i := (k, v')]> m.
Proof.
  revert i. induction m as [|[k0 v0] m IH]; intros i Hnd Hi; [discriminate|].
  simpl in Hnd. apply NoDup_cons in Hnd as [Hnot Hnd]. simpl.
  destruct i as [|i]; simpl in Hi.
  - injection Hi as -> ->. now rewrite String.eqb_refl.
  - destruct (String.eqb_spec k0 k) as [->|Hne]; [|simpl; now rewrite (IH i)].
    exfalso. apply Hnot. apply list_elem_of_fmap. exists (k, v).
    split; [reflexivity|]. eapply list_elem_of_lookup_2; eauto.
Qed.

Lemma setRows_at w i k s rs :
  NoDup (map fst (sheets w)) -> sheets w !! i = Some (k, s) ->
  setRows k rs w = withEntry i (k, mkSheet (name s) rs) w.
Proof.
  intros Hnd Hi. unfold setRows, withEntry.
  rewrite (get_at _ _ _ _ Hnd Hi). now rewrite (set_at _ _ _ _ _ Hnd Hi).
Qed.

Lemma withEntry_twice i e1 e2 w : withEntry i e2 (withEntry i e1 w) = withEntry i e2 w.
Proof. unfold withEntry. cbn [sheets wbId checkpoints events]. now rewrite list_insert_insert_eq. Qed.

Lemma withEntry_same i e w : sheets w !! i = Some e -> withEntry i e w = w.
Proof.
  intros H. unfold withEntry. unfold JsMap.t in *.
  rewrite list_insert_id by exact H. now destruct w.
Qed.

Lemma keys_withEntry i k s s' w :
  sheets w !! i = Some (k, s) ->
  map fst (sheets (withEntry i (k, s') w)) = map fst (sheets w).
Proof.
  intros H. unfold withEntry. simpl. rewrite list_fmap_insert. simpl.
  apply list_insert_id. unfold JsMap.t in *. now rewrite list_lookup_fmap, H.
Qed.

Lemma lookup_withEntry i e w :
  (i < length (sheets w))%nat -> sheets (withEntry i e w) !! i = Some e.
Proof. intros H. unfold withEntry. simpl. now apply list_lookup_insert_eq. Qed.

Lemma take_drop_insert {A} (f : A -> A) (l : list A) :
  forall j e, l !! j = Some e ->
    take (S j) (<[j := f e]> l) ++ map f (drop (S j) (<[j := f e]> l))
    = take j l ++ map f (drop j l).
Proof.
  induction l as [|x l IH]; intros [|j] e H; try discriminate.
  - simpl in H. injection H as ->. reflexivity.
  - simpl in H. specialize (IH j e H). simpl in *. now f_equal.
Qed.

(** *** Padding *)

Lemma padRow_enough k (row : Row) : (k <= length row)%nat -> padRow k row = row.
Proof.
  intros H. unfold padRow. replace (k - length row)%nat with 0%nat by lia. apply app_nil_r.
Qed.

Lemma padRow_padRow a b (row : Row) : padRow a (padRow b row) = padRow (Nat.max a b) row.
Proof.
  unfold padRow. rewrite length_app, length_replicate, <- app_assoc. f_equal.
  rewrite <- replicate_add. f_equal. lia.
Qed.

Lemma map_padRow_enough k (rs : list Row) :
  (forall row, row ∈ rs -> (k <= length row)%nat) -> map (padRow k) rs = rs.
Proof.
  intros H. induction rs as [|row rs IH]; simpl; [reflexivity|].
  rewrite padRow_enough by (apply H; apply list_elem_of_here).
  rewrite IH; [reflexivity|]. intros r Hr. apply H. now apply list_elem_of_further.
Qed.

Lemma map_padRow_twice a b (rs : list Row) :
  map (padRow a) (map (padRow b) rs) = map (padRow (Nat.max a b)) rs.
Proof.
  rewrite <- list_fmap_compose. apply list_fmap_ext. intros i row _. apply padRow_padRow.
Qed.

Lemma ensureRows_inside n k (rs : list Row) :
  (n <= length rs)%nat -> ensureRows n k rs = map (padRow k) rs.
Proof.
  intros H. unfold ensureRows. replace (n - length rs)%nat with 0%nat by lia.
  simpl. now rewrite app_nil_r.
Qed.

Lemma plainGrid_padRow k rs : plainGrid rs -> plainGrid (map (padRow k) rs).
Proof.
  intros H row x Hrow Hx. apply list_elem_of_fmap in Hrow as (row0 & -> & Hrow0).
  unfold padRow in Hx. apply elem_of_app in Hx as [Hx|Hx]; [now apply (H row0)|].
  apply elem_of_replicate in Hx as [-> _]. exists defaultCell. split; reflexivity.
Qed.

Lemma plainGrid_cell rs r c row :
  plainGrid rs -> rs !! r = Some row -> (c < length row)%nat ->
  exists cell, cellOf rs r c = Some cell /\ live cell = false.
Proof.
  intros H Hrow Hc. destruct (lookup_lt_is_Some_2 row c Hc) as [x Hx].
  destruct (H row x) as (cell & -> & Hlive).
  - eapply list_elem_of_lookup_2; eauto.
  - eapply list_elem_of_lookup_2; eauto.
  - exists cell. split; [|exact Hlive]. unfold cellOf, readAt. now rewrite Hrow, Hx.
Qed.

Lemma widest_ge rs row : row ∈ rs -> (length row <= widest rs)%nat.
Proof.
  induction rs as [|r rs IH]; intros H; [inversion H|].
  simpl. apply elem_of_cons in H as [->|H]; [lia|]. specialize (IH H). lia.
Qed.

Lemma widest_drop rs r row :
  rs !! r = Some row -> widest (drop r rs) = Nat.max (length row) (widest (drop (S r) rs)).
Proof.
  intros H. rewrite (drop_S _ _ _ H). reflexivity.
Qed.

Lemma widest_drop_le rs r : (widest (drop r rs) <= widest rs)%nat.
Proof.
  revert r. induction rs as [|row rs IH]; intros [|r]; simpl; try lia.
  specialize (IH r). lia.
Qed.

Lemma widest_padRow k rs :
  widest (map (padRow k) rs) = match rs with [] => 0%nat | _ => Nat.max k (widest rs) end.
Proof.
  induction rs as [|row rs IH]; [reflexivity|].
  cbn [map widest foldr]. fold (widest (map (padRow k) rs)). fold (widest rs).
  rewrite IH, length_padRow. destruct rs; simpl; lia.
Qed.

Section WithHost.
Context {host : JsHost}.

(** *** The loop over the cells of a row *)

Lemma colsLoop_plain (fuel i r : nat) (k : string) :
  forall (d rounds c : nat) (rs : list Row) (row : Row) (w : Workbook),
    NoDup (map fst (sheets w)) ->
    sheets w !! i = Some (k, mkSheet k rs) ->
    rs !! r = Some row ->
    length row = (c + d)%nat ->
    (forall row', row' ∈ rs -> (c <= length row')%nat) ->
    plainGrid rs ->
    (d < rounds)%nat ->
    colsLoop rounds (S fuel) i r c w
    = (withEntry i (k, mkSheet k (map (padRow (c + d)) rs)) w, Ret tt).
Proof.
  induction d as [|d IH]; intros rounds c rs row w Hnd Hi Hrow Hlen Hwide Hplain Hfuel;
    destruct rounds as [|n]; try lia; simpl; unfold sheetNo; rewrite Hi; simpl; rewrite Hrow.
  - replace (c <? length row)%nat with false by (symmetry; apply Nat.ltb_ge; lia).
    rewrite Nat.add_0_r, (map_padRow_enough c rs Hwide).
    now rewrite (withEntry_same i _ w Hi).
  - replace (c <? length row)%nat with true by (symmetry; apply Nat.ltb_lt; lia).
    destruct (plainGrid_cell rs r c row Hplain Hrow ltac:(lia)) as (cell & Hcell & Hlive).
    pose proof (get_at _ _ _ _ Hnd Hi) as Hget.
    unfold bind.
    rewrite (evaluateFresh_plain fuel w k r c _ cell Hget Hcell Hlive).
    cbn [rows name].
    rewrite ensureRows_inside by (apply lookup_lt_Some in Hrow; lia).
    rewrite (setRows_at w i k _ _ Hnd Hi). cbn [name].
    set (w1 := withEntry i (k, mkSheet k (map (padRow (S c)) rs)) w).
    assert (Hi1 : sheets w1 !! i = Some (k, mkSheet k (map (padRow (S c)) rs))).
    { apply lookup_withEntry. eapply lookup_lt_Some; eauto. }
    rewrite (IH n (S c) (map (padRow (S c)) rs) (padRow (S c) row) w1).
    + subst w1. rewrite withEntry_twice, map_padRow_twice.
      now replace (Nat.max (S c + d) (S c)) with (c + S d)%nat by lia.
    + subst w1. now rewrite (keys_withEntry i k _ _ w Hi).
    + exact Hi1.
    + now rewrite list_lookup_fmap, Hrow.
    + rewrite length_padRow. lia.
    + intros row' Hr'. apply list_elem_of_fmap in Hr' as (row0 & -> & _).
      rewrite length_padRow. lia.
    + now apply plainGrid_padRow.
    + lia.
Qed.

(** *** The loop over the rows of a sheet *)

Lemma rowsLoop_S (n fuel i r : nat) (w : Workbook) (s : Sheet) :
  sheetNo i w = Some s ->
  rowsLoop (S n) fuel i r w
  = if (r <? length (rows s))%nat
    then (colsLoop fuel fuel i r 0 ;; rowsLoop n fuel i (S r)) w
    else (w, Ret tt).
Proof. intros H. cbn [rowsLoop]. now rewrite H. Qed.

Lemma rowsLoop_plain (fuel i : nat) (k : string) :
  forall (e rounds r : nat) (rs : list Row) (w : Workbook),
    NoDup (map fst (sheets w)) ->
    sheets w !! i = Some (k, mkSheet k rs) ->
    length rs = (r + e)%nat ->
    plainGrid rs ->
    (widest rs <= fuel)%nat ->
    (e < rounds)%nat ->
    rowsLoop rounds (S fuel) i r w
    = (withEntry i (k, mkSheet k (map (padRow (widest (drop r rs))) rs)) w, Ret tt).
Proof.
  induction e as [|e IH]; intros rounds r rs w Hnd Hi Hlen Hplain Hfuel Hrounds;
    destruct rounds as [|n]; try lia;
    rewrite (rowsLoop_S n (S fuel) i r w (mkSheet k rs))
      by (unfold sheetNo; now rewrite Hi);
    cbn [rows].
  - replace (r <? length rs)%nat with false by (symmetry; apply Nat.ltb_ge; lia).
    rewrite drop_ge by lia. simpl.
    rewrite (map_padRow_enough 0 rs) by (intros; lia).
    now rewrite (withEntry_same i _ w Hi).
  - replace (r <? length rs)%nat with true by (symmetry; apply Nat.ltb_lt; lia).
    destruct (lookup_lt_is_Some_2 rs r ltac:(lia)) as [row Hrow].
    assert (HL : (length row <= fuel)%nat).
    { pose proof (widest_ge rs row (list_elem_of_lookup_2 _ _ _ Hrow)). lia. }
    unfold bind.
    rewrite (colsLoop_plain fuel i r k (length row) (S fuel) 0 rs row w Hnd Hi Hrow)
      by (auto; try lia; intros; lia).
    cbn [Nat.add].
    set (rs1 := map (padRow (length row)) rs).
    set (w1 := withEntry i (k, mkSheet k rs1) w).
    assert (Hi1 : sheets w1 !! i = Some (k, mkSheet k rs1)).
    { apply lookup_withEntry. eapply lookup_lt_Some; eauto. }
    assert (Hne : rs <> []) by (intros ->; discriminate).
    rewrite (IH n (S r) rs1 w1).
    + subst w1 rs1. rewrite withEntry_twice, map_padRow_twice.
      rewrite <- fmap_drop, widest_padRow, (widest_drop rs r row Hrow).
      assert (E : (match drop (S r) rs with
                   | [] => 0
                   | _ :: _ => Nat.max (length row) (widest (drop (S r) rs))
                   end `max` length row
                   = Nat.max (length row) (widest (drop (S r) rs)))%nat)
        by (destruct (drop (S r) rs); simpl; lia).
      now rewrite E.
    + subst w1. now rewrite (keys_withEntry i k _ _ w Hi).
    + exact Hi1.
    + subst rs1. rewrite length_map. lia.
    + now apply plainGrid_padRow.
    + subst rs1. rewrite widest_padRow. destruct rs; [contradiction | lia].
    + lia.
Qed.

(** *** The loop over the sheets *)

Lemma forEach_rowsLoop (fuel : nat) :
  forall (m j : nat) (w : Workbook),
    NoDup (map fst (sheets w)) ->
    length (sheets w) = (j + m)%nat ->
    (forall i k s, (j <= i)%nat -> sheets w !! i = Some (k, s) ->
       name s = k /\ plainGrid (rows s) /\
       (length (rows s) <= fuel)%nat /\ (widest (rows s) <= fuel)%nat) ->
    forEach (seq j m) (fun i => rowsLoop (S fuel) (S fuel) i 0) w
    = (mkWorkbook (wbId w)
         (take j (sheets w) ++ map squareSheet (drop j (sheets w)))
         (checkpoints w) (events w), Ret tt).
Proof.
  induction m as [|m IH]; intros j w Hnd Hlen Hall; cbn [seq forEach].
  - unfold JsMap.t in *. rewrite drop_ge, take_ge by lia. simpl. rewrite app_nil_r.
    now destruct w.
  - unfold JsMap.t in *.
    destruct (lookup_lt_is_Some_2 (sheets w) j ltac:(lia)) as [[k s] Hj].
    destruct (Hall j k s (le_n _) Hj) as (Hname & Hplain & Hrows & Hwide).
    destruct s as [nm rs]. simpl in Hname, Hplain, Hrows, Hwide. subst nm.
    unfold bind.
    rewrite (rowsLoop_plain fuel j k (length rs) (S fuel) 0 rs w Hnd Hj)
      by (auto; lia).
    rewrite drop_0.
    set (w1 := withEntry j (k, mkSheet k (map (padRow (widest rs)) rs)) w).
    rewrite (IH (S j) w1).
    + subst w1. unfold withEntry. cbn [sheets wbId checkpoints events].
      do 2 f_equal. apply (take_drop_insert squareSheet (sheets w) j (k, mkSheet k rs) Hj).
    + subst w1. now rewrite (keys_withEntry j k _ _ w Hj).
    + subst w1. unfold withEntry. cbn [sheets]. rewrite length_insert. lia.
    + intros i k' s' Hi Hs'. subst w1. unfold withEntry in Hs'. cbn [sheets] in Hs'.
      rewrite list_lookup_insert_ne in Hs' by lia. apply (Hall i k' s'); [lia | exact Hs'].
Qed.

Lemma evaluateAll_plain (fuel : nat) (w : Workbook) :
  NoDup (map fst (sheets w)) ->
  (forall k s, (k, s) ∈ sheets w ->
     name s = k /\ plainGrid (rows s) /\
     (length (rows s) < fuel)%nat /\ (widest (rows s) < fuel)%nat) ->
  evaluateAll fuel w
  = (mkWorkbook (wbId w) (map squareSheet (sheets w)) (checkpoints w) (events w), Ret tt).
Proof.
  intros Hnd Hall. unfold evaluateAll, bind, get. cbn [fst snd].
  destruct fuel as [|f].
  { destruct (sheets w) as [|[k s] l] eqn:E; [now destruct w; simpl in *; subst|].
    destruct (Hall k s (list_elem_of_here _ _)) as (_ & _ & H & _). lia. }
  rewrite (forEach_rowsLoop f (JsMap.size (sheets w)) 0 w Hnd eq_refl).
  - now rewrite take_0, drop_0.
  - intros i k s _ Hi. destruct (Hall k s (list_elem_of_lookup_2 _ _ _ Hi))
      as (H1 & H2 & H3 & H4). repeat split; auto; lia.
Qed.

(** X27. On a workbook whose sheets are stored under their names, have no
    hole and no live formula, the recomputation returns once its fuel
    exceeds the numbers of rows and of columns. It leaves every cell as it
    was and makes every grid rectangular: each row of a sheet is padded
    with default cells to the length of the longest row of that sheet.
    The log and the checkpoints are as they were. *)
Theorem evaluateAll_squares_plain_sheets (fuel : nat) (w : Workbook) :
  NoDup (map fst (sheets w)) ->
  (forall k s, (k, s) ∈ sheets w ->
     name s = k /\ plainGrid (rows s) /\
     (length (rows s) < fuel)%nat /\ (widest (rows s) < fuel)%nat) ->
  evaluateAll fuel w
  = (mkWorkbook (wbId w) (map squareSheet (sheets w)) (checkpoints w) (events w), Ret tt).
Proof. apply evaluateAll_plain. Qed.

End WithHost.

Lemma evaluateAll_squares_plain_sheets_witness :
  evaluateAll (host := SampleHost.host) 4 Samples.ragged
  = (mkWorkbook (wbId Samples.ragged) (map squareSheet (sheets Samples.ragged))
       (checkpoints Samples.ragged) (events Samples.ragged), Ret tt).
Proof.
  apply (evaluateAll_squares_plain_sheets (host := SampleHost.host) 4 Samples.ragged).
  - apply NoDup_singleton.
  - intros k s Hin. apply list_elem_of_singleton in Hin. injection Hin as -> ->.
    split; [reflexivity|]. split; [|split; simpl; lia].
    intros row x Hrow Hx. simpl in Hrow.
    repeat (apply elem_of_cons in Hrow as [->|Hrow]);
      [| |now apply not_elem_of_nil in Hrow];
      repeat (apply elem_of_cons in Hx as [->|Hx]);
      try (now apply not_elem_of_nil in Hx);
      eexists; split; reflexivity.
Defined.

End SquareFacts.

(** ** What [undo] does not reach *)

Module UndoScope.
Import Text Codec Engine Predicates EngineFacts GridFacts UndoFacts JsMapFacts WriteFacts
  RangeFacts.

(** [undo] of an event whose inverse puts back the copy of a grid [rs]: the
    rows that it leaves. *)
Lemma undo_rows id sh cps l range o summ (rs : list Row) s1 :
  JsMap.get (sheet range) sh = Some s1 ->
  undo (mkWorkbook id sh cps
          (l ++ [mkEvent o (OpSetCells range (copyOf range rs)) summ]))
  = (mkWorkbook id
       (JsMap.set (sheet range)
          (mkSheet (name s1)
             (writeGrid (c1 range) (r1 range) (copyOf range rs)
                (ensureRows (r2 range + 1) (c2 range + 1) (rows s1)))) sh)
       cps
       (l ++ [mkEvent (OpSetCells range (copyOf range rs)) OpNoop "setCells"]),
     Ret (Some (mkEvent o (OpSetCells range (copyOf range rs)) summ))).
Proof.
  intros Hs1.
  set (w3 := mkWorkbook id sh cps l).
  set (rs4 := ensureRows (r2 range + 1) (c2 range + 1) (rows s1)).
  assert (Hs3 : JsMap.get (sheet range) (sheets w3) = Some s1) by exact Hs1.
  unfold undo. rewrite (bind_Ret _ _ _ _ _ (popEvent_snoc _ _ _ _ _)).
  cbn [inverse dispatch]. fold w3. unfold bind at 1.
  unfold setCells.
  rewrite (bind_Ret _ _ _ _ _ (getSheet_Some _ _ _ Hs3)).
  unfold ensureSize. unfold bind at 1. rewrite (onRows_Some _ _ _ _ Hs3). simpl.
  fold rs4.
  pose proof (sheets_setRows _ rs4 _ _ Hs3) as Hs4. simpl in Hs4.
  unfold bind at 1. rewrite (onRows_Some _ _ _ _ Hs4). simpl.
  assert (Hgrid : overGrid range (copyOf range rs) setCellAt rs4
                  = (writeGrid (c1 range) (r1 range) (copyOf range rs) rs4, Ret tt)).
  { destruct (decide (r1 range <= r2 range)%nat) as [Hwf|Hwf].
    - apply overGrid_setCellAt. rewrite length_copyOf. subst rs4.
      rewrite length_ensureRows. lia.
    - pose proof (length_copyOf range rs) as Hn.
      replace (S (r2 range) - r1 range)%nat with 0%nat in Hn by lia.
      now destruct (copyOf range rs). }
  rewrite Hgrid.
  simpl. rewrite setRows_setRows. unfold setRows. rewrite Hs3. reflexivity.
Qed.

Lemma covers_copyOf range rs r c :
  (r2 range < r \/ c2 range < c)%nat ->
  covers (r1 range) (c1 range) (copyOf range rs) r c = false.
Proof.
  intros Hout. unfold covers, copyOf.
  destruct (Nat.leb_spec (r1 range) r) as [Hr|Hr]; [|reflexivity].
  destruct (Nat.leb_spec (c1 range) c) as [Hc|Hc]; [|reflexivity]. simpl.
  rewrite list_lookup_fmap.
  destruct (fromTo _ _ !! _) as [r'|] eqn:E; [|reflexivity]. simpl.
  rewrite length_map. unfold fromTo in *. rewrite length_seq.
  apply lookup_seq in E as [_ Hlt]. apply Nat.ltb_ge. lia.
Qed.

(** X28. The snapshot that [setValues] takes covers the range, while its
    writes cover the grid of values: when the values reach beyond the
    bottom right corner of the range, [undo] does not take back what was
    written there. A place that the values cover below or to the right of
    the range holds, after [setValues] and [undo], the value written. *)
Theorem undo_misses_writes_outside_the_range
    (w : Workbook) (range : RangeRef) (values : list (list Val))
    (prov : option (list CellProvenance)) (s : Sheet) (i j : nat)
    (line : list Val) (v : Val) :
  JsMap.get (sheet range) (sheets w) = Some s ->
  (r1 range + length values <= Nat.max (length (rows s)) (r2 range + 1))%nat ->
  values !! i = Some line -> line !! j = Some v ->
  (r2 range < r1 range + i \/ c2 range < c1 range + j)%nat ->
  exists w1 w2 ev s2,
    setValues range values prov w = (w1, Ret tt) /\
    undo w1 = (w2, Ret (Some ev)) /\
    op ev = OpSetValues range values prov /\
    JsMap.get (sheet range) (sheets w2) = Some s2 /\
    cellOf (rows s2) (r1 range + i) (c1 range + j)
    = Some (valueCell prov v
              (orDefault (cellOf (rows s) (r1 range + i) (c1 range + j)))).
Proof.
  intros Hs Hfit Hline Hv Hout.
  pose proof (setValues_result range values prov w s Hs Hfit) as E. cbv zeta in E.
  set (rs := ensureRows (r2 range + 1) (c2 range + 1) (rows s)) in *.
  set (rs3 := putGrid (valueCell prov) (c1 range) (r1 range) values rs) in *.
  assert (Hlen : (r1 range + length values <= length rs)%nat)
    by (subst rs; now rewrite length_ensureRows).
  assert (Hcell : cellOf rs3 (r1 range + i) (c1 range + j)
                  = Some (valueCell prov v
                            (orDefault (cellOf (rows s) (r1 range + i) (c1 range + j))))).
  { subst rs3. rewrite (cellOf_putGrid_in _ _ _ _ _ _ _ _ _ Hlen Hline Hv).
    subst rs. now rewrite orDefault_ensureRows. }
  eexists _, _, _, _. split; [exact E|]. split.
  { apply (undo_rows (wbId w) _ (checkpoints w) (events w) range _ _ rs
             (mkSheet (name s) rs3)). apply get_set_eq. }
  split; [reflexivity|]. split; [apply get_set_eq|]. cbn [rows].
  destruct (decide (r1 range <= r2 range)%nat) as [Hwf|Hwf].
  - rewrite writeGrid_putGrid, cellOf_putGrid_out.
    + now apply cellOf_ensureRows_old.
    + rewrite length_copyOf, length_ensureRows. lia.
    + now apply covers_copyOf.
  - pose proof (length_copyOf range rs) as Hn.
    replace (S (r2 range) - r1 range)%nat with 0%nat in Hn by lia.
    destruct (copyOf range rs); [|discriminate]. simpl.
    now apply cellOf_ensureRows_old.
Qed.

Lemma undo_misses_writes_outside_the_range_witness :
  exists w1 w2 ev s2,
    setValues Samples.cellA1 [[VNum 1%float; VNum 2%float]] None Samples.fresh
    = (w1, Ret tt) /\
    undo w1 = (w2, Ret (Some ev)) /\
    op ev = OpSetValues Samples.cellA1 [[VNum 1%float; VNum 2%float]] None /\
    JsMap.get "Sheet1" (sheets w2) = Some s2 /\
    cellOf (rows s2) (0 + 0) (0 + 1)
    = Some (valueCell None (VNum 2%float)
              (orDefault (cellOf (rows (Samples.firstSheet Samples.fresh)) (0 + 0) (0 + 1)))).
Proof.
  apply (undo_misses_writes_outside_the_range Samples.fresh Samples.cellA1
           [[VNum 1%float; VNum 2%float]] None (Samples.firstSheet Samples.fresh)
           0 1 [VNum 1%float; VNum 2%float] (VNum 2%float));
    solve [reflexivity | simpl; lia].
Defined.

End UndoScope.

(** ** The import of data without formulas *)

Module ImportFacts.
Import Text Codec Engine Evaluator Predicates EngineFacts JsMapFacts SheetFacts KeepFacts
  SquareFacts.

Lemma loaded_distinct (data : list SheetData) :
  forall m : JsMap.t Sheet,
    NoDup (map fst m ++ map dataName data) ->
    foldl (fun m s => JsMap.set (dataName s) (loadSheet s) m) m data
    = m ++ map (fun s => (dataName s, loadSheet s)) data.
Proof.
  induction data as [|s0 data IH]; intros m Hnd; simpl; [now rewrite app_nil_r|].
  assert (Hnone : JsMap.get (dataName s0) m = None).
  { apply get_None_keys. intros Hin.
    apply NoDup_app in Hnd as (_ & Hd & _). apply (Hd _ Hin). simpl. left. }
  rewrite (set_absent (dataName s0) (loadSheet s0) m Hnone).
  rewrite IH; [now rewrite <- app_assoc|].
  rewrite map_app. simpl. now rewrite <- app_assoc.
Qed.

Section WithHost.
Context {host : JsHost}.

(** X29. The import of a non-empty list of sheets with distinct names and
    without live formulas returns, once the fuel exceeds the numbers of
    rows and of columns. The workbook then holds exactly the sheets of the
    data, in their order, each cell with the value ([null] when absent),
    format and provenance given for it, a [null] cell of the data being the
    default cell, and every row padded to the longest row of its sheet; its
    history is the single checkpoint [import]. *)
Theorem import_of_plain_data (fuel : nat) (data : list SheetData) (w : Workbook) :
  data <> [] ->
  NoDup (map dataName data) ->
  (forall s, s ∈ data ->
     plainGrid (rows (loadSheet s)) /\
     (length (dataRows s) < fuel)%nat /\ (widest (rows (loadSheet s)) < fuel)%nat) ->
  loadFromJSON fuel data w
  = (mkWorkbook (wbId w)
       (map (fun s => squareSheet (dataName s, loadSheet s)) data)
       [mkCheckpoint (Some "import") 0] [], Ret tt).
Proof.
  intros Hne Hnd Hall. rewrite loadFromJSON_start.
  assert (Hl : loadedSheets data = map (fun s => (dataName s, loadSheet s)) data).
  { unfold loadedSheets. rewrite (loaded_distinct data [] Hnd). simpl.
    unfold JsMap.size. rewrite length_map. destruct data; [contradiction | reflexivity]. }
  rewrite Hl. rewrite evaluateAll_plain.
  - cbn [sheets wbId checkpoints events]. now rewrite <- list_fmap_compose.
  - cbn [sheets]. now rewrite <- list_fmap_compose.
  - cbn [sheets]. intros k s Hin. apply list_elem_of_fmap in Hin as (d & [= -> ->] & Hd).
    destruct (Hall d Hd) as (H1 & H2 & H3). split; [reflexivity|].
    split; [exact H1|]. split; [|exact H3].
    unfold loadSheet. cbn [rows]. now rewrite length_map.
Qed.

End WithHost.

Lemma import_of_plain_data_witness :
  let data :=
    [mkSheetData "P&L" [Some [Some (mkCell (VStr "Revenue") None None None);
                              Some (mkCell (VNum 10%float) None (Some "currency") None)];
                        None;
                        Some [None]];
     mkSheetData "Notes" []] in
  loadFromJSON (host := SampleHost.host) 4 data Samples.fresh
  = (mkWorkbook (wbId Samples.fresh)
       (map (fun s => squareSheet (dataName s, loadSheet s)) data)
       [mkCheckpoint (Some "import") 0] [], Ret tt).
Proof.
  apply (import_of_plain_data (host := SampleHost.host) 4
           [mkSheetData "P&L" [Some [Some (mkCell (VStr "Revenue") None None None);
                                     Some (mkCell (VNum 10%float) None (Some "currency") None)];
                               None;
                               Some [None]];
            mkSheetData "Notes" []] Samples.fresh); [discriminate| |].
  - apply NoDup_cons. split; [|apply NoDup_singleton].
    intros H. apply list_elem_of_singleton in H. discriminate.
  - intros s Hs.
    repeat (apply elem_of_cons in Hs as [->|Hs]); [| |now apply not_elem_of_nil in Hs];
      (split; [|split; simpl; lia]); intros row x Hrow Hx; simpl in Hrow.
    + repeat (apply elem_of_cons in Hrow as [->|Hrow]);
        try (now apply not_elem_of_nil in Hrow);
        repeat (apply elem_of_cons in Hx as [->|Hx]);
        try (now apply not_elem_of_nil in Hx);
        eexists; split; reflexivity.
    + now apply not_elem_of_nil in Hrow.
Defined.

End ImportFacts.
